(** * LED effect controller (package [ledcontroller]): model and properties

    A shallow embedding of [ledcontroller.go]: the package-level control
    variables, the channel objects they point to, the three brightness
    files, the timed primitives [FadeColor], [PulseColor], [BlinkColor] and
    the scheduler entry points ([StartEffect], [StopCurrentEffect],
    [SetLEDEnabled], ...).

    Conventions of the model
    - Go's [int] and [time.Duration] are 64-bit; they are [Z] here, with the
      wrap-around written out where the code computes ([wrap64]).
    - A [chan bool] only ever carries [true], so a channel object is its
      capacity and the number of buffered values.
    - Every function that touches the shared variables is a state
      transformer over [World].  A mutex-protected section is one atomic
      transformer.
    - Time only passes in [time.Sleep] and in a [select] with a
      [time.After] case.  What other goroutines do meanwhile is a schedule
      [env] of timed actions, delivered while the running goroutine waits.
    - [log.Println]/[log.Printf] calls are not modelled. *)

From Stdlib Require Import ZArith Lia Bool.
From Stdlib Require Import SpecFloat.
From stdpp Require Import base list.

Open Scope Z_scope.

(** ** Constants *)

Definition EFFECT_NONE : Z := 0.
Definition EFFECT_BOOTUP : Z := 1.
Definition EFFECT_NOTIFICATION : Z := 2.
Definition EFFECT_CALL : Z := 3.
Definition EFFECT_CHARGING_LOW : Z := 4.
Definition EFFECT_CHARGING_HIGH : Z := 5.
Definition EFFECT_CHARGING_COMPLETE : Z := 6.
Definition EFFECT_WIFI_CONNECTING : Z := 7.
Definition EFFECT_WIFI_CONNECTED : Z := 8.
Definition EFFECT_WIFI_FAILED : Z := 9.
Definition EFFECT_BLUETOOTH_CONNECTING : Z := 10.
Definition EFFECT_BLUETOOTH_CONNECTED : Z := 11.
Definition EFFECT_BLUETOOTH_FAILED : Z := 12.
Definition EFFECT_CAMERA_FOCUS : Z := 13.
Definition EFFECT_CAMERA_CAPTURE : Z := 14.
Definition EFFECT_CAMERA_SAVE : Z := 15.
Definition EFFECT_PARTY : Z := 16.
Definition EFFECT_MUSIC : Z := 17.

(** [time.Duration] counts nanoseconds. *)
Definition Nanosecond : Z := 1.
Definition Millisecond : Z := 1000000.
Definition Second : Z := 1000000000.

Definition int64_min : Z := - 2 ^ 63.
Definition int64_max : Z := 2 ^ 63 - 1.
Definition in_int64 (z : Z) : Prop := int64_min <= z <= int64_max.

(** Two's complement wrap-around of 64-bit signed arithmetic. *)
Definition wrap64 (z : Z) : Z := (z + 2 ^ 63) mod 2 ^ 64 - 2 ^ 63.

(** ** Data *)

(** [Color]: three Go ints, not clamped by the type. *)
Record Color := mkColor { Red : Z; Green : Z; Blue : Z }.

Definition ColorRed : Color := mkColor 255 0 0.
Definition ColorGreen : Color := mkColor 0 255 0.
Definition ColorBlue : Color := mkColor 0 0 255.
Definition ColorOff : Color := mkColor 0 0 0.

(** The three brightness files ([RedLEDPath], [GreenLEDPath],
    [BlueLEDPath]). *)
Inductive LEDPath := RedLEDPath | GreenLEDPath | BlueLEDPath.

Definition LEDPath_eqb (p q : LEDPath) : bool :=
  match p, q with
  | RedLEDPath, RedLEDPath | GreenLEDPath, GreenLEDPath
  | BlueLEDPath, BlueLEDPath => true
  | _, _ => false
  end.

(** Go [error] values produced by this package. *)
Inductive error :=
| ErrWriteFile (p : LEDPath)          (* what ioutil.WriteFile returned *)
| ErrColorRange                       (* setColor: value outside 0-255 *)
| ErrSet (p : LEDPath) (e : error).   (* setColor: wrapped channel error *)

(** One call of [ioutil.WriteFile] on a brightness file: the path, the
    integer whose decimal rendering was written, and whether the call
    succeeded. *)
Record Write := mkWrite { wr_path : LEDPath; wr_value : Z; wr_ok : bool }.

(** A [chan bool] object. *)
Record Chan := mkChan { ch_cap : nat; ch_buf : nat }.

(** The exported effect functions, each a wrapper around
    [runTimedEffect]. *)
Inductive EffectFn :=
| BootupEffect | NotificationEffect | CallNotificationEffect
| ChargingLowBatteryEffect | ChargingHighBatteryEffect
| ChargingCompleteEffect | WiFiConnectingEffect | WiFiConnectedEffect
| WiFiFailedEffect | BluetoothConnectingEffect | BluetoothConnectedEffect
| BluetoothFailedEffect | PartyEffect | CameraFocusEffect
| CameraCaptureEffect | CameraSavePhotoEffect | MusicEffect.

(** The [effectType] each of them hands to [runTimedEffect]. *)
Definition effect_type_of (f : EffectFn) : Z :=
  match f with
  | BootupEffect => EFFECT_BOOTUP
  | NotificationEffect => EFFECT_NOTIFICATION
  | CallNotificationEffect => EFFECT_CALL
  | ChargingLowBatteryEffect => EFFECT_CHARGING_LOW
  | ChargingHighBatteryEffect => EFFECT_CHARGING_HIGH
  | ChargingCompleteEffect => EFFECT_CHARGING_COMPLETE
  | WiFiConnectingEffect => EFFECT_WIFI_CONNECTING
  | WiFiConnectedEffect => EFFECT_WIFI_CONNECTED
  | WiFiFailedEffect => EFFECT_WIFI_FAILED
  | BluetoothConnectingEffect => EFFECT_BLUETOOTH_CONNECTING
  | BluetoothConnectedEffect => EFFECT_BLUETOOTH_CONNECTED
  | BluetoothFailedEffect => EFFECT_BLUETOOTH_FAILED
  | PartyEffect => EFFECT_PARTY
  | CameraFocusEffect => EFFECT_CAMERA_FOCUS
  | CameraCaptureEffect => EFFECT_CAMERA_CAPTURE
  | CameraSavePhotoEffect => EFFECT_CAMERA_SAVE
  | MusicEffect => EFFECT_MUSIC
  end.

(** A goroutine launched by [StartEffect] with [go XEffect()].  [t_token]
    is bookkeeping of the model: the channel object [stopChan] pointed to
    when the goroutine was launched.  The code keeps no such record. *)
Record Task := mkTask { t_fn : EffectFn; t_token : nat }.

(** What another goroutine may do while the observed one waits. *)
Inductive Action :=
| AStartEffect (effectType : Z)
| AStopCurrentEffect
| ASetLEDEnabled (enabled : bool)
| AEnter (effectType : Z)    (* locked prologue of runTimedEffect *)
| AFinish (t : Task)         (* tail of a runTimedEffect goroutine *)
| AForward (local : nat)     (* listener: <-stopChan, then local <- true *)
| ASend (ch : nat).          (* non-blocking ch <- true *)

(** Synchronisation points of the observed goroutine, in program order. *)
Inductive Event :=
| EvSetColor (c : Color)            (* a call of setColor *)
| EvPoll (got : bool)               (* select { case <-stop: ; default: } *)
| EvWait (d : Z) (got : bool).      (* select { case <-stop: ; case <-time.After(d): } *)

(** The whole state. *)
Record World := mkWorld {
  (* package-level variables *)
  stopChan : nat;
  effectActive : bool;
  currentEffectType : Z;
  ledEnabled : bool;
  (* channel objects, addressed by index; make appends *)
  chans : list Chan;
  (* goroutines launched by StartEffect *)
  tasks : list Task;
  (* hardware: every WriteFile issued, oldest first, and the outcome of the
     WriteFile calls still to come (exhausted: they succeed) *)
  writes : list Write;
  io : list bool;
  (* clock, schedule of the other goroutines, synchronisation trace *)
  now : Z;
  env : list (Z * Action);
  trace : list Event
}.

Definition set_stopChan (x : nat) (w : World) : World :=
  mkWorld x (effectActive w) (currentEffectType w) (ledEnabled w) (chans w)
          (tasks w) (writes w) (io w) (now w) (env w) (trace w).
Definition set_effectActive (x : bool) (w : World) : World :=
  mkWorld (stopChan w) x (currentEffectType w) (ledEnabled w) (chans w)
          (tasks w) (writes w) (io w) (now w) (env w) (trace w).
Definition set_currentEffectType (x : Z) (w : World) : World :=
  mkWorld (stopChan w) (effectActive w) x (ledEnabled w) (chans w)
          (tasks w) (writes w) (io w) (now w) (env w) (trace w).
Definition set_ledEnabled (x : bool) (w : World) : World :=
  mkWorld (stopChan w) (effectActive w) (currentEffectType w) x (chans w)
          (tasks w) (writes w) (io w) (now w) (env w) (trace w).
Definition set_chans (x : list Chan) (w : World) : World :=
  mkWorld (stopChan w) (effectActive w) (currentEffectType w) (ledEnabled w) x
          (tasks w) (writes w) (io w) (now w) (env w) (trace w).
Definition set_tasks (x : list Task) (w : World) : World :=
  mkWorld (stopChan w) (effectActive w) (currentEffectType w) (ledEnabled w)
          (chans w) x (writes w) (io w) (now w) (env w) (trace w).
Definition set_hw (ws : list Write) (o : list bool) (w : World) : World :=
  mkWorld (stopChan w) (effectActive w) (currentEffectType w) (ledEnabled w)
          (chans w) (tasks w) ws o (now w) (env w) (trace w).
Definition set_now (x : Z) (w : World) : World :=
  mkWorld (stopChan w) (effectActive w) (currentEffectType w) (ledEnabled w)
          (chans w) (tasks w) (writes w) (io w) x (env w) (trace w).
Definition set_env (x : list (Z * Action)) (w : World) : World :=
  mkWorld (stopChan w) (effectActive w) (currentEffectType w) (ledEnabled w)
          (chans w) (tasks w) (writes w) (io w) (now w) x (trace w).
Definition set_trace (x : list Event) (w : World) : World :=
  mkWorld (stopChan w) (effectActive w) (currentEffectType w) (ledEnabled w)
          (chans w) (tasks w) (writes w) (io w) (now w) (env w) x.
Definition emit (e : Event) (w : World) : World :=
  mkWorld (stopChan w) (effectActive w) (currentEffectType w) (ledEnabled w)
          (chans w) (tasks w) (writes w) (io w) (now w) (env w) (trace w ++ [e]).

(** The state after [init()]: [stopChan = make(chan bool, 5)], object 0. *)
Definition init_world : World :=
  mkWorld 0%nat false EFFECT_NONE true [mkChan 5 0] [] [] [] 0 [] [].

(** ** State transformers *)

Definition M (A : Type) : Type := World -> A * World.

Definition ret {A} (a : A) : M A := fun w => (a, w).
Definition bind {A B} (m : M A) (k : A -> M B) : M B :=
  fun w => let (a, w') := m w in k a w'.
Definition modify (f : World -> World) : M unit := fun w => (tt, f w).
Definition gets {A} (f : World -> A) : M A := fun w => (f w, w).

Notation "x <- m ;; k" := (bind m (fun x => k))
  (at level 100, m at next level, right associativity).
Notation "m ;;; k" := (bind m (fun _ => k))
  (at level 100, right associativity).

(** ** Channels *)

(** [make(chan bool, n)]: a new object; its index is returned. *)
Definition make_chan (n : nat) : M nat := fun w =>
  (length (chans w), set_chans (chans w ++ [mkChan n 0]) w).

(** Is a receive on [ch] ready?  A channel that does not exist behaves as a
    nil channel: never ready. *)
Definition chan_ready (ch : nat) (w : World) : bool :=
  match chans w !! ch with
  | Some c => negb (Nat.eqb (ch_buf c) 0)
  | None => false
  end.

(** [select { case ch <- true: ; default: }]. *)
Definition try_send (ch : nat) : M bool := fun w =>
  match chans w !! ch with
  | Some c =>
      if Nat.ltb (ch_buf c) (ch_cap c)
      then (true, set_chans (<[ch := mkChan (ch_cap c) (S (ch_buf c))]> (chans w)) w)
      else (false, w)
  | None => (false, w)
  end.

(** [select { case <-ch: ; default: }], without the trace. *)
Definition try_recv (ch : nat) : M bool := fun w =>
  match chans w !! ch with
  | Some c =>
      match ch_buf c with
      | S n => (true, set_chans (<[ch := mkChan (ch_cap c) n]> (chans w)) w)
      | O => (false, w)
      end
  | None => (false, w)
  end.

(** [time.Sleep(d)]. *)
Definition Sleep (d : Z) : M unit :=
  modify (fun w => set_now (now w + Z.max d 0) w).

(** ** Hardware *)

(** [ioutil.WriteFile(path, []byte(fmt.Sprintf("%d", value)), 0644)]. *)
Definition WriteFile (p : LEDPath) (value : Z) : M (option error) := fun w =>
  let ok := match io w with b :: _ => b | [] => true end in
  (if ok then None else Some (ErrWriteFile p),
   set_hw (writes w ++ [mkWrite p value ok]) (tl (io w)) w).

(** Content of a brightness file after a log of writes: the value of the
    last successful one. *)
Fixpoint brightness (p : LEDPath) (ws : list Write) : option Z :=
  match ws with
  | [] => None
  | x :: ws' =>
      match brightness p ws' with
      | Some v => Some v
      | None => if LEDPath_eqb (wr_path x) p && wr_ok x
                then Some (wr_value x) else None
      end
  end.

Definition IsLEDEnabled : M bool := gets ledEnabled.

Definition clamp (value : Z) : Z :=
  let value := if value <? 0 then 0 else value in
  if value >? 255 then 255 else value.

(** The common body of [setRed], [setGreen] and [setBlue]: read the enable
    flag under the lock, clamp, write. *)
Definition set_channel (p : LEDPath) (value : Z) : M (option error) :=
  enabled <- gets ledEnabled ;;
  if negb enabled then ret None
  else WriteFile p (clamp value).

Definition setRed (value : Z) : M (option error) := set_channel RedLEDPath value.
Definition setGreen (value : Z) : M (option error) := set_channel GreenLEDPath value.
Definition setBlue (value : Z) : M (option error) := set_channel BlueLEDPath value.

Definition out_of_range (c : Color) : bool :=
  (Red c <? 0) || (Red c >? 255) ||
  (Green c <? 0) || (Green c >? 255) ||
  (Blue c <? 0) || (Blue c >? 255).

Definition setColor (color : Color) : M (option error) :=
  modify (emit (EvSetColor color)) ;;;
  enabled <- IsLEDEnabled ;;
  if negb enabled then ret None
  else if out_of_range color then ret (Some ErrColorRange)
  else
    e <- setRed (Red color) ;;
    match e with
    | Some err => ret (Some (ErrSet RedLEDPath err))
    | None =>
        e <- setGreen (Green color) ;;
        match e with
        | Some err => ret (Some (ErrSet GreenLEDPath err))
        | None =>
            e <- setBlue (Blue color) ;;
            match e with
            | Some err => ret (Some (ErrSet BlueLEDPath err))
            | None => ret None
            end
        end
    end.

(** ** Scheduler *)

(** [select { case stopChan <- true: ; default: }] *)
Definition signal_stop : M unit :=
  ch <- gets stopChan ;;
  _ <- try_send ch ;;
  ret tt.

Definition StopCurrentEffect : M unit :=
  active <- gets effectActive ;;
  (if active then signal_stop else ret tt) ;;;
  modify (set_currentEffectType EFFECT_NONE).

Definition TurnOffLED : M (option error) :=
  StopCurrentEffect ;;; setColor ColorOff.

Definition SetRed (value : Z) : M (option error) :=
  StopCurrentEffect ;;; setRed value.
Definition SetGreen (value : Z) : M (option error) :=
  StopCurrentEffect ;;; setGreen value.
Definition SetBlue (value : Z) : M (option error) :=
  StopCurrentEffect ;;; setBlue value.
Definition EnableLED (color : Color) : M (option error) :=
  StopCurrentEffect ;;; setColor color.
Definition SetRGB (red green blue : Z) : M (option error) :=
  StopCurrentEffect ;;; setColor (mkColor red green blue).

Definition GetCurrentEffect : M Z :=
  active <- gets effectActive ;;
  if negb active then ret EFFECT_NONE
  else gets currentEffectType.

Definition IsEffectActive : M bool := gets effectActive.

(** The three direct writes of [SetLEDEnabled] ignore what [WriteFile]
    returns. *)
Definition SetLEDEnabled (enabled : bool) : M bool :=
  prevEnabled <- gets ledEnabled ;;
  modify (set_ledEnabled enabled) ;;;
  (if prevEnabled && negb enabled then
     _ <- WriteFile RedLEDPath 0 ;;
     _ <- WriteFile GreenLEDPath 0 ;;
     _ <- WriteFile BlueLEDPath 0 ;;
     ret tt
   else ret tt) ;;;
  ret true.

(** The [switch effectType] of [StartEffect]: the function launched by
    each [case], [None] for [default]. *)
Definition dispatch (effectType : Z) : option EffectFn :=
  if effectType =? EFFECT_BOOTUP then Some BootupEffect
  else if effectType =? EFFECT_NOTIFICATION then Some NotificationEffect
  else if effectType =? EFFECT_CALL then Some CallNotificationEffect
  else if effectType =? EFFECT_CHARGING_LOW then Some ChargingLowBatteryEffect
  else if effectType =? EFFECT_CHARGING_HIGH then Some ChargingHighBatteryEffect
  else if effectType =? EFFECT_CHARGING_COMPLETE then Some ChargingCompleteEffect
  else if effectType =? EFFECT_WIFI_CONNECTING then Some WiFiConnectingEffect
  else if effectType =? EFFECT_WIFI_CONNECTED then Some WiFiConnectedEffect
  else if effectType =? EFFECT_WIFI_FAILED then Some WiFiFailedEffect
  else if effectType =? EFFECT_BLUETOOTH_CONNECTING then Some BluetoothConnectingEffect
  else if effectType =? EFFECT_BLUETOOTH_CONNECTED then Some BluetoothConnectedEffect
  else if effectType =? EFFECT_BLUETOOTH_FAILED then Some BluetoothFailedEffect
  else if effectType =? EFFECT_PARTY then Some PartyEffect
  else if effectType =? EFFECT_CAMERA_FOCUS then Some CameraFocusEffect
  else if effectType =? EFFECT_CAMERA_CAPTURE then Some CameraCaptureEffect
  else if effectType =? EFFECT_CAMERA_SAVE then Some CameraSavePhotoEffect
  else None.

(** [go f()]: the goroutine is recorded with the channel object on record
    at that moment. *)
Definition spawn (f : EffectFn) : M unit :=
  modify (fun w => set_tasks (tasks w ++ [mkTask f (stopChan w)]) w).

Definition StartEffect (effectType : Z) : M bool :=
  enabled <- IsLEDEnabled ;;
  if negb enabled then ret false
  else
    active <- gets effectActive ;;
    (if active then signal_stop ;;; Sleep (100 * Millisecond) else ret tt) ;;;
    ch <- make_chan 1 ;;
    modify (set_stopChan ch) ;;;
    modify (set_effectActive true) ;;;
    modify (set_currentEffectType effectType) ;;;
    match dispatch effectType with
    | Some f => spawn f ;;; ret true
    | None => modify (set_effectActive false) ;;; ret false
    end.

(** [runTimedEffect], the section between [mutex.Lock()] and
    [mutex.Unlock()] that precedes the [go func()]. *)
Definition runTimedEffect_enter (effectType : Z) : M unit :=
  active <- gets effectActive ;;
  (if active then signal_stop ;;; Sleep (50 * Millisecond) else ret tt) ;;;
  modify (set_currentEffectType effectType) ;;;
  modify (set_effectActive true).

(** [runTimedEffect], what the goroutine does once [effect(localStopChan)]
    has returned: [setColor(ColorOff)], [close(effectDone)], a 50 ms sleep,
    and the state update under the lock.  The update consults neither
    [stopChan] nor anything that would identify the goroutine; the task is
    an argument only so that statements can speak about it. *)
Definition runTimedEffect_finish (t : Task) : M unit :=
  _ <- setColor ColorOff ;;
  Sleep (50 * Millisecond) ;;;
  modify (set_effectActive false) ;;;
  modify (set_currentEffectType EFFECT_NONE).

(** The listener goroutine of [runTimedEffect], its [case <-stopChan]
    followed by the first non-blocking [localStopChan <- true]. *)
Definition listener_forward (local : nat) : M unit :=
  ch <- gets stopChan ;;
  got <- try_recv ch ;;
  if got then _ <- try_send local ;; ret tt else ret tt.

(** One action of another goroutine. *)
Definition run_action (a : Action) : M unit :=
  match a with
  | AStartEffect k => _ <- StartEffect k ;; ret tt
  | AStopCurrentEffect => StopCurrentEffect
  | ASetLEDEnabled b => _ <- SetLEDEnabled b ;; ret tt
  | AEnter k => runTimedEffect_enter k
  | AFinish t => runTimedEffect_finish t
  | AForward local => listener_forward local
  | ASend ch => _ <- try_send ch ;; ret tt
  end.

(** ** Waiting *)

(** [select { case <-stop: ; default: }] *)
Definition poll_stop (stop : nat) : M bool :=
  got <- try_recv stop ;;
  modify (emit (EvPoll got)) ;;;
  ret got.

(** The goroutine is parked in a [select] on [stop] and a timer that fires
    at [deadline].  The other goroutines' actions scheduled before the
    deadline are delivered in order, each at its instant, until a value is
    buffered on [stop]; the result tells whether the wait ended that way.
    An action scheduled at the deadline itself comes after the timer.  The
    time another goroutine sleeps inside its action is its own, and so are
    its synchronisation points: the clock of the waiting goroutine stays at
    the instant of delivery and its trace is not extended. *)
Fixpoint await (stop : nat) (deadline : Z) (evs : list (Z * Action))
    (w : World) : bool * World :=
  if chan_ready stop w then (true, w)
  else
    match evs with
    | (t, a) :: evs' =>
        if t <? deadline then
          let w1 := set_env evs' (set_now (Z.max (now w) t) w) in
          let w2 := snd (run_action a w1) in
          await stop deadline evs' (set_trace (trace w1) (set_now (now w1) w2))
        else (false, set_now (Z.max (now w) deadline) w)
    | [] => (false, set_now (Z.max (now w) deadline) w)
    end.

(** [select { case <-stop: ; case <-time.After(d): }]: [true] when the
    [stop] case was taken.  When both cases are ready at once Go picks
    either; the model takes [stop]. *)
Definition wait_stop (stop : nat) (d : Z) : M bool := fun w =>
  let (ready, w1) := await stop (now w + d) (env w) w in
  let (got, w2) := if ready then try_recv stop w1 else (false, w1) in
  (got, emit (EvWait d got) w2).

(** ** float64 *)

Definition prec : Z := 53.
Definition emax : Z := 1024.

Definition float64 := spec_float.

(** [float64(n)] for an integer [n]: round to nearest, ties to even. *)
Definition float64_of_int (n : Z) : float64 := binary_normalize prec emax n 0 false.

(** [int(x)]: the fraction is discarded.  Go leaves the result open when
    the value does not fit; the model saturates (and maps NaN to 0), as
    the arm64 conversion instruction does. *)
Definition int_of_float64 (x : float64) : Z :=
  match x with
  | S754_finite s m e =>
      let mag := if 0 <=? e then Z.shiftl (Z.pos m) e
                 else Z.shiftr (Z.pos m) (- e) in
      let v := if s then - mag else mag in
      Z.max int64_min (Z.min int64_max v)
  | S754_infinity s => if s then int64_min else int64_max
  | S754_zero _ | S754_nan => 0
  end.

(** [int(float64(a) + progress*float64(b-a))], each operation rounded on
    its own (a compiler that fuses the multiplication and the addition may
    differ in the last bit before truncation). *)
Definition lerp (progress : float64) (a b : Z) : Z :=
  int_of_float64
    (SFadd prec emax (float64_of_int a)
       (SFmul prec emax progress (float64_of_int (wrap64 (b - a))))).

(** The intermediate color of [FadeColor] at [step] of [steps]. *)
Definition fade_color (from to : Color) (step steps : Z) : Color :=
  let progress := SFdiv prec emax (float64_of_int step) (float64_of_int steps) in
  mkColor (lerp progress (Red from) (Red to))
          (lerp progress (Green from) (Green to))
          (lerp progress (Blue from) (Blue to)).

(** ** Timed primitives *)

(** How a loop body ends: fall through to the next iteration, [return r],
    or the model ran out of fuel. *)
Inductive Flow := Continue | Return (r : option error) | NoFuel.

(** What a call produced: [Done r] when it returned [r], [Running] when the
    fuel given to the model was used up before it returned. *)
Inductive Outcome := Done (r : option error) | Running.

(** [FadeColor], the choice of [steps] and [stepDuration]. *)
Definition fade_plan (duration : Z) : Z * Z :=
  let steps := 50 in
  let stepDuration := Z.quot duration steps in
  if stepDuration >? 20 * Millisecond then
    let steps := Z.quot duration (20 * Millisecond) in
    let steps := if steps <? 10 then 10 else steps in
    (steps, Z.quot duration steps)
  else (steps, stepDuration).

(** [FadeColor], the loop [for remainingTime > 0]. *)
Fixpoint fade_sleep (fuel : nat) (remainingTime : Z) (stop : nat) : M Flow :=
  if remainingTime >? 0 then
    match fuel with
    | O => ret NoFuel
    | S fuel' =>
        let sleepTime :=
          if remainingTime >? 10 * Millisecond then 10 * Millisecond
          else remainingTime in
        got <- wait_stop stop sleepTime ;;
        if got then
          _ <- setColor ColorOff ;; ret (Return None)
        else
          active <- gets effectActive ;;
          if negb active then
            _ <- setColor ColorOff ;; ret (Return None)
          else fade_sleep fuel' (remainingTime - sleepTime) stop
    end
  else ret Continue.

(** Iterations the sleep loop needs for [stepDuration]. *)
Definition sleep_fuel (stepDuration : Z) : nat :=
  S (Z.to_nat (stepDuration / (10 * Millisecond))).

(** [FadeColor], the loop [for step := 0; step <= steps; step++]. *)
Fixpoint fade_loop (fuel : nat) (step steps stepDuration : Z)
    (from to : Color) (stop : nat) : M Flow :=
  if step <=? steps then
    match fuel with
    | O => ret NoFuel
    | S fuel' =>
        got <- poll_stop stop ;;
        if got then
          _ <- setColor ColorOff ;; ret (Return None)
        else
          active <- gets effectActive ;;
          if negb active then
            _ <- setColor ColorOff ;; ret (Return None)
          else
            e <- setColor (fade_color from to step steps) ;;
            match e with
            | Some err => _ <- setColor ColorOff ;; ret (Return (Some err))
            | None =>
                r <- fade_sleep (sleep_fuel stepDuration) stepDuration stop ;;
                match r with
                | Continue =>
                    fade_loop fuel' (step + 1) steps stepDuration from to stop
                | _ => ret r
                end
            end
    end
  else ret Continue.

Definition FadeColor (from to : Color) (duration : Z) (stop : nat) : M Outcome :=
  let (steps, stepDuration) := fade_plan duration in
  r <- fade_loop (Z.to_nat (steps + 1)) 0 steps stepDuration from to stop ;;
  match r with
  | Continue => ret (Done None)
  | Return e => ret (Done e)
  | NoFuel => ret Running
  end.

(** [PulseColor], the loop
    [for i := 0; pulseCount == 0 || i < pulseCount; i++]. *)
Fixpoint pulse_loop (fuel : nat) (i : Z) (color : Color) (pulseCount : Z)
    (halfDuration : Z) (stop : nat) : M Flow :=
  if (pulseCount =? 0) || (i <? pulseCount) then
    match fuel with
    | O => ret NoFuel
    | S fuel' =>
        got <- poll_stop stop ;;
        if got then _ <- setColor ColorOff ;; ret (Return None)
        else
          active <- gets effectActive ;;
          if negb active then _ <- setColor ColorOff ;; ret (Return None)
          else
            r <- FadeColor ColorOff color halfDuration stop ;;
            match r with
            | Running => ret NoFuel
            | Done (Some err) => _ <- setColor ColorOff ;; ret (Return (Some err))
            | Done None =>
                got <- poll_stop stop ;;
                if got then _ <- setColor ColorOff ;; ret (Return None)
                else
                  active <- gets effectActive ;;
                  if negb active then _ <- setColor ColorOff ;; ret (Return None)
                  else
                    r <- FadeColor color ColorOff halfDuration stop ;;
                    match r with
                    | Running => ret NoFuel
                    | Done (Some err) =>
                        _ <- setColor ColorOff ;; ret (Return (Some err))
                    | Done None =>
                        active <- gets effectActive ;;
                        if negb active then
                          _ <- setColor ColorOff ;; ret (Return None)
                        else
                          pulse_loop fuel' (wrap64 (i + 1)) color pulseCount
                                     halfDuration stop
                    end
            end
    end
  else ret Continue.

(** [PulseColor]; [fuel] bounds the number of cycles the model follows. *)
Definition PulseColor (fuel : nat) (color : Color) (pulseCount : Z)
    (pulseDuration : Z) (stop : nat) : M Outcome :=
  let halfDuration := Z.quot pulseDuration 2 in
  r <- pulse_loop fuel 0 color pulseCount halfDuration stop ;;
  match r with
  | Continue => ret (Done None)
  | Return e => ret (Done e)
  | NoFuel => ret Running
  end.

(** [BlinkColor], the loop
    [for i := 0; blinkCount == 0 || i < blinkCount; i++].  What [setColor]
    returns is dropped at every call. *)
Fixpoint blink_loop (fuel : nat) (i : Z) (color : Color) (blinkCount : Z)
    (onDuration offDuration : Z) (stop : nat) : M Flow :=
  if (blinkCount =? 0) || (i <? blinkCount) then
    match fuel with
    | O => ret NoFuel
    | S fuel' =>
        got <- poll_stop stop ;;
        if got then _ <- setColor ColorOff ;; ret (Return None)
        else
          active <- gets effectActive ;;
          if negb active then _ <- setColor ColorOff ;; ret (Return None)
          else
            _ <- setColor color ;;
            got <- wait_stop stop onDuration ;;
            if got then _ <- setColor ColorOff ;; ret (Return None)
            else
              active <- gets effectActive ;;
              if negb active then _ <- setColor ColorOff ;; ret (Return None)
              else
                _ <- setColor ColorOff ;;
                got <- wait_stop stop offDuration ;;
                if got then _ <- setColor ColorOff ;; ret (Return None)
                else
                  active <- gets effectActive ;;
                  if negb active then
                    _ <- setColor ColorOff ;; ret (Return None)
                  else
                    blink_loop fuel' (wrap64 (i + 1)) color blinkCount
                               onDuration offDuration stop
    end
  else ret Continue.

(** [BlinkColor]; [fuel] bounds the number of blinks the model follows. *)
Definition BlinkColor (fuel : nat) (color : Color) (blinkCount : Z)
    (onDuration offDuration : Z) (stop : nat) : M Outcome :=
  r <- blink_loop fuel 0 color blinkCount onDuration offDuration stop ;;
  match r with
  | Continue => ret (Done None)
  | Return e => ret (Done e)
  | NoFuel => ret Running
  end.

(** A world in which a primitive is observed: the effect is marked active,
    object 1 is the goroutine's local stop channel
    ([make(chan bool, 5)]), the clock is at 0. *)
Definition running_world (outcomes : list bool) (sched : list (Z * Action)) : World :=
  mkWorld 0%nat true EFFECT_NOTIFICATION true [mkChan 1 0; mkChan 5 0] []
          [] outcomes 0 sched [].

(** ** Vocabulary of the statements *)

(** The [case] labels of the [switch] in [StartEffect], in source order. *)
Definition case_labels : list Z :=
  [EFFECT_BOOTUP; EFFECT_NOTIFICATION; EFFECT_CALL; EFFECT_CHARGING_LOW;
   EFFECT_CHARGING_HIGH; EFFECT_CHARGING_COMPLETE; EFFECT_WIFI_CONNECTING;
   EFFECT_WIFI_CONNECTED; EFFECT_WIFI_FAILED; EFFECT_BLUETOOTH_CONNECTING;
   EFFECT_BLUETOOTH_CONNECTED; EFFECT_BLUETOOTH_FAILED; EFFECT_PARTY;
   EFFECT_CAMERA_FOCUS; EFFECT_CAMERA_CAPTURE; EFFECT_CAMERA_SAVE].

(** An effect kind is recognized when the [switch] has a [case] for it. *)
Definition recognized (effectType : Z) : Prop := In effectType case_labels.

(** A color with a channel outside 0..255. *)
Definition invalid_color (c : Color) : Prop :=
  Red c < 0 \/ Red c > 255 \/ Green c < 0 \/ Green c > 255 \/
  Blue c < 0 \/ Blue c > 255.

(** The paths and values of a list of writes, outcomes dropped. *)
Definition issued (ws : list Write) : list (LEDPath * Z) :=
  map (fun x => (wr_path x, wr_value x)) ws.

(** Well-formed worlds: [stopChan] points to an existing channel object,
    and every channel object has room for at least one value and holds no
    more than its capacity. *)
Definition chan_ok (c : Chan) : Prop := (1 <= ch_cap c)%nat /\ (ch_buf c <= ch_cap c)%nat.

Definition wf (w : World) : Prop :=
  (stopChan w < length (chans w))%nat /\ Forall chan_ok (chans w).

(** Worlds the system can reach from [init_world].  A step is an action
    of the model (an exported call, the prologue or the tail of
    [runTimedEffect], its listener, a send), or something an effect
    goroutine does by itself: it makes its local stop channel
    ([make(chan bool, 5)]), receives on a channel (in a poll or in a
    wait), calls [setColor] or one of [setRed], [setGreen], [setBlue].
    The hardware's future answers, the clock, the schedule and the trace
    are the observer's and may become anything.  The channel objects are
    the [chan bool] ones; [effectDone], a [chan struct{}] that is only
    ever closed, is not among them. *)
Inductive reachable : World -> Prop :=
| reach_init : reachable init_world
| reach_step a w : reachable w -> reachable (snd (run_action a w))
| reach_make w : reachable w -> reachable (snd (make_chan 5 w))
| reach_recv ch w : reachable w -> reachable (snd (try_recv ch w))
| reach_setColor c w : reachable w -> reachable (snd (setColor c w))
| reach_set_channel p v w : reachable w -> reachable (snd (set_channel p v w))
| reach_io o w : reachable w -> reachable (set_hw (writes w) o w)
| reach_time n ev tr w :
    reachable w -> reachable (set_trace tr (set_env ev (set_now n w))).

(** The observations a client can make through the exported getters, and
    on the hardware. *)
Record Observation := mkObs {
  obs_active : bool;                 (* IsEffectActive() *)
  obs_effect : Z;                    (* GetCurrentEffect() *)
  obs_enabled : bool;                (* IsLEDEnabled() *)
  obs_hw : list Write                (* what was written to the files *)
}.

Definition observe (w : World) : Observation :=
  mkObs (fst (IsEffectActive w)) (fst (GetCurrentEffect w))
        (fst (IsLEDEnabled w)) (writes w).

(** Two effects started one after the other: [StartEffect(EFFECT_BOOTUP)]
    and the prologue of its goroutine, then
    [StartEffect(EFFECT_NOTIFICATION)] and the prologue of its goroutine.
    The first goroutine has not finished yet. *)
Definition two_started : World :=
  snd (runTimedEffect_enter EFFECT_NOTIFICATION
    (snd (StartEffect EFFECT_NOTIFICATION
      (snd (runTimedEffect_enter EFFECT_BOOTUP
        (snd (StartEffect EFFECT_BOOTUP init_world))))))).

(** The goroutine of the first of them. *)
Definition first_task : Task := mkTask BootupEffect 1.

(** Nothing can end a wait early: the effect is marked active, no value is
    buffered on [stop], and no other goroutine is scheduled to act. *)
Definition quiet (stop : nat) (w : World) : Prop :=
  effectActive w = true /\ chan_ready stop w = false /\ env w = [].

(** Number of [setColor] calls in a trace. *)
Definition setColor_calls (tr : list Event) : nat :=
  length (List.filter
            (fun e => match e with EvSetColor _ => true | _ => false end) tr).

(** Every timed wait of the trace asks for at most 10 ms. *)
Definition short_wait (e : Event) : Prop :=
  match e with
  | EvWait d _ => d <= 10 * Millisecond
  | _ => True
  end.

Definition short_waits (tr : list Event) : Prop := Forall short_wait tr.

(** [w'] continues the trace of [w], with short waits only. *)
Definition extends_short (w w' : World) : Prop :=
  exists tr, trace w' = trace w ++ tr /\ short_waits tr.

(** The synchronisation points of one uninterrupted blink. *)
Definition blink_events (color : Color) (onDuration offDuration : Z) : list Event :=
  [EvPoll false; EvSetColor color; EvWait onDuration false;
   EvSetColor ColorOff; EvWait offDuration false].

(** ** Effect bodies

    The closures the effect functions hand to [runTimedEffect].  The
    bodies of [MusicEffect], [PartyEffect] and [BootupEffect] read the wall
    clock and are not modelled. *)

(** Whether a body has returned, or the fuel of the model was used up
    while it was still looping. *)
Inductive Status := Finished | StillRunning.

(** The shape shared by [BluetoothConnectedEffect], [WiFiConnectedEffect],
    [CameraFocusEffect] and [CameraSavePhotoEffect]: a color held for [d],
    then off; both branches of the [select] turn the LED off and return. *)
Definition solid_effect (color : Color) (d : Z) (stop : nat) : M Status :=
  _ <- setColor color ;;
  got <- wait_stop stop d ;;
  if got then _ <- setColor ColorOff ;; ret Finished
  else _ <- setColor ColorOff ;; ret Finished.

Definition BluetoothConnectedEffect_body : nat -> M Status :=
  solid_effect ColorBlue (3 * Second).
Definition WiFiConnectedEffect_body : nat -> M Status :=
  solid_effect ColorGreen (3 * Second).
Definition CameraFocusEffect_body : nat -> M Status :=
  solid_effect (mkColor 255 128 0) (2 * Second).
Definition CameraSavePhotoEffect_body : nat -> M Status :=
  solid_effect ColorGreen (1 * Second).

Definition CameraCaptureEffect_body (stop : nat) : M Status :=
  _ <- setColor (mkColor 255 255 255) ;;
  got <- wait_stop stop (1 * Second) ;;
  if got then _ <- setColor ColorOff ;; ret Finished
  else
    _ <- setColor ColorOff ;;
    got <- wait_stop stop (500 * Millisecond) ;;
    if got then _ <- setColor ColorOff ;; ret Finished
    else
      _ <- setColor (mkColor 255 255 255) ;;
      got <- wait_stop stop (200 * Millisecond) ;;
      if got then _ <- setColor ColorOff ;; ret Finished
      else _ <- setColor ColorOff ;; ret Finished.

(** [CallNotificationEffect], the [for] loop around [isRed]. *)
Fixpoint call_loop (fuel : nat) (isRed : bool) (stop : nat) : M Status :=
  match fuel with
  | O => ret StillRunning
  | S fuel' =>
      _ <- setColor (if isRed then ColorRed else ColorBlue) ;;
      got <- wait_stop stop (200 * Millisecond) ;;
      if got then _ <- setColor ColorOff ;; ret Finished
      else
        _ <- setColor ColorOff ;;
        got <- wait_stop stop (200 * Millisecond) ;;
        if got then _ <- setColor ColorOff ;; ret Finished
        else call_loop fuel' (negb isRed) stop
  end.

Definition CallNotificationEffect_body (fuel : nat) (stop : nat) : M Status :=
  call_loop fuel true stop.

(** [ChargingCompleteEffect], the [for] loop that polls every 100 ms. *)
Fixpoint charging_complete_loop (fuel : nat) (stop : nat) : M Status :=
  match fuel with
  | O => ret StillRunning
  | S fuel' =>
      got <- wait_stop stop (100 * Millisecond) ;;
      if got then _ <- setColor ColorOff ;; ret Finished
      else charging_complete_loop fuel' stop
  end.

Definition ChargingCompleteEffect_body (fuel : nat) (stop : nat) : M Status :=
  _ <- setColor ColorBlue ;;
  charging_complete_loop fuel stop.

(** A primitive, then [setColor(ColorOff)]; the primitive's error is only
    logged. *)
Definition then_off (prim : M Outcome) : M Status :=
  r <- prim ;;
  match r with
  | Running => ret StillRunning
  | Done _ => _ <- setColor ColorOff ;; ret Finished
  end.

Definition NotificationEffect_body (fuel : nat) (stop : nat) : M Status :=
  then_off (PulseColor fuel ColorGreen 0 (2 * Second) stop).
Definition WiFiConnectingEffect_body (fuel : nat) (stop : nat) : M Status :=
  then_off (PulseColor fuel ColorGreen 0 (2 * Second + 500 * Millisecond) stop).
Definition ChargingLowBatteryEffect_body (fuel : nat) (stop : nat) : M Status :=
  then_off (PulseColor fuel ColorRed 0 (2 * Second) stop).
Definition ChargingHighBatteryEffect_body (fuel : nat) (stop : nat) : M Status :=
  then_off (PulseColor fuel ColorGreen 0 (2 * Second) stop).
Definition BluetoothConnectingEffect_body (fuel : nat) (stop : nat) : M Status :=
  then_off (BlinkColor fuel ColorBlue 0 (300 * Millisecond) (500 * Millisecond) stop).
Definition BluetoothFailedEffect_body (fuel : nat) (stop : nat) : M Status :=
  then_off (BlinkColor fuel ColorRed 3 (200 * Millisecond) (400 * Millisecond) stop).
Definition WiFiFailedEffect_body (fuel : nat) (stop : nat) : M Status :=
  then_off (BlinkColor fuel ColorRed 3 (300 * Millisecond) (300 * Millisecond) stop).

(** The body of each modelled effect function. *)
Definition effect_body (f : EffectFn) (fuel : nat) : option (nat -> M Status) :=
  match f with
  | NotificationEffect => Some (NotificationEffect_body fuel)
  | CallNotificationEffect => Some (CallNotificationEffect_body fuel)
  | ChargingLowBatteryEffect => Some (ChargingLowBatteryEffect_body fuel)
  | ChargingHighBatteryEffect => Some (ChargingHighBatteryEffect_body fuel)
  | ChargingCompleteEffect => Some (ChargingCompleteEffect_body fuel)
  | WiFiConnectingEffect => Some (WiFiConnectingEffect_body fuel)
  | WiFiConnectedEffect => Some WiFiConnectedEffect_body
  | WiFiFailedEffect => Some (WiFiFailedEffect_body fuel)
  | BluetoothConnectingEffect => Some (BluetoothConnectingEffect_body fuel)
  | BluetoothConnectedEffect => Some BluetoothConnectedEffect_body
  | BluetoothFailedEffect => Some (BluetoothFailedEffect_body fuel)
  | CameraFocusEffect => Some CameraFocusEffect_body
  | CameraCaptureEffect => Some CameraCaptureEffect_body
  | CameraSavePhotoEffect => Some CameraSavePhotoEffect_body
  | BootupEffect | PartyEffect | MusicEffect => None
  end.

(** [runTimedEffect], the goroutine started by its [go func()]: the local
    stop channel is made, the body runs on it, and the tail follows.  The
    listener goroutine it starts is one of the other goroutines: its
    receive on [stopChan] and its sends on the local channel are actions
    of the schedule ([AForward], [ASend]). *)
Definition runTimedEffect_goroutine (effect : nat -> M Status) (t : Task) : M Status :=
  localStopChan <- make_chan 5 ;;
  s <- effect localStopChan ;;
  match s with
  | StillRunning => ret StillRunning
  | Finished => runTimedEffect_finish t ;;; ret Finished
  end.

(** The last event of a trace is [setColor(ColorOff)]. *)
Definition ends_off (w : World) : Prop :=
  exists tr, trace w = tr ++ [EvSetColor ColorOff].

(** Every [setColor] of the fade from [from] to [to] in [steps] steps gets
    a color within range. *)
Definition fade_in_range (from to : Color) (steps : Z) : bool :=
  forallb (fun n => negb (out_of_range (fade_color from to (Z.of_nat n) steps)))
          (seq 0 (S (Z.to_nat steps))).

(** No [setColor] can fail: the gate is closed, or every pending write
    succeeds. *)
Definition writes_succeed (w : World) : Prop :=
  ledEnabled w = false \/ io w = [].

(** Both fades of a pulse cycle stay within range. *)
Definition pulse_in_range (color : Color) (pulseDuration : Z) : bool :=
  fade_in_range ColorOff color (fst (fade_plan (Z.quot pulseDuration 2))) &&
  fade_in_range color ColorOff (fst (fade_plan (Z.quot pulseDuration 2))).

(** The synchronisation points of one uninterrupted round of the call
    notification, and of [n] rounds starting with red or with blue. *)
Definition call_events (isRed : bool) : list Event :=
  [EvSetColor (if isRed then ColorRed else ColorBlue);
   EvWait (200 * Millisecond) false;
   EvSetColor ColorOff;
   EvWait (200 * Millisecond) false].

Fixpoint call_trace (n : nat) (isRed : bool) : list Event :=
  match n with
  | O => []
  | S n' => call_events isRed ++ call_trace n' (negb isRed)
  end.

(** Stop channels are handed out once: the goroutines launched so far got
    pairwise different channels, none of them the initial one and none
    newer than the one on record. *)
Definition tokens_ok (w : World) : Prop :=
  NoDup (map t_token (tasks w)) /\
  Forall (fun t => (1 <= t_token t <= stopChan w)%nat) (tasks w).

(** The effect kinds the package declares: the constants [EFFECT_BOOTUP]
    to [EFFECT_MUSIC], each the kind one effect function runs under. *)
Definition declared_kind (effectType : Z) : Prop :=
  exists f, effect_type_of f = effectType.

(** Which of the three [WriteFile] calls of a [setColor] fails first, given
    the outcomes of the writes to come: the red, the green or the blue
    one, or none. *)
Definition first_failure (outcomes : list bool) : option LEDPath :=
  match outcomes with
  | false :: _ => Some RedLEDPath
  | true :: false :: _ => Some GreenLEDPath
  | true :: true :: false :: _ => Some BlueLEDPath
  | _ => None
  end.

(** The error [setColor] returns when the write on [p] fails. *)
Definition write_error (p : LEDPath) : error := ErrSet p (ErrWriteFile p).

(** The hardware accepts the writes of the next [n] calls of [setColor],
    and [outcomes] are the answers after those. *)
Definition accepts (n : nat) (outcomes : list bool) (w : World) : Prop :=
  io w = repeat true (3 * n) ++ outcomes.

(** The effect is marked active, the stop channel is empty, and exactly
    one thing is going to happen: a value is sent on the stop channel at
    [tau], not before now. *)
Definition one_signal (stop cap : nat) (tau : Z) (w : World) : Prop :=
  effectActive w = true /\
  chans w !! stop = Some (mkChan (S cap) 0) /\
  env w = [(tau, ASend stop)] /\
  now w <= tau.

(** A piece of code keeps the system within its reachable states. *)
Definition preserves {A : Type} (m : M A) : Prop :=
  forall w, reachable w -> reachable (snd (m w)).

(** ** Basic facts *)

Ltac unfold_m :=
  unfold StopCurrentEffect, signal_stop, SetLEDEnabled, IsLEDEnabled,
    IsEffectActive, GetCurrentEffect, set_channel, Sleep, WriteFile,
    make_chan, spawn, bind, ret, gets, modify in *.

Ltac unfold_set :=
  unfold set_stopChan, set_effectActive, set_currentEffectType,
    set_ledEnabled, set_chans, set_tasks, set_hw, set_now, set_env,
    set_trace, emit in *;
  cbn [stopChan effectActive currentEffectType ledEnabled chans tasks writes
       io now env trace] in *.

Lemma dispatch_recognized k : dispatch k <> None <-> recognized k.
Proof.
  unfold recognized, case_labels, dispatch.
  cbv [In EFFECT_BOOTUP EFFECT_NOTIFICATION EFFECT_CALL EFFECT_CHARGING_LOW
       EFFECT_CHARGING_HIGH EFFECT_CHARGING_COMPLETE EFFECT_WIFI_CONNECTING
       EFFECT_WIFI_CONNECTED EFFECT_WIFI_FAILED EFFECT_BLUETOOTH_CONNECTING
       EFFECT_BLUETOOTH_CONNECTED EFFECT_BLUETOOTH_FAILED EFFECT_PARTY
       EFFECT_CAMERA_FOCUS EFFECT_CAMERA_CAPTURE EFFECT_CAMERA_SAVE].
  repeat match goal with
         | |- context [?a =? ?b] => destruct (Z.eqb_spec a b)
         end; split; intros H; try congruence; try lia.
Qed.

Lemma recognized_range k : recognized k <-> 1 <= k <= 16.
Proof.
  unfold recognized, case_labels.
  cbv [In EFFECT_BOOTUP EFFECT_NOTIFICATION EFFECT_CALL EFFECT_CHARGING_LOW
       EFFECT_CHARGING_HIGH EFFECT_CHARGING_COMPLETE EFFECT_WIFI_CONNECTING
       EFFECT_WIFI_CONNECTED EFFECT_WIFI_FAILED EFFECT_BLUETOOTH_CONNECTING
       EFFECT_BLUETOOTH_CONNECTED EFFECT_BLUETOOTH_FAILED EFFECT_PARTY
       EFFECT_CAMERA_FOCUS EFFECT_CAMERA_CAPTURE EFFECT_CAMERA_SAVE].
  lia.
Qed.

Lemma dispatch_type k f : dispatch k = Some f -> effect_type_of f = k.
Proof.
  unfold dispatch.
  repeat match goal with
         | |- context [?a =? ?b] => destruct (Z.eqb_spec a b)
         end; intros H; inversion H; subst; reflexivity.
Qed.

(** [EFFECT_MUSIC] is declared and [MusicEffect] exists, but the [switch]
    has no [case] for it. *)
Lemma music_not_recognized : ~ recognized EFFECT_MUSIC.
Proof. rewrite recognized_range. unfold EFFECT_MUSIC. lia. Qed.

Lemma out_of_range_spec c : out_of_range c = true <-> invalid_color c.
Proof.
  unfold out_of_range, invalid_color.
  rewrite !orb_true_iff, !Z.ltb_lt, !Z.gtb_gt. tauto.
Qed.

Lemma clamp_range v : 0 <= clamp v <= 255.
Proof.
  unfold clamp. destruct (Z.ltb_spec v 0).
  - cbn. lia.
  - destruct (v >? 255) eqn:E; [lia |].
    rewrite Z.gtb_ltb in E. apply Z.ltb_ge in E. lia.
Qed.

Lemma clamp_id v : 0 <= v <= 255 -> clamp v = v.
Proof.
  intros H. unfold clamp. destruct (Z.ltb_spec v 0); [lia |].
  destruct (v >? 255) eqn:E; [| reflexivity].
  apply Z.gtb_gt in E. lia.
Qed.

(** A non-blocking send changes nothing but the channel objects. *)
Lemma try_send_inv ch w b w1 :
  try_send ch w = (b, w1) -> exists cs, w1 = set_chans cs w.
Proof.
  unfold try_send. intros H.
  destruct (chans w !! ch) as [c|].
  - destruct (Nat.ltb (ch_buf c) (ch_cap c));
      injection H as _ Hw; subst w1.
    + eexists; reflexivity.
    + exists (chans w). destruct w; reflexivity.
  - injection H as _ Hw; subst w1. exists (chans w). destruct w; reflexivity.
Qed.

Lemma try_recv_inv ch w b w1 :
  try_recv ch w = (b, w1) -> exists cs, w1 = set_chans cs w.
Proof.
  unfold try_recv. intros H.
  destruct (chans w !! ch) as [c|].
  - destruct (ch_buf c); injection H as _ Hw; subst w1.
    + exists (chans w). destruct w; reflexivity.
    + eexists; reflexivity.
  - injection H as _ Hw; subst w1. exists (chans w). destruct w; reflexivity.
Qed.

Lemma StopCurrentEffect_frame w :
  let w' := snd (StopCurrentEffect w) in
  ledEnabled w' = ledEnabled w /\ writes w' = writes w /\ io w' = io w /\
  effectActive w' = effectActive w /\ stopChan w' = stopChan w /\
  tasks w' = tasks w /\ now w' = now w /\ env w' = env w /\
  trace w' = trace w /\ currentEffectType w' = EFFECT_NONE.
Proof.
  unfold_m.
  destruct (effectActive w) eqn:Ea.
  - destruct (try_send (stopChan w) w) as [b w1] eqn:E.
    apply try_send_inv in E as [cs ->]. cbn. rewrite Ea. tauto.
  - cbn. rewrite Ea. tauto.
Qed.

(** When no effect is active, [StopCurrentEffect] only resets
    [currentEffectType]. *)
Lemma StopCurrentEffect_idle w :
  effectActive w = false ->
  StopCurrentEffect w = (tt, set_currentEffectType EFFECT_NONE w).
Proof. intros H. unfold_m. rewrite H. reflexivity. Qed.

Lemma setColor_disabled c w :
  ledEnabled w = false -> setColor c w = (None, emit (EvSetColor c) w).
Proof.
  intros H. unfold setColor. unfold_m. cbn. rewrite H. reflexivity.
Qed.

Lemma setColor_invalid c w :
  ledEnabled w = true -> invalid_color c ->
  setColor c w = (Some ErrColorRange, emit (EvSetColor c) w).
Proof.
  intros H Hc. apply out_of_range_spec in Hc.
  unfold setColor. unfold_m. cbn. rewrite H. cbn. rewrite Hc. reflexivity.
Qed.

Lemma set_channel_enabled p v w :
  ledEnabled w = true ->
  issued (writes (snd (set_channel p v w))) = issued (writes w) ++ [(p, clamp v)].
Proof.
  intros H. unfold_m. rewrite H. cbn. unfold issued.
  rewrite map_app. reflexivity.
Qed.

Lemma set_channel_disabled p v w :
  ledEnabled w = false -> set_channel p v w = (None, w).
Proof. intros H. unfold_m. rewrite H. reflexivity. Qed.

(** ** Color writes and the enable gate *)

(** C10.  With the master enable off, [setColor] returns [nil] at once: no
    range check is made and no channel is written, whatever the color, so
    an out-of-range color yields no error; with the master enable on the
    same color is rejected. *)
Theorem setColor_disabled_skips_validation (c : Color) (w : World) :
  ledEnabled w = false ->
  fst (setColor c w) = None /\
  writes (snd (setColor c w)) = writes w /\
  (invalid_color c ->
   fst (setColor c (set_ledEnabled true w)) = Some ErrColorRange).
Proof.
  intros H. rewrite (setColor_disabled c w H).
  split; [reflexivity | split; [reflexivity |]]. intros Hc.
  rewrite (setColor_invalid c (set_ledEnabled true w)); auto.
Qed.

Lemma setColor_disabled_skips_validation_witness :
  fst (setColor (mkColor (-5) 300 128) (set_ledEnabled false init_world)) = None /\
  writes (snd (setColor (mkColor (-5) 300 128) (set_ledEnabled false init_world))) = [] /\
  fst (setColor (mkColor (-5) 300 128) init_world) = Some ErrColorRange.
Proof.
  destruct (setColor_disabled_skips_validation (mkColor (-5) 300 128)
              (set_ledEnabled false init_world) eq_refl) as (H1 & H2 & H3).
  split; [exact H1 |]. split; [exact H2 |].
  apply H3. unfold invalid_color. cbn. lia.
Defined.

(** C2, as stated, fails: [SetRGB(-5, 300, 128)] on the initial (enabled)
    state returns the range error and writes no channel, so the writes are
    not those of (0, 255, 128). *)
Lemma SetRGB_out_of_range_not_clamped :
  fst (SetRGB (-5) 300 128 init_world) = Some ErrColorRange /\
  issued (writes (snd (SetRGB (-5) 300 128 init_world))) = [] /\
  issued (writes (snd (SetRGB (-5) 300 128 init_world)))
    <> [(RedLEDPath, 0); (GreenLEDPath, 255); (BlueLEDPath, 128)].
Proof. vm_compute. repeat split; congruence. Qed.

(** C2, amended.  While enabled, [SetRGB] (through [setColor]) rejects a
    color with a channel outside 0..255 with an error and writes nothing;
    clamping to 0..255 is what the per-channel setters [SetRed],
    [SetGreen], [SetBlue] do: each issues exactly one write, of the
    clamped value. *)
Theorem SetRGB_rejects_setters_clamp (w : World) :
  ledEnabled w = true ->
  (forall red green blue, invalid_color (mkColor red green blue) ->
     fst (SetRGB red green blue w) = Some ErrColorRange /\
     writes (snd (SetRGB red green blue w)) = writes w) /\
  (forall v,
     issued (writes (snd (SetRed v w))) = issued (writes w) ++ [(RedLEDPath, clamp v)] /\
     issued (writes (snd (SetGreen v w))) = issued (writes w) ++ [(GreenLEDPath, clamp v)] /\
     issued (writes (snd (SetBlue v w))) = issued (writes w) ++ [(BlueLEDPath, clamp v)] /\
     0 <= clamp v <= 255).
Proof.
  intros He.
  pose proof (StopCurrentEffect_frame w) as F. cbn zeta in F.
  destruct F as (Fe & Fw & _).
  split.
  - intros r g b Hc. unfold SetRGB, bind.
    destruct (StopCurrentEffect w) as [[] w1]. cbn in Fe, Fw.
    rewrite setColor_invalid by (auto; congruence). cbn. auto.
  - intros v. unfold SetRed, SetGreen, SetBlue, setRed, setGreen, setBlue, bind.
    destruct (StopCurrentEffect w) as [[] w1]. cbn in Fe, Fw.
    rewrite !set_channel_enabled by congruence.
    rewrite Fw. auto using clamp_range.
Qed.

Lemma SetRGB_rejects_setters_clamp_witness :
  (fst (SetRGB (-5) 300 128 init_world) = Some ErrColorRange /\
   writes (snd (SetRGB (-5) 300 128 init_world)) = []) /\
  issued (writes (snd (SetRed (-5) init_world))) = [(RedLEDPath, 0)] /\
  issued (writes (snd (SetGreen 300 init_world))) = [(GreenLEDPath, 255)] /\
  issued (writes (snd (SetBlue 128 init_world))) = [(BlueLEDPath, 128)].
Proof.
  destruct (SetRGB_rejects_setters_clamp init_world eq_refl) as [H1 H2].
  split; [apply H1; unfold invalid_color; cbn; lia |].
  split; [exact (proj1 (H2 (-5))) |].
  split; [exact (proj1 (proj2 (H2 300))) | exact (proj1 (proj2 (proj2 (H2 128))))].
Defined.

(** ** Stopping when idle *)

(** C8.  [StopCurrentEffect] with no effect active changes none of the
    observations ([IsEffectActive], [GetCurrentEffect], [IsLEDEnabled],
    the hardware writes), sends nothing on the stop channel, and returns
    (it has no error result).  Only the internal [currentEffectType] is
    reset. *)
Theorem StopCurrentEffect_idle_noop (w : World) :
  effectActive w = false ->
  observe (snd (StopCurrentEffect w)) = observe w /\
  chans (snd (StopCurrentEffect w)) = chans w /\
  stopChan (snd (StopCurrentEffect w)) = stopChan w /\
  tasks (snd (StopCurrentEffect w)) = tasks w /\
  snd (StopCurrentEffect (snd (StopCurrentEffect w))) = snd (StopCurrentEffect w).
Proof.
  intros H. rewrite (StopCurrentEffect_idle w H). cbn [snd].
  rewrite StopCurrentEffect_idle by exact H.
  unfold observe. unfold_m. cbn. rewrite H. cbn. auto.
Qed.

Lemma StopCurrentEffect_idle_noop_witness :
  observe (snd (StopCurrentEffect init_world)) = observe init_world.
Proof. exact (proj1 (StopCurrentEffect_idle_noop init_world eq_refl)). Defined.

(** ** The enable overlay *)

Lemma brightness_app p l1 l2 :
  brightness p (l1 ++ l2) =
  match brightness p l2 with Some v => Some v | None => brightness p l1 end.
Proof.
  induction l1 as [|x l1 IH]; cbn.
  - destruct (brightness p l2); reflexivity.
  - rewrite IH. destruct (brightness p l2); reflexivity.
Qed.

(** C4.  [SetLEDEnabled(false)] on an enabled controller issues the three
    direct writes of 0 (they do not go through the gate, which is already
    closed when they are made), and leaves the running effect alone: no
    channel object changes (the stop channel is not signalled),
    [effectActive], [currentEffectType] and the launched goroutines are
    untouched, so [IsEffectActive] reports what it reported before.  From
    then on [setColor] and the per-channel setters write nothing and
    return [nil]; [SetLEDEnabled(true)] reopens the gate without writing. *)
Theorem SetLEDEnabled_false_mutes (w : World) :
  ledEnabled w = true ->
  let w' := snd (SetLEDEnabled false w) in
  issued (writes w') =
    issued (writes w) ++ [(RedLEDPath, 0); (GreenLEDPath, 0); (BlueLEDPath, 0)] /\
  (io w = [] -> forall p, brightness p (writes w') = Some 0) /\
  ledEnabled w' = false /\
  chans w' = chans w /\ stopChan w' = stopChan w /\ tasks w' = tasks w /\
  effectActive w' = effectActive w /\
  fst (IsEffectActive w') = fst (IsEffectActive w) /\
  currentEffectType w' = currentEffectType w /\
  (forall c, fst (setColor c w') = None /\
             writes (snd (setColor c w')) = writes w') /\
  (forall p v, set_channel p v w' = (None, w')) /\
  ledEnabled (snd (SetLEDEnabled true w')) = true /\
  writes (snd (SetLEDEnabled true w')) = writes w'.
Proof.
  intros He w'.
  assert (Hd : ledEnabled w' = false)
    by (subst w'; unfold_m; rewrite He; reflexivity).
  split; [| split; [| split; [exact Hd |]]].
  - subst w'. unfold_m. rewrite He. cbn.
    unfold issued. rewrite !map_app. cbn. rewrite <- !app_assoc. reflexivity.
  - intros Hio p. subst w'. unfold_m. rewrite He. cbn. rewrite Hio.
    rewrite <- !app_assoc. cbn.
    rewrite brightness_app. destruct p; reflexivity.
  - do 6 (split; [subst w'; unfold_m; rewrite He; reflexivity |]).
    split; [| split; [| split]].
    + intros c. rewrite setColor_disabled by exact Hd. split; reflexivity.
    + intros p v. apply set_channel_disabled. exact Hd.
    + unfold_m. rewrite Hd. reflexivity.
    + unfold_m. rewrite Hd. reflexivity.
Qed.

Lemma SetLEDEnabled_false_mutes_witness :
  issued (writes (snd (SetLEDEnabled false (set_effectActive true init_world)))) =
    [(RedLEDPath, 0); (GreenLEDPath, 0); (BlueLEDPath, 0)] /\
  fst (IsEffectActive (snd (SetLEDEnabled false (set_effectActive true init_world)))) = true.
Proof.
  pose proof (SetLEDEnabled_false_mutes (set_effectActive true init_world) eq_refl)
    as (H1 & _ & _ & _ & _ & _ & _ & H2 & _).
  split; [exact H1 | exact H2].
Defined.

(** ** Starting effects *)

Lemma try_send_chans ch w :
  chans (snd (try_send ch w)) =
  match chans w !! ch with
  | Some c => if Nat.ltb (ch_buf c) (ch_cap c)
              then <[ch := mkChan (ch_cap c) (S (ch_buf c))]> (chans w)
              else chans w
  | None => chans w
  end.
Proof.
  unfold try_send. destruct (chans w !! ch) as [c|]; [| reflexivity].
  destruct (Nat.ltb (ch_buf c) (ch_cap c)); reflexivity.
Qed.

Lemma try_send_length ch w :
  length (chans (snd (try_send ch w))) = length (chans w).
Proof.
  rewrite try_send_chans. destruct (chans w !! ch) as [c|]; [| reflexivity].
  destruct (Nat.ltb (ch_buf c) (ch_cap c)); [apply length_insert | reflexivity].
Qed.

(** The world [StartEffect] builds once the enable check has passed:
    [cs] are the channel objects and [n] the clock after the optional
    stop signal and sleep. *)
Lemma StartEffect_enabled k w :
  ledEnabled w = true ->
  exists cs n,
    (cs, n) = (if effectActive w
               then (chans (snd (try_send (stopChan w) w)), now w + 100 * Millisecond)
               else (chans w, now w)) /\
    StartEffect k w =
    match dispatch k with
    | Some f =>
        (true, mkWorld (length cs) true k true (cs ++ [mkChan 1 0])
                 (tasks w ++ [mkTask f (length cs)]) (writes w) (io w) n
                 (env w) (trace w))
    | None =>
        (false, mkWorld (length cs) false k true (cs ++ [mkChan 1 0])
                  (tasks w) (writes w) (io w) n (env w) (trace w))
    end.
Proof.
  intros He. destruct w as [sc ea ty le cs0 ts ws o n0 ev tr].
  cbn in He. subst le. unfold StartEffect. unfold_m.
  change (Z.max (100 * Millisecond) 0) with (100 * Millisecond).
  destruct ea; cbn -[try_send dispatch Z.add Z.mul].
  - destruct (try_send sc _) as [b w1] eqn:E.
    destruct (try_send_inv _ _ _ _ E) as [cs ->].
    exists cs, (n0 + 100 * Millisecond). split; [reflexivity |].
    destruct (dispatch k); reflexivity.
  - exists cs0, n0. split; [reflexivity |].
    destruct (dispatch k); reflexivity.
Qed.

Lemma StartEffect_disabled k w :
  ledEnabled w = false -> StartEffect k w = (false, w).
Proof. intros He. unfold StartEffect. unfold_m. rewrite He. reflexivity. Qed.

(** [StartEffect] returns [false] exactly when the master enable is off
    or the [switch] has no [case] for the kind.  When disabled the call
    changes nothing (no goroutine is launched); when enabled, every kind
    with a [case] yields [true] and launches that kind's effect
    function. *)
Lemma StartEffect_false_iff (effectType : Z) (w : World) :
  (fst (StartEffect effectType w) = false <->
   ledEnabled w = false \/ ~ recognized effectType) /\
  (ledEnabled w = false -> StartEffect effectType w = (false, w)) /\
  (ledEnabled w = true -> recognized effectType ->
   fst (StartEffect effectType w) = true /\
   exists f, effect_type_of f = effectType /\
     tasks (snd (StartEffect effectType w)) =
     tasks w ++ [mkTask f (stopChan (snd (StartEffect effectType w)))]).
Proof.
  destruct (ledEnabled w) eqn:He.
  - destruct (StartEffect_enabled effectType w He) as (cs & n & _ & ->).
    pose proof (dispatch_recognized effectType) as D.
    destruct (dispatch effectType) as [f|] eqn:Ed; cbn.
    + assert (R : recognized effectType) by (apply D; congruence).
      split; [split; [discriminate | intros [? | ?]; [discriminate | tauto]] |].
      split; [discriminate |]. intros _ _. split; [reflexivity |].
      exists f. split; [apply dispatch_type; exact Ed | reflexivity].
    + assert (R : ~ recognized effectType) by (intros R; apply D in R; congruence).
      split; [split; [auto | reflexivity] |].
      split; [discriminate |]. intros _ R'. contradiction.
  - rewrite (StartEffect_disabled effectType w He). cbn.
    split; [split; [auto | reflexivity] |].
    split; [reflexivity | discriminate].
Qed.

(** [StartEffect(EFFECT_MUSIC)] is rejected like any kind without a
    [case]. *)
Lemma StartEffect_music_rejected :
  fst (StartEffect EFFECT_MUSIC init_world) = false.
Proof. reflexivity. Qed.

Lemma declared_kind_range k : declared_kind k <-> 1 <= k <= 17.
Proof.
  unfold declared_kind. split.
  - intros [f <-]. destruct f; cbv; split; discriminate.
  - intros H.
    assert (C : k = 1 \/ k = 2 \/ k = 3 \/ k = 4 \/ k = 5 \/ k = 6 \/ k = 7 \/
                k = 8 \/ k = 9 \/ k = 10 \/ k = 11 \/ k = 12 \/ k = 13 \/
                k = 14 \/ k = 15 \/ k = 16 \/ k = 17) by lia.
    repeat (destruct C as [-> | C]); try subst k;
      [ exists BootupEffect | exists NotificationEffect
      | exists CallNotificationEffect | exists ChargingLowBatteryEffect
      | exists ChargingHighBatteryEffect | exists ChargingCompleteEffect
      | exists WiFiConnectingEffect | exists WiFiConnectedEffect
      | exists WiFiFailedEffect | exists BluetoothConnectingEffect
      | exists BluetoothConnectedEffect | exists BluetoothFailedEffect
      | exists CameraFocusEffect | exists CameraCaptureEffect
      | exists CameraSavePhotoEffect | exists PartyEffect
      | exists MusicEffect ]; reflexivity.
Qed.

(** C7.  The claim fails on a kind the package declares.  [EFFECT_MUSIC]
    is declared, with [MusicEffect] as its effect function, but the
    [switch] of [StartEffect] has no [case] for it: while the controller
    is enabled, [StartEffect(EFFECT_MUSIC)] returns [false], launches
    nothing and leaves [effectActive] false with [EFFECT_MUSIC] on record
    as the current kind.  It is the only declared kind treated so: every
    other declared kind returns [true] and launches its effect function,
    and a kind that is not declared returns [false]. *)
Theorem StartEffect_misses_music (w : World) :
  ledEnabled w = true ->
  declared_kind EFFECT_MUSIC /\
  fst (StartEffect EFFECT_MUSIC w) = false /\
  tasks (snd (StartEffect EFFECT_MUSIC w)) = tasks w /\
  effectActive (snd (StartEffect EFFECT_MUSIC w)) = false /\
  currentEffectType (snd (StartEffect EFFECT_MUSIC w)) = EFFECT_MUSIC /\
  (forall k, declared_kind k -> k <> EFFECT_MUSIC ->
     fst (StartEffect k w) = true /\
     exists f, effect_type_of f = k /\
       tasks (snd (StartEffect k w)) =
       tasks w ++ [mkTask f (stopChan (snd (StartEffect k w)))]) /\
  (forall k, ~ declared_kind k -> fst (StartEffect k w) = false).
Proof.
  intros He. split; [exists MusicEffect; reflexivity |].
  assert (Hm : StartEffect EFFECT_MUSIC w =
               let (cs, n) := (if effectActive w
                 then (chans (snd (try_send (stopChan w) w)), now w + 100 * Millisecond)
                 else (chans w, now w)) in
               (false, mkWorld (length cs) false EFFECT_MUSIC true (cs ++ [mkChan 1 0])
                  (tasks w) (writes w) (io w) n (env w) (trace w))).
  { destruct (StartEffect_enabled EFFECT_MUSIC w He) as (cs & n & <- & E).
    exact E. }
  rewrite Hm.
  split; [destruct (effectActive w); reflexivity |].
  split; [destruct (effectActive w); reflexivity |].
  split; [destruct (effectActive w); reflexivity |].
  split; [destruct (effectActive w); reflexivity |].
  split.
  - intros k Hk Hne. apply declared_kind_range in Hk.
    assert (R : recognized k)
      by (apply recognized_range; unfold EFFECT_MUSIC in Hne; lia).
    destruct (StartEffect_enabled k w He) as (cs & n & _ & ->).
    apply dispatch_recognized in R.
    destruct (dispatch k) as [f|] eqn:Ed; [| congruence].
    split; [reflexivity |]. exists f.
    split; [apply dispatch_type; exact Ed | reflexivity].
  - intros k Hk.
    assert (R : ~ recognized k).
    { intros R. apply Hk. apply declared_kind_range.
      apply recognized_range in R. lia. }
    destruct (StartEffect_enabled k w He) as (cs & n & _ & ->).
    destruct (dispatch k) as [f|] eqn:Ed; [| reflexivity].
    exfalso. apply R. apply dispatch_recognized. congruence.
Qed.

Lemma StartEffect_misses_music_witness :
  declared_kind EFFECT_MUSIC /\
  fst (StartEffect EFFECT_MUSIC init_world) = false /\
  fst (StartEffect EFFECT_PARTY init_world) = true.
Proof.
  pose proof (StartEffect_misses_music init_world eq_refl)
    as (D & F & _ & _ & _ & K & _).
  split; [exact D |]. split; [exact F |].
  apply K.
  - exists PartyEffect. reflexivity.
  - discriminate.
Defined.

(** ** Well-formedness is invariant *)

Lemma try_recv_chans ch w :
  chans (snd (try_recv ch w)) =
  match chans w !! ch with
  | Some c => match ch_buf c with
              | S n => <[ch := mkChan (ch_cap c) n]> (chans w)
              | O => chans w
              end
  | None => chans w
  end.
Proof.
  unfold try_recv. destruct (chans w !! ch) as [c|]; [| reflexivity].
  destruct (ch_buf c); reflexivity.
Qed.

Lemma try_send_stopChan ch w : stopChan (snd (try_send ch w)) = stopChan w.
Proof.
  destruct (try_send ch w) as [b w1] eqn:E.
  apply try_send_inv in E as [cs ->]. reflexivity.
Qed.

Lemma try_recv_stopChan ch w : stopChan (snd (try_recv ch w)) = stopChan w.
Proof.
  destruct (try_recv ch w) as [b w1] eqn:E.
  apply try_recv_inv in E as [cs ->]. reflexivity.
Qed.

Lemma try_send_wf ch w : wf w -> wf (snd (try_send ch w)).
Proof.
  intros [Hs Hc]. split.
  - rewrite try_send_stopChan, try_send_length. exact Hs.
  - rewrite try_send_chans. destruct (chans w !! ch) as [c|] eqn:El; [| exact Hc].
    destruct (Nat.ltb (ch_buf c) (ch_cap c)) eqn:Elt; [| exact Hc].
    apply Forall_insert; [exact Hc |].
    apply Nat.ltb_lt in Elt. unfold chan_ok. cbn. lia.
Qed.

Lemma try_recv_wf ch w : wf w -> wf (snd (try_recv ch w)).
Proof.
  intros [Hs Hc]. split.
  - rewrite try_recv_stopChan, try_recv_chans.
    destruct (chans w !! ch) as [c|]; [| exact Hs].
    destruct (ch_buf c); [exact Hs | rewrite length_insert; exact Hs].
  - rewrite try_recv_chans. destruct (chans w !! ch) as [c|] eqn:El; [| exact Hc].
    destruct (ch_buf c) eqn:Eb; [exact Hc |].
    apply Forall_insert; [exact Hc |].
    pose proof (Forall_lookup_1 _ _ _ _ Hc El) as [H1 H2].
    unfold chan_ok. cbn. lia.
Qed.

Lemma wf_same w w' :
  stopChan w' = stopChan w -> chans w' = chans w -> wf w -> wf w'.
Proof. unfold wf. intros -> ->. auto. Qed.

(** [setColor] touches the hardware log, the pending outcomes and the
    trace, nothing else. *)
Lemma setColor_frame c w :
  exists ws o, snd (setColor c w) = emit (EvSetColor c) (set_hw ws o w).
Proof.
  destruct w as [sc ea ty le cs0 ts ws o n0 ev tr].
  unfold setColor, setRed, setGreen, setBlue. unfold_m.
  cbn -[out_of_range clamp].
  destruct le; cbn -[out_of_range clamp]; [| eexists _, _; reflexivity].
  destruct (out_of_range c); [eexists _, _; reflexivity |].
  destruct o as [|[] [|[] [|[] o]]]; cbn -[clamp]; eexists _, _; reflexivity.
Qed.

Lemma StartEffect_wf k w : wf w -> wf (snd (StartEffect k w)).
Proof.
  intros Hw. destruct (ledEnabled w) eqn:He.
  - destruct (StartEffect_enabled k w He) as (cs & n & Hcs & ->).
    assert (Hf : Forall chan_ok (cs ++ [mkChan 1 0])).
    { apply Forall_app. split.
      - destruct (effectActive w); injection Hcs as -> _.
        + apply try_send_wf. exact Hw.
        + apply Hw.
      - repeat constructor. }
    destruct (dispatch k); (split; cbn; [rewrite length_app; cbn; lia | exact Hf]).
  - rewrite StartEffect_disabled by exact He. exact Hw.
Qed.

Lemma run_action_wf a w : wf w -> wf (snd (run_action a w)).
Proof.
  intros Hw. destruct a as [k| |b|k|t|local|ch]; cbn [run_action].
  - unfold bind, ret. pose proof (StartEffect_wf k w Hw) as H.
    destruct (StartEffect k w). exact H.
  - pose proof (StopCurrentEffect_frame w) as F. cbn zeta in F.
    unfold StopCurrentEffect, signal_stop in *. unfold_m.
    destruct (effectActive w).
    + pose proof (try_send_wf (stopChan w) w Hw) as H.
      destruct (try_send (stopChan w) w) as [b w1]. exact H.
    + exact Hw.
  - unfold_m. destruct (ledEnabled w), b; exact Hw.
  - unfold runTimedEffect_enter, signal_stop. unfold_m.
    destruct (effectActive w).
    + pose proof (try_send_wf (stopChan w) w Hw) as H.
      destruct (try_send (stopChan w) w) as [b w1]. exact H.
    + exact Hw.
  - unfold runTimedEffect_finish. unfold_m.
    destruct (setColor_frame ColorOff w) as (ws & o & E).
    destruct (setColor ColorOff w) as [r w1]. cbn in E. subst w1. exact Hw.
  - unfold listener_forward. unfold_m.
    pose proof (try_recv_wf (stopChan w) w Hw) as H.
    destruct (try_recv (stopChan w) w) as [[] w1]; cbn in *; [| exact H].
    pose proof (try_send_wf local w1 H) as H'.
    destruct (try_send local w1) as [b w2]. exact H'.
  - unfold bind, ret. pose proof (try_send_wf ch w Hw) as H.
    destruct (try_send ch w). exact H.
Qed.

(** Every reachable world is well formed. *)
Lemma reachable_wf w : reachable w -> wf w.
Proof.
  induction 1 as [|a w Hr IH|w Hr IH|ch w Hr IH|c w Hr IH|p v w Hr IH
                  |o w Hr IH|n ev tr w Hr IH].
  - split; cbn; [lia | repeat constructor].
  - apply run_action_wf. exact IH.
  - destruct IH as [Hs Hc]. split; cbn.
    + rewrite length_app. cbn. lia.
    + apply Forall_app. split; [exact Hc | repeat constructor].
  - apply try_recv_wf. exact IH.
  - destruct (setColor_frame c w) as (ws & o & E). rewrite E. exact IH.
  - unfold set_channel. unfold_m. destruct (ledEnabled w); exact IH.
  - exact IH.
  - exact IH.
Qed.

(** C9.  [StartEffect] with a kind that has no [case], called while an
    effect is active and the controller enabled, returns [false] and yet
    changes the state: a non-blocking send is made on the stop channel on
    record (afterwards that channel holds a pending signal), [stopChan] is
    replaced by a fresh empty channel of capacity 1, and [effectActive] is
    left [false].  No goroutine is launched, and [currentEffectType] keeps
    the rejected kind. *)
Theorem StartEffect_unrecognized_tears_down (effectType : Z) (w : World) :
  wf w -> ledEnabled w = true -> effectActive w = true ->
  ~ recognized effectType ->
  let w' := snd (StartEffect effectType w) in
  fst (StartEffect effectType w) = false /\
  effectActive w' = false /\
  stopChan w' <> stopChan w /\
  chans w' !! stopChan w' = Some (mkChan 1 0) /\
  (exists c, chans w !! stopChan w = Some c /\
     chans w' !! stopChan w =
       Some (mkChan (ch_cap c) (Nat.min (ch_cap c) (S (ch_buf c)))) /\
     (1 <= Nat.min (ch_cap c) (S (ch_buf c)))%nat) /\
  tasks w' = tasks w /\
  currentEffectType w' = effectType /\
  fst (GetCurrentEffect w') = EFFECT_NONE.
Proof.
  intros [Hs Hc] He Ha Hr w'. subst w'.
  destruct (StartEffect_enabled effectType w He) as (cs & n & Hcs & ->).
  rewrite Ha in Hcs. injection Hcs as -> ->.
  destruct (dispatch effectType) as [f|] eqn:Ed.
  { exfalso. apply Hr, dispatch_recognized. congruence. }
  cbn [fst snd effectActive stopChan chans tasks currentEffectType].
  rewrite try_send_length.
  destruct (lookup_lt_is_Some_2 _ _ Hs) as [c El].
  pose proof (Forall_lookup_1 _ _ _ _ Hc El) as [H1 H2].
  split; [reflexivity |]. split; [reflexivity |].
  split; [lia |].
  split.
  { rewrite lookup_app_r by (rewrite try_send_length; lia).
    rewrite try_send_length, Nat.sub_diag. reflexivity. }
  split.
  { exists c. split; [exact El |]. split; [| lia].
    rewrite lookup_app_l by (rewrite try_send_length; exact Hs).
    rewrite try_send_chans, El.
    destruct (Nat.ltb (ch_buf c) (ch_cap c)) eqn:Elt.
    - apply Nat.ltb_lt in Elt. rewrite list_lookup_insert_eq by exact Hs.
      f_equal. f_equal. lia.
    - apply Nat.ltb_ge in Elt. rewrite El. destruct c as [cap buf]. cbn in *.
      f_equal. f_equal. lia. }
  split; [reflexivity |]. split; reflexivity.
Qed.

Lemma StartEffect_unrecognized_tears_down_witness :
  fst (StartEffect 99 two_started) = false /\
  effectActive (snd (StartEffect 99 two_started)) = false /\
  stopChan (snd (StartEffect 99 two_started)) <> stopChan two_started.
Proof.
  assert (W : wf two_started).
  { split; [vm_compute; lia | vm_compute; repeat constructor]. }
  assert (R : ~ recognized 99) by (rewrite recognized_range; lia).
  pose proof (StartEffect_unrecognized_tears_down 99 two_started W eq_refl eq_refl R)
    as (H1 & H2 & H3 & _).
  split; [exact H1 | split; [exact H2 | exact H3]].
Defined.

(** ** Completion of an effect goroutine *)

(** C1, as stated, fails.  After two effects were started one after the
    other, the first goroutine's token is no longer the stop channel on
    record; when that goroutine finishes it still clears [effectActive]
    and [currentEffectType], which the second [StartEffect] installed. *)
Lemma stale_completion_clears_state :
  In first_task (tasks two_started) /\
  t_token first_task <> stopChan two_started /\
  effectActive two_started = true /\
  currentEffectType two_started = EFFECT_NOTIFICATION /\
  effectActive (snd (runTimedEffect_finish first_task two_started)) = false /\
  currentEffectType (snd (runTimedEffect_finish first_task two_started)) = EFFECT_NONE /\
  fst (GetCurrentEffect (snd (runTimedEffect_finish first_task two_started))) = EFFECT_NONE.
Proof.
  vm_compute. repeat split; try congruence. left. reflexivity.
Qed.

(** C1, amended.  When an effect goroutine finishes, the scheduler goes
    idle unconditionally: [effectActive] becomes [false] and
    [currentEffectType] becomes [EFFECT_NONE], whichever stop channel is on
    record and whichever goroutine it is; no completion is discarded.  The
    stop channel, the channel objects, the enable flag and the launched
    goroutines are left as they were. *)
Theorem runTimedEffect_finish_unconditional (t : Task) (w : World) :
  let w' := snd (runTimedEffect_finish t w) in
  effectActive w' = false /\
  currentEffectType w' = EFFECT_NONE /\
  fst (IsEffectActive w') = false /\
  fst (GetCurrentEffect w') = EFFECT_NONE /\
  stopChan w' = stopChan w /\ chans w' = chans w /\
  ledEnabled w' = ledEnabled w /\ tasks w' = tasks w /\
  (forall t', runTimedEffect_finish t' w = runTimedEffect_finish t w).
Proof.
  unfold runTimedEffect_finish. unfold_m.
  destruct (setColor_frame ColorOff w) as (ws & o & E).
  destruct (setColor ColorOff w) as [r w1]. cbn in E. subst w1.
  cbn. repeat split; reflexivity.
Qed.

(** ** Fade: the step plan *)

Lemma fade_plan_cases duration :
  (Z.quot duration 50 <= 20 * Millisecond /\
   fade_plan duration = (50, Z.quot duration 50)) \/
  (50 * (20 * Millisecond + 1) <= duration /\
   fade_plan duration =
     (duration / (20 * Millisecond), duration / (duration / (20 * Millisecond)))).
Proof.
  unfold fade_plan, Millisecond.
  destruct (Z.quot duration 50 >? 20 * 1000000) eqn:E.
  - right. apply Z.gtb_gt in E.
    assert (Hd : 50 * (20 * 1000000 + 1) <= duration).
    { destruct (Z.le_gt_cases 0 duration) as [Hp | Hn].
      - rewrite Z.quot_div_nonneg in E by lia.
        destruct (Z.le_gt_cases (50 * (20 * 1000000 + 1)) duration); [assumption |].
        assert (duration / 50 < 20 * 1000000 + 1)
          by (apply Z.div_lt_upper_bound; lia). lia.
      - pose proof (Z.quot_opp_l duration 50 ltac:(lia)) as Ho.
        assert (0 <= Z.quot (- duration) 50) by (apply Z.quot_pos; lia). lia. }
    split; [exact Hd |].
    rewrite !Z.quot_div_nonneg by lia.
    assert (Hs : 50 <= duration / (20 * 1000000))
      by (apply Z.div_le_lower_bound; lia).
    destruct (Z.ltb_spec (duration / (20 * 1000000)) 10); [lia |].
    rewrite Z.quot_div_nonneg by lia. reflexivity.
  - left. rewrite Z.gtb_ltb in E. apply Z.ltb_ge in E. auto.
Qed.

(** Whatever the duration, the plan has at least 50 steps, and a step
    duration of at most 20 ms plus the rounding of the integer division,
    20 ms / 50 = 0.4 ms. *)
Lemma fade_plan_bounds (duration : Z) :
  10 <= fst (fade_plan duration) /\
  50 <= fst (fade_plan duration) /\
  snd (fade_plan duration) <= 20 * Millisecond + 20 * Millisecond / 50.
Proof.
  destruct (fade_plan_cases duration) as [[H ->] | [H ->]]; cbn [fst snd].
  - unfold Millisecond in *. change (20 * 1000000 / 50) with 400000. lia.
  - unfold Millisecond in *. change (20 * 1000000 / 50) with 400000.
    set (s := duration / (20 * 1000000)).
    assert (Hs : 50 <= s) by (apply Z.div_le_lower_bound; lia).
    split; [lia | split; [lia |]].
    pose proof (Z.div_mod duration (20 * 1000000) ltac:(lia)) as Hdm.
    pose proof (Z.mod_pos_bound duration (20 * 1000000) ltac:(lia)) as Hm.
    fold s in Hdm.
    assert (duration / s < 20 * 1000000 + 400000 + 1); [| lia].
    apply Z.div_lt_upper_bound; nia.
Qed.

(** The bound is not 20 ms sharp: a 1.019999999 s fade waits 20.399999 ms
    per step. *)
Lemma fade_plan_above_20ms :
  fade_plan (1019999999 * Nanosecond) = (50, 20399999).
Proof. reflexivity. Qed.

(** ** Polling and waiting *)

Lemma poll_stop_not_ready stop w :
  chan_ready stop w = false ->
  poll_stop stop w = (false, emit (EvPoll false) w).
Proof.
  unfold chan_ready, poll_stop, try_recv. unfold_m. intros H.
  destruct (chans w !! stop) as [c|]; [| reflexivity].
  destruct (ch_buf c); [reflexivity | discriminate].
Qed.

(** With nothing scheduled and nothing buffered, the timer fires. *)
Lemma wait_stop_quiet stop d w :
  chan_ready stop w = false -> env w = [] ->
  wait_stop stop d w =
  (false, emit (EvWait d false) (set_now (now w + Z.max d 0) w)).
Proof.
  intros Hr He. unfold wait_stop. rewrite He. cbn [await]. rewrite Hr.
  replace (Z.max (now w) (now w + d)) with (now w + Z.max d 0) by lia.
  reflexivity.
Qed.

(** With a value already buffered, the [stop] case is taken at once. *)
Lemma wait_stop_buffered stop d w :
  chan_ready stop w = true ->
  fst (wait_stop stop d w) = true /\ now (snd (wait_stop stop d w)) = now w.
Proof.
  intros Hr. unfold wait_stop.
  assert (E : await stop (now w + d) (env w) w = (true, w))
    by (destruct (env w) as [|[t a] l]; cbn [await]; rewrite Hr; reflexivity).
  rewrite E. unfold chan_ready in Hr. unfold try_recv.
  destruct (chans w !! stop) as [c|]; [| discriminate].
  destruct (ch_buf c); [discriminate |]. split; reflexivity.
Qed.

(** A signal sent on [stop] during the wait ends it at the instant it is
    sent. *)
Lemma wait_stop_signalled stop d w t rest cap :
  chans w !! stop = Some (mkChan (S cap) 0) ->
  env w = (t, ASend stop) :: rest -> now w <= t < now w + d ->
  fst (wait_stop stop d w) = true /\ now (snd (wait_stop stop d w)) = t.
Proof.
  intros Hc He Ht. unfold wait_stop. rewrite He. cbn [await].
  assert (Hr : chan_ready stop w = false) by (unfold chan_ready; rewrite Hc; reflexivity).
  rewrite Hr. destruct (Z.ltb_spec t (now w + d)) as [_ | ?]; [| lia].
  destruct w as [sc ea ty le cs0 ts ws o n0 ev tr]. cbn in *. subst ev.
  unfold try_send, bind, ret. unfold_set. rewrite Hc.
  cbn [ch_buf ch_cap Nat.ltb Nat.leb snd fst]. unfold_set.
  assert (Hl : (stop < length cs0)%nat) by (eapply lookup_lt_Some; eauto).
  assert (Hready : chan_ready stop
            (mkWorld sc ea ty le (<[stop := mkChan (S cap) 1]> cs0) ts ws o
                     (Z.max n0 t) rest tr) = true).
  { unfold chan_ready. cbn. rewrite list_lookup_insert_eq by exact Hl. reflexivity. }
  destruct rest as [|[t' a'] rest']; cbn [await];
    rewrite Hready; unfold try_recv; unfold_set;
    rewrite list_lookup_insert_eq by exact Hl; cbn; split; try reflexivity; lia.
Qed.

(** ** Blink *)

Lemma setColor_obs c w :
  let w' := snd (setColor c w) in
  chans w' = chans w /\ effectActive w' = effectActive w /\
  env w' = env w /\ now w' = now w /\ ledEnabled w' = ledEnabled w /\
  trace w' = trace w ++ [EvSetColor c].
Proof.
  destruct (setColor_frame c w) as (ws & o & E). cbn zeta. rewrite E.
  repeat split; reflexivity.
Qed.

Lemma quiet_setColor stop c w : quiet stop w -> quiet stop (snd (setColor c w)).
Proof.
  intros (Ha & Hr & He).
  destruct (setColor_obs c w) as (Hc & Ha' & He' & _).
  unfold quiet, chan_ready in *. rewrite Hc, Ha', He'. auto.
Qed.

(** One blink that nothing interrupts: a poll, the color, one wait of the
    whole [onDuration], off, one wait of the whole [offDuration]. *)
Lemma blink_loop_quiet fuel i color blinkCount onDuration offDuration stop w :
  blinkCount = 0 \/ i < blinkCount -> quiet stop w ->
  exists w1,
    blink_loop (S fuel) i color blinkCount onDuration offDuration stop w =
    blink_loop fuel (wrap64 (i + 1)) color blinkCount onDuration offDuration stop w1 /\
    quiet stop w1 /\
    trace w1 = trace w ++
      [EvPoll false; EvSetColor color; EvWait onDuration false;
       EvSetColor ColorOff; EvWait offDuration false] /\
    now w1 = now w + Z.max onDuration 0 + Z.max offDuration 0.
Proof.
  intros Hc Hq.
  assert (Hcond : (blinkCount =? 0) || (i <? blinkCount) = true).
  { apply orb_true_iff. rewrite Z.eqb_eq, Z.ltb_lt. exact Hc. }
  cbn [blink_loop]. rewrite Hcond. unfold bind, gets, ret. cbv beta.
  rewrite poll_stop_not_ready by apply Hq. cbv beta iota.
  set (w0 := emit (EvPoll false) w).
  assert (Q0 : quiet stop w0) by exact Hq.
  rewrite (proj1 Q0). cbn [negb].
  pose proof (quiet_setColor stop color w0 Q0) as Q1.
  pose proof (setColor_obs color w0) as O1. cbn zeta in O1.
  destruct (setColor color w0) as [r1 w1]. cbn [snd] in Q1, O1.
  rewrite wait_stop_quiet by apply Q1.
  set (w2 := emit (EvWait onDuration false) (set_now (now w1 + Z.max onDuration 0) w1)).
  assert (Q2 : quiet stop w2) by exact Q1.
  rewrite (proj1 Q2). cbn [negb].
  pose proof (quiet_setColor stop ColorOff w2 Q2) as Q3.
  pose proof (setColor_obs ColorOff w2) as O3. cbn zeta in O3.
  destruct (setColor ColorOff w2) as [r3 w3]. cbn [snd] in Q3, O3.
  rewrite wait_stop_quiet by apply Q3.
  set (w4 := emit (EvWait offDuration false) (set_now (now w3 + Z.max offDuration 0) w3)).
  assert (Q4 : quiet stop w4) by exact Q3.
  rewrite (proj1 Q4). cbn [negb].
  exists w4. split; [reflexivity |]. split; [exact Q4 |].
  destruct O1 as (_ & _ & _ & N1 & _ & T1).
  destruct O3 as (_ & _ & _ & N3 & _ & T3).
  split.
  - subst w4. cbn. rewrite T3. subst w2. cbn. rewrite T1. subst w0. cbn.
    rewrite <- !app_assoc. reflexivity.
  - subst w4. cbn. rewrite N3. subst w2. cbn. rewrite N1. subst w0. cbn. lia.
Qed.

(** Case analysis on the next synchronisation point of a run recorded in
    hypothesis [H]. *)
Ltac next_point H :=
  match type of H with
  | context [poll_stop ?s ?w] =>
      destruct (poll_stop s w) as [[] ?]
  | context [wait_stop ?s ?d ?w] =>
      destruct (wait_stop s d w) as [[] ?]
  | context [setColor ?c ?w] =>
      let O := fresh "O" in
      pose proof (setColor_obs c w) as O; cbn zeta in O;
      destruct (setColor c w) as [? ?]; cbn [snd] in O
  | context [negb (effectActive ?w)] =>
      destruct (effectActive w)
  end; cbv beta iota in H; cbn [negb] in H.

(** Whenever the blink loop ends in a [return], it returns [nil] and the
    last thing it did was [setColor(ColorOff)]. *)
Lemma blink_loop_return fuel :
  forall i color blinkCount onDuration offDuration stop w r w',
  blink_loop fuel i color blinkCount onDuration offDuration stop w = (Return r, w') ->
  r = None /\ exists tr, trace w' = tr ++ [EvSetColor ColorOff].
Proof.
  induction fuel as [|fuel IH]; intros i color blinkCount onDuration offDuration stop w r w' H;
    cbn [blink_loop] in H;
    destruct ((blinkCount =? 0) || (i <? blinkCount)); try discriminate.
  unfold bind, gets, ret in H. cbv beta in H.
  repeat next_point H;
    try (injection H as <- <-; split; [reflexivity |];
         match goal with Hobs : _ /\ _ |- _ => eexists; apply Hobs end).
  eapply IH. exact H.
Qed.

(** ** Write failures *)

(** C3, as stated, fails.  A 100 ms fade whose very first hardware write
    fails returns the error after three synchronisation points (poll, the
    failed color, the off write) and without waiting at all; the same fade
    with working hardware goes through all its 51 steps.  Blink, for
    its part, completes but reports nothing. *)
Lemma fade_aborts_on_write_failure :
  let bad := FadeColor ColorOff ColorRed (100 * Millisecond) 1 (running_world [false] []) in
  let good := FadeColor ColorOff ColorRed (100 * Millisecond) 1 (running_world [] []) in
  let blink := BlinkColor 1 ColorRed 1 (200 * Millisecond) (400 * Millisecond) 1
                 (running_world [false] []) in
  fst bad = Done (Some (ErrSet RedLEDPath (ErrWriteFile RedLEDPath))) /\
  trace (snd bad) = [EvPoll false; EvSetColor ColorOff; EvSetColor ColorOff] /\
  now (snd bad) = 0 /\
  fst good = Done None /\
  setColor_calls (trace (snd good)) = 51%nat /\
  now (snd good) = 102 * Millisecond /\
  fst blink = Done None /\ now (snd blink) = 600 * Millisecond.
Proof. vm_compute. repeat split; reflexivity. Qed.

Lemma wrap64_id z : in_int64 z -> wrap64 z = z.
Proof.
  unfold in_int64, int64_min, int64_max, wrap64. intros H.
  rewrite Z.mod_small; lia.
Qed.

(** A blink of [blinkCount > 0] repetitions that nothing interrupts runs
    them all and falls out of the loop. *)
Lemma blink_loop_run n :
  forall fuel i color blinkCount onDuration offDuration stop w,
  0 < blinkCount <= int64_max -> 0 <= i -> i + Z.of_nat n = blinkCount ->
  (n <= fuel)%nat -> quiet stop w ->
  exists w',
    blink_loop fuel i color blinkCount onDuration offDuration stop w = (Continue, w') /\
    quiet stop w' /\
    trace w' = trace w ++ concat (repeat (blink_events color onDuration offDuration) n) /\
    now w' = now w + Z.of_nat n * (Z.max onDuration 0 + Z.max offDuration 0).
Proof.
  induction n as [|n IH]; intros fuel i color blinkCount onDuration offDuration stop w
    Hc Hi Hn Hf Hq.
  - exists w.
    assert (E : (blinkCount =? 0) || (i <? blinkCount) = false).
    { apply orb_false_iff. rewrite Z.eqb_neq, Z.ltb_ge. lia. }
    split; [destruct fuel; cbn [blink_loop]; rewrite E; reflexivity |].
    split; [exact Hq |]. cbn. rewrite app_nil_r. split; [reflexivity | lia].
  - destruct fuel as [|fuel]; [lia |].
    destruct (blink_loop_quiet fuel i color blinkCount onDuration offDuration stop w
                ltac:(lia) Hq) as (w1 & E1 & Q1 & T1 & N1).
    rewrite wrap64_id in E1 by (unfold in_int64, int64_min, int64_max in *; lia).
    destruct (IH fuel (i + 1) color blinkCount onDuration offDuration stop w1
                Hc ltac:(lia) ltac:(lia) ltac:(lia) Q1) as (w' & E & Q & T & N).
    exists w'. rewrite E1. split; [exact E |]. split; [exact Q |].
    rewrite T, T1, N, N1. split.
    + cbn [repeat concat]. unfold blink_events at 3. rewrite <- !app_assoc. reflexivity.
    + lia.
Qed.

(** C5, as stated, fails.  A two-fold blink with 200 ms on and 400 ms off
    makes exactly four timed waits, of 200 ms and 400 ms: none is divided
    into sub-waits of at most 10 ms.  In consequence, when another goroutine
    clears [effectActive] 55 ms into the first on-wait, the blink notices
    at 200 ms, whereas a fade in the same situation returns at 60 ms, the
    end of the sub-wait in progress. *)
Lemma blink_waits_not_subdivided :
  let run := BlinkColor 5 ColorRed 2 (200 * Millisecond) (400 * Millisecond) 1
               (running_world [] []) in
  let sched := [(55 * Millisecond, AFinish first_task)] in
  fst run = Done None /\
  trace (snd run) =
    blink_events ColorRed (200 * Millisecond) (400 * Millisecond) ++
    blink_events ColorRed (200 * Millisecond) (400 * Millisecond) /\
  ~ short_waits (trace (snd run)) /\
  now (snd (BlinkColor 5 ColorRed 2 (200 * Millisecond) (400 * Millisecond) 1
              (running_world [] sched))) = 200 * Millisecond /\
  now (snd (FadeColor ColorOff ColorRed (1 * Second) 1
              (running_world [] sched))) = 60 * Millisecond.
Proof.
  cbn zeta.
  assert (E : trace (snd (BlinkColor 5 ColorRed 2 (200 * Millisecond)
                            (400 * Millisecond) 1 (running_world [] []))) =
              blink_events ColorRed (200 * Millisecond) (400 * Millisecond) ++
              blink_events ColorRed (200 * Millisecond) (400 * Millisecond))
    by (vm_compute; reflexivity).
  split; [vm_compute; reflexivity |].
  split; [exact E |].
  split; [| split; vm_compute; reflexivity].
  rewrite E. unfold short_waits, blink_events. cbn [app]. intros H.
  do 2 apply Forall_inv_tail in H. apply Forall_inv in H.
  cbn in H. unfold Millisecond in H. lia.
Qed.

(** ** Fade: termination and sub-waits *)

Lemma await_trace stop deadline evs :
  forall w, trace (snd (await stop deadline evs w)) = trace w.
Proof.
  induction evs as [|[t a] evs IH]; intros w; cbn [await];
    destruct (chan_ready stop w); try reflexivity.
  destruct (t <? deadline); [| reflexivity].
  rewrite IH. reflexivity.
Qed.

Lemma wait_stop_trace stop d w :
  trace (snd (wait_stop stop d w)) = trace w ++ [EvWait d (fst (wait_stop stop d w))].
Proof.
  unfold wait_stop. pose proof (await_trace stop (now w + d) (env w) w) as T.
  destruct (await stop (now w + d) (env w) w) as [ready w1]. cbn [snd] in T.
  destruct ready.
  - destruct (try_recv stop w1) as [got w2] eqn:E.
    apply try_recv_inv in E as [cs ->]. cbn. rewrite T. reflexivity.
  - cbn. rewrite T. reflexivity.
Qed.

Lemma poll_stop_trace stop w :
  trace (snd (poll_stop stop w)) = trace w ++ [EvPoll (fst (poll_stop stop w))].
Proof.
  unfold poll_stop. unfold_m.
  destruct (try_recv stop w) as [got w2] eqn:E.
  apply try_recv_inv in E as [cs ->]. reflexivity.
Qed.

Lemma extends_short_refl w : extends_short w w.
Proof. exists []. rewrite app_nil_r. split; [reflexivity | constructor]. Qed.

Lemma extends_short_trans w1 w2 w3 :
  extends_short w1 w2 -> extends_short w2 w3 -> extends_short w1 w3.
Proof.
  intros (t1 & E1 & S1) (t2 & E2 & S2). exists (t1 ++ t2).
  rewrite E2, E1, app_assoc. split; [reflexivity |].
  apply Forall_app. split; assumption.
Qed.

Lemma extends_short_one w w' e :
  trace w' = trace w ++ [e] -> short_wait e -> extends_short w w'.
Proof. intros E S. exists [e]. split; [exact E | repeat constructor; exact S]. Qed.

Lemma extends_short_setColor c w : extends_short w (snd (setColor c w)).
Proof.
  eapply extends_short_one; [apply setColor_obs | exact I].
Qed.

Lemma extends_short_poll stop w : extends_short w (snd (poll_stop stop w)).
Proof.
  eapply extends_short_one; [apply poll_stop_trace | exact I].
Qed.

Lemma extends_short_wait stop d w :
  d <= 10 * Millisecond -> extends_short w (snd (wait_stop stop d w)).
Proof.
  intros H. eapply extends_short_one; [apply wait_stop_trace | exact H].
Qed.

Ltac chain :=
  repeat match goal with
         | |- extends_short ?a ?a => apply extends_short_refl
         | H : extends_short ?a ?b |- extends_short ?a ?c =>
             first [exact H | apply (extends_short_trans a b c H)]
         end.

(** Case analysis on the next synchronisation point of the run in the
    goal, recording how the trace grows. *)
Ltac step_goal :=
  match goal with
  | |- context [poll_stop ?s ?w] =>
      let P := fresh "P" in
      pose proof (extends_short_poll s w) as P;
      destruct (poll_stop s w) as [[] ?]; cbn [snd] in P
  | |- context [wait_stop ?s ?d ?w] =>
      let P := fresh "P" in
      assert (P : extends_short w (snd (wait_stop s d w)))
        by (apply extends_short_wait; unfold Millisecond in *; lia);
      destruct (wait_stop s d w) as [[] ?]; cbn [snd] in P
  | |- context [setColor ?c ?w] =>
      let P := fresh "P" in
      pose proof (extends_short_setColor c w) as P;
      destruct (setColor c w) as [[?|] ?]; cbn [snd] in P
  | |- context [negb (effectActive ?w)] =>
      destruct (effectActive w)
  end; cbv beta iota; cbn [negb].

(** The sleep loop never exhausts a fuel of one unit per 10 ms, and every
    wait it makes is at most 10 ms long. *)
Lemma fade_sleep_spec stop fuel :
  forall remainingTime w,
  remainingTime <= Z.of_nat fuel * (10 * Millisecond) ->
  fst (fade_sleep fuel remainingTime stop w) <> NoFuel /\
  extends_short w (snd (fade_sleep fuel remainingTime stop w)).
Proof.
  induction fuel as [|fuel IH]; intros rem w Hf; cbn [fade_sleep];
    destruct (Z.gtb_spec rem 0) as [Hpos | Hneg];
    try (cbn; split; [discriminate | apply extends_short_refl]).
  - unfold Millisecond in *. lia.
  - unfold bind, gets, ret. cbv beta.
    destruct (Z.gtb_spec rem (10 * Millisecond)) as [Hbig | Hsmall].
    + repeat step_goal; cbn [fst snd];
        try (split; [discriminate | chain]).
      specialize (IH (rem - 10 * Millisecond) w0 ltac:(unfold Millisecond in *; lia)).
      destruct IH as [I1 I2]. split; [exact I1 | chain].
    + repeat step_goal; cbn [fst snd];
        try (split; [discriminate | chain]).
      specialize (IH (rem - rem) w0 ltac:(unfold Millisecond in *; lia)).
      destruct IH as [I1 I2]. split; [exact I1 | chain].
Qed.

Lemma sleep_fuel_enough stepDuration :
  stepDuration <= Z.of_nat (sleep_fuel stepDuration) * (10 * Millisecond).
Proof.
  unfold sleep_fuel, Millisecond. rewrite Nat2Z.inj_succ.
  destruct (Z.le_gt_cases 0 stepDuration) as [Hp | Hn].
  - rewrite Z2Nat.id by (apply Z.div_pos; lia).
    pose proof (Z.div_mod stepDuration (10 * 1000000) ltac:(lia)) as Hdm.
    pose proof (Z.mod_pos_bound stepDuration (10 * 1000000) ltac:(lia)) as Hm.
    lia.
  - lia.
Qed.

(** The step loop never exhausts a fuel of one unit per remaining step,
    and every wait it makes is at most 10 ms long. *)
Lemma fade_loop_spec steps stepDuration from to stop fuel :
  forall step w,
  steps + 1 - step <= Z.of_nat fuel ->
  fst (fade_loop fuel step steps stepDuration from to stop w) <> NoFuel /\
  extends_short w (snd (fade_loop fuel step steps stepDuration from to stop w)).
Proof.
  induction fuel as [|fuel IH]; intros step w Hf; cbn [fade_loop];
    destruct (Z.leb_spec step steps) as [Hle | Hgt];
    try (cbn; split; [discriminate | apply extends_short_refl]).
  - lia.
  - unfold bind, gets, ret. cbv beta.
    repeat step_goal; cbn [fst snd]; try (split; [discriminate | chain]).
    match goal with |- context [fade_sleep _ _ _ ?w1] =>
      pose proof (fade_sleep_spec stop (sleep_fuel stepDuration) stepDuration w1
                    (sleep_fuel_enough stepDuration)) as [S1 S2];
      destruct (fade_sleep (sleep_fuel stepDuration) stepDuration stop w1) as [r w2]
    end.
    cbn [fst snd] in S1, S2.
    destruct r as [|r|]; cbn [fst snd].
    + specialize (IH (step + 1) w2 ltac:(lia)). destruct IH as [I1 I2].
      split; [exact I1 | chain].
    + split; [discriminate | chain].
    + contradiction.
Qed.

(** [FadeColor] always returns, and each of its timed waits is at most
    10 ms long. *)
Lemma FadeColor_returns from to duration stop w :
  (exists r, fst (FadeColor from to duration stop w) = Done r) /\
  extends_short w (snd (FadeColor from to duration stop w)).
Proof.
  unfold FadeColor.
  pose proof (fade_plan_bounds duration) as (_ & Hs & _).
  destruct (fade_plan duration) as [steps sd]. cbn [fst] in Hs.
  pose proof (fade_loop_spec steps sd from to stop (Z.to_nat (steps + 1)) 0 w
                ltac:(lia)) as [L1 L2].
  unfold bind, ret.
  destruct (fade_loop (Z.to_nat (steps + 1)) 0 steps sd from to stop w) as [r w'].
  cbn [fst snd] in L1, L2.
  destruct r as [|r|]; cbn [fst snd]; [eauto | eauto | contradiction].
Qed.

(** Uninterrupted, the sleep loop of one step lasts exactly the step
    duration. *)
Lemma fade_sleep_quiet stop fuel :
  forall remainingTime w,
  remainingTime <= Z.of_nat fuel * (10 * Millisecond) -> quiet stop w ->
  exists w',
    fade_sleep fuel remainingTime stop w = (Continue, w') /\
    quiet stop w' /\ now w' = now w + Z.max remainingTime 0.
Proof.
  induction fuel as [|fuel IH]; intros rem w Hf Hq; cbn [fade_sleep];
    destruct (Z.gtb_spec rem 0) as [Hpos | Hneg];
    try (exists w; split; [reflexivity | split; [exact Hq | lia]]).
  - unfold Millisecond in *. lia.
  - unfold bind, gets, ret. cbv beta.
    rewrite wait_stop_quiet by apply Hq. cbv beta iota.
    match goal with |- context [effectActive ?W] =>
      set (w1 := W); assert (Q1 : quiet stop w1) by exact Hq
    end.
    rewrite (proj1 Q1). cbn [negb].
    destruct (Z.gtb_spec rem (10 * Millisecond)) as [Hbig | Hsmall].
    + destruct (IH (rem - 10 * Millisecond) w1
                  ltac:(unfold Millisecond in *; lia) Q1) as (w' & E & Q & N).
      exists w'. split; [exact E |]. split; [exact Q |].
      rewrite N. subst w1. cbn. unfold Millisecond in *. lia.
    + destruct (IH (rem - rem) w1
                  ltac:(unfold Millisecond in *; lia) Q1) as (w' & E & Q & N).
      exists w'. split; [exact E |]. split; [exact Q |].
      rewrite N. subst w1. cbn. unfold Millisecond in *. lia.
Qed.

(** C6.  Whatever the duration, [FadeColor] plans at least 10 steps, and
    the time one step waits is at most 20 ms plus the rounding of the
    integer division (20 ms / 50 = 0.4 ms): an uninterrupted step advances
    the clock by exactly the step duration, in waits of at most 10 ms
    each. *)
Theorem fade_step_budget (duration : Z) (stop : nat) (w : World) :
  let steps := fst (fade_plan duration) in
  let stepDuration := snd (fade_plan duration) in
  10 <= steps /\
  stepDuration <= 20 * Millisecond + 20 * Millisecond / 50 /\
  (quiet stop w ->
   exists w',
     fade_sleep (sleep_fuel stepDuration) stepDuration stop w = (Continue, w') /\
     now w' = now w + Z.max stepDuration 0 /\
     0 <= now w' - now w <= 20 * Millisecond + 20 * Millisecond / 50) /\
  extends_short w (snd (fade_sleep (sleep_fuel stepDuration) stepDuration stop w)).
Proof.
  cbn zeta. pose proof (fade_plan_bounds duration) as (H10 & _ & Hsd).
  split; [exact H10 |]. split; [exact Hsd |]. split.
  - intros Hq.
    destruct (fade_sleep_quiet stop _ _ w
                (sleep_fuel_enough (snd (fade_plan duration))) Hq)
      as (w' & E & _ & N).
    exists w'. split; [exact E |]. split; [exact N |].
    rewrite N. change (20 * Millisecond / 50) with 400000 in *.
    unfold Millisecond in *. lia.
  - apply fade_sleep_spec, sleep_fuel_enough.
Qed.

Lemma fade_step_budget_witness :
  exists w',
    fade_sleep (sleep_fuel (20 * Millisecond)) (20 * Millisecond) 1
      (running_world [] []) = (Continue, w') /\
    now w' = 20 * Millisecond.
Proof.
  assert (Q : quiet 1 (running_world [] [])) by (repeat split; reflexivity).
  destruct (proj1 (proj2 (proj2 (fade_step_budget (3 * Second) 1
                                   (running_world [] [])))) Q)
    as (w' & E & N & _).
  exists w'. split; [exact E | exact N].
Defined.

(** * Further properties of the code *)

(** ** Color writes *)

(** X1.  [setColor] of an in-range color on an enabled controller writes
    red, green, blue in that order and stops at the first write that
    fails: a failing green write leaves red written and blue untouched, a
    failing blue write leaves red and green written; the error names the
    failing channel.  When all writes succeed the three files hold the
    color. *)
Theorem setColor_partial_on_failure (c : Color) (w : World) :
  ledEnabled w = true -> ~ invalid_color c ->
  (forall rest, io w = true :: false :: rest ->
     fst (setColor c w) = Some (ErrSet GreenLEDPath (ErrWriteFile GreenLEDPath)) /\
     writes (snd (setColor c w)) =
       writes w ++ [mkWrite RedLEDPath (Red c) true;
                    mkWrite GreenLEDPath (Green c) false] /\
     io (snd (setColor c w)) = rest) /\
  (forall rest, io w = true :: true :: false :: rest ->
     fst (setColor c w) = Some (ErrSet BlueLEDPath (ErrWriteFile BlueLEDPath)) /\
     writes (snd (setColor c w)) =
       writes w ++ [mkWrite RedLEDPath (Red c) true;
                    mkWrite GreenLEDPath (Green c) true;
                    mkWrite BlueLEDPath (Blue c) false] /\
     io (snd (setColor c w)) = rest) /\
  (io w = [] ->
     fst (setColor c w) = None /\
     writes (snd (setColor c w)) =
       writes w ++ [mkWrite RedLEDPath (Red c) true;
                    mkWrite GreenLEDPath (Green c) true;
                    mkWrite BlueLEDPath (Blue c) true] /\
     brightness RedLEDPath (writes (snd (setColor c w))) = Some (Red c) /\
     brightness GreenLEDPath (writes (snd (setColor c w))) = Some (Green c) /\
     brightness BlueLEDPath (writes (snd (setColor c w))) = Some (Blue c)).
Proof.
  intros He Hc.
  assert (Hr : out_of_range c = false).
  { destruct (out_of_range c) eqn:E; [| reflexivity].
    apply out_of_range_spec in E. contradiction. }
  assert (Hv : clamp (Red c) = Red c /\ clamp (Green c) = Green c /\
               clamp (Blue c) = Blue c).
  { unfold invalid_color in Hc. repeat split; apply clamp_id; lia. }
  destruct Hv as (Vr & Vg & Vb).
  destruct w as [sc ea ty le cs0 ts ws o n0 ev tr]. cbn in He. subst le.
  unfold setColor, setRed, setGreen, setBlue. unfold_m.
  cbn -[out_of_range clamp]. rewrite Hr.
  split; [| split]; intros; subst o; cbn -[clamp]; rewrite ?Vr, ?Vg, ?Vb.
  - rewrite <- !app_assoc. auto.
  - rewrite <- !app_assoc. auto.
  - rewrite <- !app_assoc. cbn [app].
    repeat split; rewrite brightness_app; reflexivity.
Qed.

Lemma setColor_partial_on_failure_witness :
  fst (setColor (mkColor 10 20 30) (running_world [true; false] [])) =
    Some (ErrSet GreenLEDPath (ErrWriteFile GreenLEDPath)) /\
  writes (snd (setColor (mkColor 10 20 30) (running_world [true; false] []))) =
    [mkWrite RedLEDPath 10 true; mkWrite GreenLEDPath 20 false] /\
  io (snd (setColor (mkColor 10 20 30) (running_world [true; false] []))) = [].
Proof.
  assert (V : ~ invalid_color (mkColor 10 20 30))
    by (unfold invalid_color; cbn; lia).
  exact (proj1 (setColor_partial_on_failure (mkColor 10 20 30)
                  (running_world [true; false] []) eq_refl V) [] eq_refl).
Defined.

(** X2.  While the master enable is off no action of the scheduler writes
    to the hardware: starting, stopping, finishing an effect, the
    listener, and [SetLEDEnabled] itself (in either direction) leave the
    brightness files alone; and only [SetLEDEnabled(true)] turns the
    enable back on. *)
Theorem disabled_never_writes (a : Action) (w : World) :
  ledEnabled w = false ->
  writes (snd (run_action a w)) = writes w /\
  (a <> ASetLEDEnabled true -> ledEnabled (snd (run_action a w)) = false).
Proof.
  intros Hd. destruct a as [k| |b|k|t|local|ch]; cbn [run_action].
  - unfold bind, ret. rewrite StartEffect_disabled by exact Hd. auto.
  - pose proof (StopCurrentEffect_frame w) as F. cbn zeta in F.
    destruct F as (Fe & Fw & _). rewrite Fe, Fw. auto.
  - unfold_m. rewrite Hd. cbn. split; [reflexivity |].
    destruct b; [congruence | reflexivity].
  - unfold runTimedEffect_enter, signal_stop. unfold_m.
    destruct (effectActive w).
    + destruct (try_send (stopChan w) w) as [b w1] eqn:E.
      apply try_send_inv in E as [cs ->]. cbn. auto.
    + cbn. auto.
  - unfold runTimedEffect_finish. unfold_m.
    rewrite setColor_disabled by exact Hd. cbn. auto.
  - unfold listener_forward. unfold_m.
    destruct (try_recv (stopChan w) w) as [[] w1] eqn:E;
      apply try_recv_inv in E as [cs ->]; [| cbn; auto].
    destruct (try_send local (set_chans cs w)) as [b w2] eqn:E2.
    apply try_send_inv in E2 as [cs2 ->]. cbn. auto.
  - unfold bind, ret. destruct (try_send ch w) as [b w1] eqn:E.
    apply try_send_inv in E as [cs ->]. cbn. auto.
Qed.

Lemma disabled_never_writes_witness :
  writes (snd (run_action (AFinish first_task)
                 (set_ledEnabled false two_started))) = [].
Proof.
  exact (proj1 (disabled_never_writes (AFinish first_task)
                  (set_ledEnabled false two_started) eq_refl)).
Defined.

(** ** Starting and stopping *)

(** X3.  A successful [StartEffect] (enabled, kind with a [case]) leaves
    the scheduler running that kind on a fresh, empty stop channel of
    capacity 1, with the effect function launched; it touches no hardware
    and no other channel than the old stop channel.  If an effect was
    already active the caller is held for 100 ms (the sleep is made under
    the lock) after a non-blocking stop signal on the old channel;
    otherwise no time passes. *)
Theorem StartEffect_success (effectType : Z) (w : World) :
  wf w -> ledEnabled w = true -> recognized effectType ->
  let w' := snd (StartEffect effectType w) in
  effectActive w' = true /\
  fst (GetCurrentEffect w') = effectType /\
  stopChan w' = length (chans w) /\
  chans w' !! stopChan w' = Some (mkChan 1 0) /\
  length (chans w') = S (length (chans w)) /\
  (forall ch, ch <> stopChan w -> (ch < length (chans w))%nat ->
     chans w' !! ch = chans w !! ch) /\
  (exists f, effect_type_of f = effectType /\
     tasks w' = tasks w ++ [mkTask f (stopChan w')]) /\
  writes w' = writes w /\
  now w' = now w + (if effectActive w then 100 * Millisecond else 0) /\
  (effectActive w = false -> chans w' = chans w ++ [mkChan 1 0]).
Proof.
  intros [Hs Hc] He Hr w'. subst w'.
  destruct (StartEffect_enabled effectType w He) as (cs & n & Hcs & ->).
  apply dispatch_recognized in Hr.
  destruct (dispatch effectType) as [f|] eqn:Ed; [| congruence].
  assert (Hl : length cs = length (chans w)).
  { destruct (effectActive w); injection Hcs as -> _;
      [apply try_send_length | reflexivity]. }
  cbn [snd effectActive stopChan chans tasks writes now].
  split; [reflexivity |].
  split; [unfold_m; reflexivity |].
  split; [exact Hl |].
  split; [rewrite lookup_app_r, Nat.sub_diag by lia; reflexivity |].
  split; [rewrite length_app; cbn; lia |].
  split.
  { intros ch Hne Hlt. rewrite lookup_app_l by lia.
    destruct (effectActive w); injection Hcs as -> _; [| reflexivity].
    rewrite try_send_chans. destruct (chans w !! stopChan w) as [c|]; [| reflexivity].
    destruct (Nat.ltb (ch_buf c) (ch_cap c)); [| reflexivity].
    apply list_lookup_insert_ne. congruence. }
  split; [exists f; split; [apply dispatch_type; exact Ed | reflexivity] |].
  split; [reflexivity |].
  destruct (effectActive w); injection Hcs as -> ->;
    (split; [lia | intros; first [discriminate | reflexivity]]).
Qed.

Lemma StartEffect_success_witness :
  fst (GetCurrentEffect (snd (StartEffect EFFECT_PARTY two_started))) = EFFECT_PARTY /\
  now (snd (StartEffect EFFECT_PARTY two_started)) =
    now two_started + 100 * Millisecond.
Proof.
  assert (W : wf two_started).
  { split; [vm_compute; lia | vm_compute; repeat constructor]. }
  assert (R : recognized EFFECT_PARTY)
    by (apply recognized_range; unfold EFFECT_PARTY; lia).
  pose proof (StartEffect_success EFFECT_PARTY two_started W eq_refl R)
    as (_ & H2 & _ & _ & _ & _ & _ & _ & H9 & _).
  split; [exact H2 | exact H9].
Defined.

(** Projections of explicit worlds, innermost first. *)
Ltac norm_world :=
  cbv beta iota delta
    [set_stopChan set_effectActive set_currentEffectType set_ledEnabled
     set_chans set_tasks set_hw set_now set_env set_trace emit
     stopChan effectActive currentEffectType ledEnabled chans tasks writes
     io now env trace fst snd].

(** X4.  An effect started through [StartEffect] is signalled to stop by
    its own prologue: [StartEffect] has already set [effectActive], so the
    locked prologue of [runTimedEffect] in the new goroutine takes the
    "stop the running effect" branch, puts a value on the fresh stop
    channel and sleeps 50 ms.  When the goroutine's listener then receives
    from [stopChan], the value lands on the effect's local stop channel. *)
Theorem StartEffect_signals_itself (effectType : Z) (w : World) :
  wf w -> ledEnabled w = true -> recognized effectType ->
  let w1 := snd (StartEffect effectType w) in
  let w2 := snd (runTimedEffect_enter effectType w1) in
  let local := fst (make_chan 5 w2) in
  let w3 := snd (listener_forward local (snd (make_chan 5 w2))) in
  stopChan w2 = stopChan w1 /\
  chans w2 !! stopChan w2 = Some (mkChan 1 1) /\
  now w2 = now w1 + 50 * Millisecond /\
  effectActive w2 = true /\ currentEffectType w2 = effectType /\
  chans w3 !! stopChan w3 = Some (mkChan 1 0) /\
  chans w3 !! local = Some (mkChan 5 1) /\
  chan_ready local w3 = true.
Proof.
  intros [Hs Hc] He Hr.
  destruct (StartEffect_enabled effectType w He) as (cs & n & Hcs & E).
  apply dispatch_recognized in Hr.
  destruct (dispatch effectType) as [f|] eqn:Ed; [| congruence].
  cbn zeta. rewrite E. cbn [snd]. clear E Hcs.
  generalize (tasks w ++ [mkTask f (length cs)]) (writes w) (io w) (env w) (trace w).
  intros ts ws o ev tr.
  assert (La : forall x : Chan, (cs ++ [x]) !! length cs = Some x).
  { intros x. rewrite lookup_app_r, Nat.sub_diag by lia. reflexivity. }
  assert (Ia : forall x y : Chan, <[length cs := y]> (cs ++ [x]) = cs ++ [y]).
  { intros x y. rewrite insert_app_r_alt, Nat.sub_diag by lia. reflexivity. }
  unfold runTimedEffect_enter, signal_stop, try_send. unfold_m.
  cbn [effectActive stopChan chans]. rewrite La.
  cbn [ch_buf ch_cap]. change (Nat.ltb 0 1) with true. cbv beta iota.
  norm_world. rewrite Ia.
  change (Z.max (50 * Millisecond) 0) with (50 * Millisecond).
  split; [reflexivity |]. split; [apply La |].
  split; [reflexivity |]. split; [reflexivity |]. split; [reflexivity |].
  unfold listener_forward, try_recv, try_send. unfold_m. norm_world.
  set (cs1 := cs ++ [mkChan 1 1]).
  assert (L1 : (cs1 ++ [mkChan 5 0]) !! length cs = Some (mkChan 1 1)).
  { subst cs1. rewrite lookup_app_l by (rewrite length_app; cbn; lia). apply La. }
  rewrite L1. cbn [ch_buf ch_cap]. cbv beta iota. norm_world.
  assert (I2 : <[length cs := mkChan 1 0]> (cs1 ++ [mkChan 5 0]) =
               (cs ++ [mkChan 1 0]) ++ [mkChan 5 0]).
  { subst cs1. rewrite insert_app_l by (rewrite length_app; cbn; lia).
    rewrite Ia. reflexivity. }
  rewrite I2.
  assert (Ln : length cs1 = length (cs ++ [mkChan 1 0]))
    by (subst cs1; rewrite !length_app; reflexivity).
  rewrite Ln. set (cs2 := cs ++ [mkChan 1 0]).
  assert (L2 : forall x : Chan, (cs2 ++ [x]) !! length cs2 = Some x).
  { intros x. rewrite lookup_app_r, Nat.sub_diag by lia. reflexivity. }
  rewrite L2. cbn [ch_buf ch_cap]. change (Nat.ltb 0 5) with true.
  cbv beta iota. norm_world.
  assert (I3 : <[length cs2 := mkChan 5 1]> (cs2 ++ [mkChan 5 0]) = cs2 ++ [mkChan 5 1]).
  { rewrite insert_app_r_alt, Nat.sub_diag by lia. reflexivity. }
  rewrite I3.
  split.
  { rewrite lookup_app_l by (subst cs2; rewrite length_app; cbn; lia).
    subst cs2. apply La. }
  split; [apply L2 |].
  unfold chan_ready. norm_world. rewrite L2. reflexivity.
Qed.

Lemma StartEffect_signals_itself_witness :
  chans (snd (runTimedEffect_enter EFFECT_BOOTUP
                (snd (StartEffect EFFECT_BOOTUP init_world))))
    !! stopChan (snd (runTimedEffect_enter EFFECT_BOOTUP
                        (snd (StartEffect EFFECT_BOOTUP init_world))))
  = Some (mkChan 1 1).
Proof.
  assert (W : wf init_world) by (split; cbn; [lia | repeat constructor]).
  assert (R : recognized EFFECT_BOOTUP)
    by (apply recognized_range; unfold EFFECT_BOOTUP; lia).
  exact (proj1 (proj2 (StartEffect_signals_itself EFFECT_BOOTUP init_world
                         W eq_refl R))).
Defined.

(** X5.  [StopCurrentEffect] while an effect is active makes a
    non-blocking send on the stop channel, after which a value is pending
    there, and resets [currentEffectType]; it does not clear
    [effectActive] and writes nothing.  Until the goroutine finishes,
    [IsEffectActive] therefore still reports [true] while
    [GetCurrentEffect] already reports [EFFECT_NONE]. *)
Theorem StopCurrentEffect_active (w : World) :
  wf w -> effectActive w = true ->
  let w' := snd (StopCurrentEffect w) in
  fst (IsEffectActive w') = true /\
  fst (GetCurrentEffect w') = EFFECT_NONE /\
  writes w' = writes w /\ stopChan w' = stopChan w /\
  ledEnabled w' = ledEnabled w /\ tasks w' = tasks w /\
  (exists c, chans w !! stopChan w = Some c /\
     chans w' !! stopChan w =
       Some (mkChan (ch_cap c) (Nat.min (ch_cap c) (S (ch_buf c))))) /\
  chan_ready (stopChan w) w' = true.
Proof.
  intros [Hs Hc] Ha.
  destruct (lookup_lt_is_Some_2 _ _ Hs) as [c El].
  pose proof (Forall_lookup_1 _ _ _ _ Hc El) as [H1 H2].
  destruct w as [sc ea ty le cs0 ts ws o n0 ev tr]. cbn in Hs, Ha, El. subst ea.
  cbn zeta. unfold StopCurrentEffect, signal_stop, try_send, IsEffectActive,
    GetCurrentEffect, chan_ready, bind, ret, gets, modify.
  norm_world. rewrite El.
  assert (E : exists cs',
             (if Nat.ltb (ch_buf c) (ch_cap c)
              then (true, mkWorld sc true ty le
                            (<[sc := mkChan (ch_cap c) (S (ch_buf c))]> cs0)
                            ts ws o n0 ev tr)
              else (false, mkWorld sc true ty le cs0 ts ws o n0 ev tr)) =
             (Nat.ltb (ch_buf c) (ch_cap c),
              mkWorld sc true ty le cs' ts ws o n0 ev tr) /\
             cs' !! sc = Some (mkChan (ch_cap c) (Nat.min (ch_cap c) (S (ch_buf c))))).
  { destruct (Nat.ltb (ch_buf c) (ch_cap c)) eqn:Elt.
    - apply Nat.ltb_lt in Elt. eexists. split; [reflexivity |].
      rewrite list_lookup_insert_eq by exact Hs. f_equal. f_equal. lia.
    - apply Nat.ltb_ge in Elt. exists cs0. split; [reflexivity |].
      rewrite El. destruct c as [cap buf]. cbn in *. f_equal. f_equal. lia. }
  destruct E as (cs' & -> & Ecs). norm_world.
  repeat (split; [reflexivity |]).
  split; [exists c; split; [reflexivity | exact Ecs] |].
  rewrite Ecs. cbn [ch_buf].
  destruct (Nat.min (ch_cap c) (S (ch_buf c))) eqn:Em; [lia | reflexivity].
Qed.

Lemma StopCurrentEffect_active_witness :
  fst (IsEffectActive (snd (StopCurrentEffect two_started))) = true /\
  fst (GetCurrentEffect (snd (StopCurrentEffect two_started))) = EFFECT_NONE.
Proof.
  assert (W : wf two_started).
  { split; [vm_compute; lia | vm_compute; repeat constructor]. }
  pose proof (StopCurrentEffect_active two_started W eq_refl) as (H1 & H2 & _).
  split; [exact H1 | exact H2].
Defined.

(** ** Cancellation of the primitives *)

Lemma poll_stop_ready stop w :
  chan_ready stop w = true ->
  exists c n,
    chans w !! stop = Some c /\ ch_buf c = S n /\
    poll_stop stop w =
      (true, emit (EvPoll true)
               (set_chans (<[stop := mkChan (ch_cap c) n]> (chans w)) w)).
Proof.
  unfold chan_ready, poll_stop, try_recv. unfold_m. intros H.
  destruct (chans w !! stop) as [c|]; [| discriminate].
  destruct (ch_buf c) as [|n] eqn:Eb; [discriminate |].
  exists c, n. auto.
Qed.

(** X6.  A primitive entered with a value already buffered on its stop
    channel consumes that one value, calls [setColor(ColorOff)] and
    returns [nil]: no step is run, no color other than off is written and
    no time passes.  This holds for [FadeColor], and for [PulseColor] and
    [BlinkColor] whenever their count lets the loop start (zero or
    positive). *)
Theorem cancel_at_entry (fuel : nat) (from to color : Color)
    (duration count onDuration offDuration : Z) (stop : nat) (w : World) :
  chan_ready stop w = true ->
  let w' := snd (setColor ColorOff (snd (poll_stop stop w))) in
  FadeColor from to duration stop w = (Done None, w') /\
  (count = 0 \/ 0 < count ->
   PulseColor (S fuel) color count duration stop w = (Done None, w') /\
   BlinkColor (S fuel) color count onDuration offDuration stop w = (Done None, w')) /\
  trace w' = trace w ++ [EvPoll true; EvSetColor ColorOff] /\
  now w' = now w /\
  (exists c n, chans w !! stop = Some c /\ ch_buf c = S n /\
               chans w' !! stop = Some (mkChan (ch_cap c) n)).
Proof.
  intros Hr. destruct (poll_stop_ready stop w Hr) as (c & n & El & Eb & Ep).
  cbn zeta. split; [| split].
  - unfold FadeColor.
    pose proof (fade_plan_bounds duration) as (_ & Hs & _).
    destruct (fade_plan duration) as [steps sd]. cbn [fst] in Hs.
    destruct (Z.to_nat (steps + 1)) as [|f] eqn:Ef; [lia |].
    cbn [fade_loop]. destruct (Z.leb_spec 0 steps) as [_ | ?]; [| lia].
    unfold bind, ret. rewrite Ep. cbn [snd].
    destruct (setColor ColorOff _) as [r1 w1]. reflexivity.
  - intros Hc.
    assert (Hcond : (count =? 0) || (0 <? count) = true).
    { apply orb_true_iff. rewrite Z.eqb_eq, Z.ltb_lt. exact Hc. }
    split.
    + unfold PulseColor. cbn [pulse_loop]. rewrite Hcond.
      unfold bind, ret. rewrite Ep. cbn [snd].
      destruct (setColor ColorOff _) as [r1 w1]. reflexivity.
    + unfold BlinkColor. cbn [blink_loop]. rewrite Hcond.
      unfold bind, ret. rewrite Ep. cbn [snd].
      destruct (setColor ColorOff _) as [r1 w1]. reflexivity.
  - rewrite Ep. cbn [snd].
    match goal with |- context [setColor ColorOff ?W] =>
      destruct (setColor_obs ColorOff W) as (Oc & _ & _ & On & _ & Ot)
    end.
    rewrite Ot, On, Oc. cbn. rewrite <- app_assoc.
    split; [reflexivity |]. split; [reflexivity |].
    exists c, n. split; [exact El |]. split; [exact Eb |].
    apply list_lookup_insert_eq. eapply lookup_lt_Some. exact El.
Qed.

Lemma cancel_at_entry_witness :
  FadeColor ColorOff ColorRed (1 * Second) 1
    (snd (try_send 1 (running_world [] []))) =
  (Done None,
   snd (setColor ColorOff
          (snd (poll_stop 1 (snd (try_send 1 (running_world [] []))))))).
Proof.
  exact (proj1 (cancel_at_entry 0 ColorOff ColorRed ColorRed (1 * Second) 0 0 0 1
                  (snd (try_send 1 (running_world [] []))) eq_refl)).
Defined.

Ltac next_point_fade H :=
  match type of H with
  | context [FadeColor ?a ?b ?d ?s ?w] =>
      destruct (FadeColor a b d s w) as [[[?|]|] ?]
  | context [fade_sleep ?f ?r ?s ?w] =>
      let E := fresh "E" in
      destruct (fade_sleep f r s w) as [[|?|] ?] eqn:E
  | _ => next_point H
  end; cbv beta iota in H; cbn [negb] in H.

Lemma fade_sleep_return stop fuel :
  forall remainingTime w r w',
  fade_sleep fuel remainingTime stop w = (Return r, w') ->
  r = None /\ ends_off w'.
Proof.
  induction fuel as [|fuel IH]; intros rem w r w' H; cbn [fade_sleep] in H;
    destruct (rem >? 0); try discriminate.
  unfold bind, gets, ret in H. cbv beta in H.
  repeat next_point H;
    try (injection H as <- <-; split; [reflexivity |];
         match goal with Hobs : _ /\ _ |- _ => eexists; apply Hobs end).
  eapply IH. exact H.
Qed.

Lemma fade_loop_return steps stepDuration from to stop fuel :
  forall step w r w',
  fade_loop fuel step steps stepDuration from to stop w = (Return r, w') ->
  ends_off w'.
Proof.
  induction fuel as [|fuel IH]; intros step w r w' H; cbn [fade_loop] in H;
    destruct (step <=? steps); try discriminate.
  unfold bind, gets, ret in H. cbv beta in H.
  repeat next_point H;
    try (injection H as <- <-;
         match goal with Hobs : _ /\ _ |- _ => eexists; apply Hobs end).
  destruct o as [err|]; cbv beta iota in H.
  - next_point H. injection H as <- <-. eexists. apply O0.
  - destruct (fade_sleep (sleep_fuel stepDuration) stepDuration stop w1)
      as [[|r2|] w2] eqn:E; cbv beta iota in H.
    + eapply IH. exact H.
    + injection H as <- <-. eapply fade_sleep_return. exact E.
    + discriminate.
Qed.

Lemma pulse_loop_return color pulseCount halfDuration stop fuel :
  forall i w r w',
  pulse_loop fuel i color pulseCount halfDuration stop w = (Return r, w') ->
  ends_off w'.
Proof.
  induction fuel as [|fuel IH]; intros i w r w' H; cbn [pulse_loop] in H;
    destruct ((pulseCount =? 0) || (i <? pulseCount)); try discriminate.
  unfold bind, gets, ret in H. cbv beta in H.
  repeat next_point_fade H; try discriminate;
    try (injection H as <- <-;
         match goal with Hobs : _ /\ _ |- _ => eexists; apply Hobs end).
  eapply IH. exact H.
Qed.

(** X7.  Every early exit of a primitive turns the LED off last: whenever
    the loop of [FadeColor], [PulseColor] or [BlinkColor] ends in a
    [return] (cancellation by the stop channel or by [effectActive], or a
    write error), the last thing it did was [setColor(ColorOff)]; and a
    primitive that reports an error has done so too.  (A fade that runs to
    its end does not: it leaves the target color.) *)
Theorem early_exit_turns_off (fuel : nat) (step steps stepDuration i count : Z)
    (from to color : Color) (duration onDuration offDuration : Z) (stop : nat)
    (w : World) :
  (forall r w',
     fade_loop fuel step steps stepDuration from to stop w = (Return r, w') ->
     ends_off w') /\
  (forall r w',
     pulse_loop fuel i color count duration stop w = (Return r, w') ->
     ends_off w') /\
  (forall r w',
     blink_loop fuel i color count onDuration offDuration stop w = (Return r, w') ->
     r = None /\ ends_off w') /\
  (forall e w',
     FadeColor from to duration stop w = (Done (Some e), w') -> ends_off w') /\
  (forall e w',
     PulseColor fuel color count duration stop w = (Done (Some e), w') ->
     ends_off w').
Proof.
  split; [| split; [| split; [| split]]].
  - intros r w' H. eapply fade_loop_return. exact H.
  - intros r w' H. eapply pulse_loop_return. exact H.
  - intros r w' H. eapply blink_loop_return. exact H.
  - intros e w' H. unfold FadeColor in H.
    destruct (fade_plan duration) as [st sd]. unfold bind, ret in H.
    destruct (fade_loop _ 0 st sd from to stop w) as [[|r|] w1] eqn:E;
      try discriminate.
    injection H as -> <-. eapply fade_loop_return. exact E.
  - intros e w' H. unfold PulseColor, bind, ret in H.
    destruct (pulse_loop fuel 0 color count (Z.quot duration 2) stop w)
      as [[|r|] w1] eqn:E; try discriminate.
    injection H as -> <-. eapply pulse_loop_return. exact E.
Qed.

Lemma early_exit_turns_off_witness :
  ends_off (snd (FadeColor ColorOff ColorRed (100 * Millisecond) 1
                   (running_world [false] []))).
Proof.
  assert (E : FadeColor ColorOff ColorRed (100 * Millisecond) 1
                (running_world [false] []) =
              (Done (Some (ErrSet RedLEDPath (ErrWriteFile RedLEDPath))),
               snd (FadeColor ColorOff ColorRed (100 * Millisecond) 1
                      (running_world [false] []))))
    by (vm_compute; reflexivity).
  exact (proj1 (proj2 (proj2 (proj2
           (early_exit_turns_off 0 0 0 0 0 0 ColorOff ColorRed ColorOff
              (100 * Millisecond) 0 0 1 (running_world [false] [])))))
           _ _ E).
Defined.

(** ** Uninterrupted runs *)

Lemma setColor_calls_app tr1 tr2 :
  setColor_calls (tr1 ++ tr2) = (setColor_calls tr1 + setColor_calls tr2)%nat.
Proof. unfold setColor_calls. rewrite List.filter_app, length_app. reflexivity. Qed.

(** A [setColor] that cannot fail: what it returns and what it keeps. *)
Lemma setColor_ok stop c w :
  quiet stop w -> writes_succeed w ->
  (ledEnabled w = true -> out_of_range c = false) ->
  exists w1,
    setColor c w = (None, w1) /\ quiet stop w1 /\ writes_succeed w1 /\
    ledEnabled w1 = ledEnabled w /\ now w1 = now w /\
    trace w1 = trace w ++ [EvSetColor c] /\
    (ledEnabled w = false -> writes w1 = writes w).
Proof.
  intros Hq Hs Hr.
  destruct w as [sc ea ty le cs0 ts ws o n0 ev tr].
  unfold writes_succeed in *. cbn in Hs, Hr.
  destruct le.
  - destruct Hs as [? | ->]; [discriminate |].
    unfold setColor, setRed, setGreen, setBlue. unfold_m.
    cbn -[out_of_range clamp]. rewrite (Hr eq_refl).
    eexists. split; [reflexivity |].
    split; [exact Hq |]. split; [right; reflexivity |].
    repeat split. discriminate.
  - rewrite setColor_disabled by reflexivity.
    eexists. split; [reflexivity |].
    split; [exact Hq |]. split; [left; reflexivity |]. repeat split.
Qed.

(** The sleep loop of an uninterrupted step only advances the clock and
    records its waits. *)
Lemma fade_sleep_quiet_world stop fuel :
  forall remainingTime w,
  remainingTime <= Z.of_nat fuel * (10 * Millisecond) -> quiet stop w ->
  exists tr,
    fade_sleep fuel remainingTime stop w =
      (Continue, set_trace (trace w ++ tr)
                   (set_now (now w + Z.max remainingTime 0) w)) /\
    setColor_calls tr = 0%nat.
Proof.
  induction fuel as [|fuel IH]; intros rem w Hf Hq; cbn [fade_sleep];
    destruct (Z.gtb_spec rem 0) as [Hpos | Hneg];
    try (exists []; split; [| reflexivity];
         rewrite app_nil_r; replace (now w + Z.max rem 0) with (now w) by lia;
         destruct w; reflexivity).
  - unfold Millisecond in *. lia.
  - unfold bind, gets, ret. cbv beta.
    rewrite wait_stop_quiet by apply Hq. cbv beta iota.
    match goal with |- context [effectActive ?W] =>
      set (w1 := W); assert (Q1 : quiet stop w1) by exact Hq
    end.
    rewrite (proj1 Q1). cbn [negb].
    destruct (Z.gtb_spec rem (10 * Millisecond)) as [Hbig | Hsmall].
    + destruct (IH (rem - 10 * Millisecond) w1
                  ltac:(unfold Millisecond in *; lia) Q1) as (tr & E & C).
      exists (EvWait (10 * Millisecond) false :: tr). rewrite E.
      split; [| exact C]. subst w1. destruct w. norm_world.
      rewrite <- app_assoc.
      f_equal; f_equal; try reflexivity; unfold Millisecond in *; lia.
    + destruct (IH (rem - rem) w1
                  ltac:(unfold Millisecond in *; lia) Q1) as (tr & E & C).
      exists (EvWait rem false :: tr). rewrite E.
      split; [| exact C]. subst w1. destruct w. norm_world.
      rewrite <- app_assoc.
      f_equal; f_equal; try reflexivity; unfold Millisecond in *; lia.
Qed.

Lemma fade_in_range_step from to steps step :
  fade_in_range from to steps = true -> 0 <= step <= steps ->
  out_of_range (fade_color from to step steps) = false.
Proof.
  unfold fade_in_range. intros H Hs.
  rewrite forallb_forall in H.
  specialize (H (Z.to_nat step)).
  rewrite Z2Nat.id in H by lia.
  apply negb_true_iff, H, in_seq. lia.
Qed.

(** The fade loop, [n] iterations from the end, when nothing interrupts it
    and no write can fail. *)
Lemma fade_loop_run steps stepDuration from to stop n :
  forall fuel step w,
  0 <= step -> step + Z.of_nat n = steps + 1 -> (n <= fuel)%nat ->
  quiet stop w -> writes_succeed w ->
  (ledEnabled w = true -> fade_in_range from to steps = true) ->
  exists w',
    fade_loop fuel step steps stepDuration from to stop w = (Continue, w') /\
    quiet stop w' /\ writes_succeed w' /\ ledEnabled w' = ledEnabled w /\
    now w' = now w + Z.of_nat n * Z.max stepDuration 0 /\
    setColor_calls (trace w') = (setColor_calls (trace w) + n)%nat /\
    (ledEnabled w = false -> writes w' = writes w).
Proof.
  induction n as [|n IH]; intros fuel step w H0 Hn Hf Hq Hs Hr.
  - exists w.
    assert (E : (step <=? steps) = false) by (apply Z.leb_gt; lia).
    split; [destruct fuel; cbn [fade_loop]; rewrite E; reflexivity |].
    split; [exact Hq |]. split; [exact Hs |]. split; [reflexivity |].
    split; [cbn; lia |]. split; [lia | reflexivity].
  - destruct fuel as [|fuel]; [lia |].
    cbn [fade_loop]. destruct (Z.leb_spec step steps) as [Hle | ?]; [| lia].
    unfold bind, gets, ret. cbv beta.
    rewrite poll_stop_not_ready by apply Hq. cbv beta iota.
    set (w0 := emit (EvPoll false) w).
    assert (Q0 : quiet stop w0) by exact Hq.
    rewrite (proj1 Q0). cbn [negb].
    destruct (setColor_ok stop (fade_color from to step steps) w0 Q0 Hs)
      as (w1 & E1 & Q1 & S1 & L1 & N1 & T1 & W1).
    { intros He. apply fade_in_range_step; [apply Hr; exact He | lia]. }
    rewrite E1. cbv beta iota.
    destruct (fade_sleep_quiet_world stop _ _ w1
                (sleep_fuel_enough stepDuration) Q1) as (tr & E2 & C2).
    rewrite E2. cbv beta iota.
    set (w2 := set_trace (trace w1 ++ tr) (set_now (now w1 + Z.max stepDuration 0) w1)).
    destruct (IH fuel (step + 1) w2 ltac:(lia) ltac:(lia) ltac:(lia) Q1 S1)
      as (w' & E & Q & S & L & N & C & Wd).
    { intros He. apply Hr. change (ledEnabled w) with (ledEnabled w0).
      rewrite <- L1. exact He. }
    exists w'. split; [exact E |]. split; [exact Q |]. split; [exact S |].
    split; [rewrite L; exact L1 |].
    split; [rewrite N; subst w2; unfold set_trace, set_now; cbn [now];
            rewrite N1; subst w0; unfold emit; cbn [now]; lia |].
    split.
    + rewrite C. subst w2. unfold set_trace, set_now. cbn [trace].
      rewrite setColor_calls_app, C2, T1, setColor_calls_app.
      subst w0. unfold emit. cbn [trace]. rewrite setColor_calls_app.
      cbn. lia.
    + intros Hd. rewrite Wd by (change (ledEnabled w1 = false); rewrite L1; exact Hd).
      change (writes w1 = writes w0). apply W1. exact Hd.
Qed.

Lemma FadeColor_run (from to : Color) (duration : Z) (stop : nat) (w : World) :
  quiet stop w -> writes_succeed w ->
  (ledEnabled w = true -> fade_in_range from to (fst (fade_plan duration)) = true) ->
  exists w',
    FadeColor from to duration stop w = (Done None, w') /\
    now w' = now w +
      (fst (fade_plan duration) + 1) * Z.max (snd (fade_plan duration)) 0 /\
    setColor_calls (trace w') =
      (setColor_calls (trace w) + Z.to_nat (fst (fade_plan duration) + 1))%nat /\
    (ledEnabled w = false -> writes w' = writes w) /\
    quiet stop w' /\ writes_succeed w' /\ ledEnabled w' = ledEnabled w.
Proof.
  intros Hq Hs Hr. unfold FadeColor.
  pose proof (fade_plan_bounds duration) as (_ & H50 & _).
  destruct (fade_plan duration) as [steps sd]. cbn [fst snd] in *.
  destruct (fade_loop_run steps sd from to stop (Z.to_nat (steps + 1))
              (Z.to_nat (steps + 1)) 0 w ltac:(lia) ltac:(lia) ltac:(lia)
              Hq Hs Hr) as (w' & E & Q & S & L & N & C & Wd).
  exists w'. unfold bind, ret. rewrite E.
  split; [reflexivity |]. split; [rewrite N, Z2Nat.id by lia; reflexivity |].
  auto.
Qed.

(** X8.  A fade that nothing interrupts, whose writes cannot fail (the
    gate is closed, or the hardware accepts every write and every
    interpolated color is within range), returns [nil] after running all
    [steps + 1] iterations: it calls [setColor] [steps + 1] times and
    lasts [(steps + 1) * stepDuration], one step more than [steps] steps
    would.  With the gate closed it lasts just as long and writes
    nothing. *)
Theorem FadeColor_full_run (from to : Color) (duration : Z) (stop : nat) (w : World) :
  quiet stop w -> writes_succeed w ->
  (ledEnabled w = true -> fade_in_range from to (fst (fade_plan duration)) = true) ->
  exists w',
    FadeColor from to duration stop w = (Done None, w') /\
    now w' = now w +
      (fst (fade_plan duration) + 1) * Z.max (snd (fade_plan duration)) 0 /\
    setColor_calls (trace w') =
      (setColor_calls (trace w) + Z.to_nat (fst (fade_plan duration) + 1))%nat /\
    (ledEnabled w = false -> writes w' = writes w) /\
    quiet stop w' /\ writes_succeed w' /\ ledEnabled w' = ledEnabled w.
Proof. apply FadeColor_run. Qed.

Lemma FadeColor_full_run_witness :
  exists w',
    FadeColor ColorOff ColorRed (100 * Millisecond) 1 (running_world [] []) =
      (Done None, w') /\
    now w' = 102 * Millisecond /\
    setColor_calls (trace w') = 51%nat.
Proof.
  assert (Q : quiet 1 (running_world [] [])) by (repeat split; reflexivity).
  assert (S : writes_succeed (running_world [] [])) by (right; reflexivity).
  destruct (FadeColor_full_run ColorOff ColorRed (100 * Millisecond) 1
              (running_world [] []) Q S ltac:(intros _; vm_compute; reflexivity))
    as (w' & E & N & C & _).
  exists w'. split; [exact E |]. split; [exact N | exact C].
Defined.

(** ** Repetition counts *)

Lemma blink_loop_forever color onDuration offDuration stop fuel :
  forall i w, quiet stop w ->
  exists w',
    blink_loop fuel i color 0 onDuration offDuration stop w = (NoFuel, w') /\
    quiet stop w' /\
    trace w' = trace w ++
      concat (repeat (blink_events color onDuration offDuration) fuel) /\
    now w' = now w + Z.of_nat fuel * (Z.max onDuration 0 + Z.max offDuration 0).
Proof.
  induction fuel as [|fuel IH]; intros i w Hq.
  - exists w. cbn. rewrite app_nil_r. repeat split; auto; try apply Hq. lia.
  - destruct (blink_loop_quiet fuel i color 0 onDuration offDuration stop w
                ltac:(left; reflexivity) Hq) as (w1 & E1 & Q1 & T1 & N1).
    destruct (IH (wrap64 (i + 1)) w1 Q1) as (w' & E & Q & T & N).
    exists w'. rewrite E1. split; [exact E |]. split; [exact Q |].
    rewrite T, T1, N, N1. split.
    + cbn [repeat concat]. unfold blink_events at 3. rewrite <- !app_assoc. reflexivity.
    + lia.
Qed.


Lemma pulse_loop_forever color pulseDuration stop fuel :
  forall i w,
  quiet stop w -> writes_succeed w ->
  (ledEnabled w = true -> pulse_in_range color pulseDuration = true) ->
  exists w',
    pulse_loop fuel i color 0 (Z.quot pulseDuration 2) stop w = (NoFuel, w') /\
    quiet stop w' /\ writes_succeed w' /\ ledEnabled w' = ledEnabled w /\
    now w' = now w + Z.of_nat fuel *
      (2 * ((fst (fade_plan (Z.quot pulseDuration 2)) + 1) *
            Z.max (snd (fade_plan (Z.quot pulseDuration 2))) 0)).
Proof.
  induction fuel as [|fuel IH]; intros i w Hq Hs Hr.
  - exists w. cbn. repeat split; auto; try apply Hq. lia.
  - cbn [pulse_loop]. cbn [Z.eqb orb].
    unfold bind, gets, ret. cbv beta.
    rewrite poll_stop_not_ready by apply Hq. cbv beta iota.
    set (w0 := emit (EvPoll false) w).
    assert (Q0 : quiet stop w0) by exact Hq.
    rewrite (proj1 Q0). cbn [negb].
    assert (R1 : ledEnabled w0 = true ->
                 fade_in_range ColorOff color
                   (fst (fade_plan (Z.quot pulseDuration 2))) = true).
    { intros He. apply Hr in He. unfold pulse_in_range in He.
      apply andb_true_iff in He. apply He. }
    destruct (FadeColor_run ColorOff color (Z.quot pulseDuration 2) stop w0 Q0 Hs R1)
      as (w1 & E1 & N1 & _ & _ & Q1 & S1 & L1).
    rewrite E1. cbv beta iota.
    rewrite poll_stop_not_ready by apply Q1. cbv beta iota.
    set (w2 := emit (EvPoll false) w1).
    assert (Q2 : quiet stop w2) by exact Q1.
    rewrite (proj1 Q2). cbn [negb].
    assert (R2 : ledEnabled w2 = true ->
                 fade_in_range color ColorOff
                   (fst (fade_plan (Z.quot pulseDuration 2))) = true).
    { intros He. change (ledEnabled w1 = true) in He. rewrite L1 in He.
      apply Hr in He. unfold pulse_in_range in He.
      apply andb_true_iff in He. apply He. }
    destruct (FadeColor_run color ColorOff (Z.quot pulseDuration 2) stop w2 Q2 S1 R2)
      as (w3 & E3 & N3 & _ & _ & Q3 & S3 & L3).
    rewrite E3. cbv beta iota. rewrite (proj1 Q3). cbn [negb].
    destruct (IH (wrap64 (i + 1)) w3 Q3 S3) as (w' & E & Q & S & L & N).
    { intros He. apply Hr. change (ledEnabled w0 = true). rewrite <- L1.
      change (ledEnabled w2 = true). rewrite <- L3. exact He. }
    exists w'. split; [exact E |]. split; [exact Q |]. split; [exact S |].
    split.
    + rewrite L, L3. change (ledEnabled w1 = ledEnabled w0). exact L1.
    + rewrite N, N3. change (now w2) with (now w1). rewrite N1.
      change (now w0) with (now w). lia.
Qed.

(** X9.  The repetition count of [BlinkColor] and [PulseColor]: a negative
    count makes the call return [nil] at once, with nothing done; a zero
    count repeats without end, so that uninterrupted (and, for the pulse,
    with writes that cannot fail) the call is still running after any
    number of repetitions, each blink lasting [onDuration + offDuration]
    and each pulse cycle two full fades. *)
Theorem count_zero_unbounded_negative_noop (fuel : nat) (color : Color)
    (count onDuration offDuration pulseDuration : Z) (stop : nat) (w : World) :
  (count < 0 ->
   BlinkColor fuel color count onDuration offDuration stop w = (Done None, w) /\
   PulseColor fuel color count pulseDuration stop w = (Done None, w)) /\
  (quiet stop w ->
   exists w',
     BlinkColor fuel color 0 onDuration offDuration stop w = (Running, w') /\
     trace w' = trace w ++
       concat (repeat (blink_events color onDuration offDuration) fuel) /\
     now w' = now w + Z.of_nat fuel * (Z.max onDuration 0 + Z.max offDuration 0)) /\
  (quiet stop w -> writes_succeed w ->
   (ledEnabled w = true -> pulse_in_range color pulseDuration = true) ->
   exists w',
     PulseColor fuel color 0 pulseDuration stop w = (Running, w') /\
     now w' = now w + Z.of_nat fuel *
       (2 * ((fst (fade_plan (Z.quot pulseDuration 2)) + 1) *
             Z.max (snd (fade_plan (Z.quot pulseDuration 2))) 0))).
Proof.
  split; [| split].
  - intros Hc.
    assert (E : (count =? 0) || (0 <? count) = false).
    { apply orb_false_iff. rewrite Z.eqb_neq, Z.ltb_ge. lia. }
    unfold BlinkColor, PulseColor, bind, ret.
    split; destruct fuel; cbn [blink_loop pulse_loop]; rewrite E; reflexivity.
  - intros Hq.
    destruct (blink_loop_forever color onDuration offDuration stop fuel 0 w Hq)
      as (w' & E & _ & T & N).
    exists w'. unfold BlinkColor, bind, ret. rewrite E. auto.
  - intros Hq Hs Hr.
    destruct (pulse_loop_forever color pulseDuration stop fuel 0 w Hq Hs Hr)
      as (w' & E & _ & _ & _ & N).
    exists w'. unfold PulseColor, bind, ret. rewrite E. auto.
Qed.

Lemma count_zero_unbounded_negative_noop_witness :
  exists w',
    PulseColor 3 ColorGreen 0 (2 * Second) 1 (running_world [] []) = (Running, w') /\
    now w' = 6120 * Millisecond.
Proof.
  assert (Q : quiet 1 (running_world [] [])) by (repeat split; reflexivity).
  assert (S : writes_succeed (running_world [] [])) by (right; reflexivity).
  exact (proj2 (proj2 (count_zero_unbounded_negative_noop 3 ColorGreen 0 0 0
                         (2 * Second) 1 (running_world [] []))) Q S
           ltac:(intros _; vm_compute; reflexivity)).
Defined.

(** ** Effect bodies *)

Ltac finish_off H :=
  injection H as <-;
  match goal with Hobs : _ /\ _ |- _ => eexists; apply Hobs end.

Lemma solid_effect_ends_off color d stop w w' :
  solid_effect color d stop w = (Finished, w') -> ends_off w'.
Proof.
  intros H. unfold solid_effect, bind, ret in H. cbv beta in H.
  repeat next_point H; finish_off H.
Qed.

Lemma CameraCaptureEffect_ends_off stop w w' :
  CameraCaptureEffect_body stop w = (Finished, w') -> ends_off w'.
Proof.
  intros H. unfold CameraCaptureEffect_body, bind, ret in H. cbv beta in H.
  repeat next_point H; finish_off H.
Qed.

Lemma call_loop_ends_off stop fuel :
  forall isRed w w', call_loop fuel isRed stop w = (Finished, w') -> ends_off w'.
Proof.
  induction fuel as [|fuel IH]; intros isRed w w' H; cbn [call_loop] in H;
    [discriminate |].
  unfold bind, ret in H. cbv beta in H.
  repeat next_point H; try finish_off H.
  eapply IH. exact H.
Qed.

Lemma charging_complete_loop_ends_off stop fuel :
  forall w w', charging_complete_loop fuel stop w = (Finished, w') -> ends_off w'.
Proof.
  induction fuel as [|fuel IH]; intros w w' H; cbn [charging_complete_loop] in H;
    [discriminate |].
  unfold bind, ret in H. cbv beta in H.
  repeat next_point H; try finish_off H.
  eapply IH. exact H.
Qed.

Lemma then_off_ends_off prim w w' :
  then_off prim w = (Finished, w') -> ends_off w'.
Proof.
  intros H. unfold then_off, bind, ret in H.
  destruct (prim w) as [[r|] w1]; [| discriminate].
  next_point H. finish_off H.
Qed.

Lemma effect_body_ends_off f fuel body stop w w' :
  effect_body f fuel = Some body -> body stop w = (Finished, w') -> ends_off w'.
Proof.
  intros Hb H. destruct f; cbn in Hb; try discriminate;
    injection Hb as <-;
    first [ eapply then_off_ends_off; exact H
          | eapply solid_effect_ends_off; exact H
          | eapply CameraCaptureEffect_ends_off; exact H
          | eapply call_loop_ends_off; exact H
          | idtac ].
  unfold ChargingCompleteEffect_body, bind in H.
  destruct (setColor ColorBlue w) as [r w1].
  eapply charging_complete_loop_ends_off. exact H.
Qed.

(** X10.  Every modelled effect body turns the LED off on every exit
    path: whenever it returns, its last action was [setColor(ColorOff)].
    The goroutine of [runTimedEffect] that ran it then calls
    [setColor(ColorOff)] once more and leaves the scheduler idle
    ([effectActive] false, [currentEffectType] none), 50 ms after the body
    returned. *)
Theorem effect_exit_turns_off_and_idles (f : EffectFn) (fuel : nat)
    (body : nat -> M Status) (stop : nat) (t : Task) (w : World) :
  effect_body f fuel = Some body ->
  (forall w', body stop w = (Finished, w') -> ends_off w') /\
  (forall w', runTimedEffect_goroutine body t w = (Finished, w') ->
     ends_off w' /\ effectActive w' = false /\
     currentEffectType w' = EFFECT_NONE /\
     fst (GetCurrentEffect w') = EFFECT_NONE /\
     exists w1, body (length (chans w)) (snd (make_chan 5 w)) = (Finished, w1) /\
                now w' = now w1 + 50 * Millisecond).
Proof.
  intros Hb. split.
  - intros w' H. eapply effect_body_ends_off; eauto.
  - intros w' H. unfold runTimedEffect_goroutine, bind, ret in H.
    cbn [make_chan fst snd] in H. unfold make_chan in H. cbv beta iota in H.
    destruct (body _ _) as [[|] w1] eqn:E; [| discriminate].
    unfold runTimedEffect_finish in H. unfold_m.
    pose proof (setColor_obs ColorOff w1) as O. cbn zeta in O.
    destruct (setColor ColorOff w1) as [r w2]. cbn [snd] in O.
    injection H as <-. destruct O as (_ & _ & _ & On & _ & Ot).
    split; [eexists; exact Ot |].
    split; [reflexivity |]. split; [reflexivity |]. split; [reflexivity |].
    exists w1. split; [reflexivity |]. cbn. rewrite On. reflexivity.
Qed.

Lemma effect_exit_turns_off_and_idles_witness :
  ends_off (snd (CameraFocusEffect_body 1 (running_world [] []))).
Proof.
  assert (E : CameraFocusEffect_body 1 (running_world [] []) =
              (Finished, snd (CameraFocusEffect_body 1 (running_world [] []))))
    by (vm_compute; reflexivity).
  exact (proj1 (effect_exit_turns_off_and_idles CameraFocusEffect 0
                  CameraFocusEffect_body 1 first_task (running_world [] [])
                  eq_refl) _ E).
Defined.

(** In an uninterrupted run: the next [setColor], whose result the caller
    drops, and the next timed wait. *)
Ltac q_set :=
  match goal with
  | Q : quiet ?s ?w |- context [setColor ?c ?w] =>
      let Q' := fresh "Q" in
      let O := fresh "O" in
      pose proof (quiet_setColor s c w Q) as Q';
      pose proof (setColor_obs c w) as O; cbn zeta in O;
      destruct (setColor c w) as [? ?]; cbn [snd] in Q', O;
      destruct O as (_ & _ & _ & ? & _ & ?); cbv beta iota
  end.

Ltac q_wait :=
  match goal with
  | Q : quiet ?s ?w |- context [wait_stop ?s ?d ?w] =>
      let Q' := fresh "Q" in
      rewrite (wait_stop_quiet s d w (proj1 (proj2 Q)) (proj2 (proj2 Q)));
      cbv beta iota;
      assert (Q' : quiet s (emit (EvWait d false) (set_now (now w + Z.max d 0) w)))
        by exact Q
  end.

(** Express the trace and the clock of the last world by those of the
    first. *)
Ltac chase_world :=
  repeat (cbn [trace now emit set_now set_trace];
          match goal with
          | H : trace _ = _ |- _ => rewrite H; clear H
          | H : now _ = _ |- _ => rewrite H; clear H
          end);
  cbn [trace now emit set_now set_trace].

Lemma solid_effect_quiet color d stop w :
  quiet stop w ->
  exists w',
    solid_effect color d stop w = (Finished, w') /\
    trace w' = trace w ++ [EvSetColor color; EvWait d false; EvSetColor ColorOff] /\
    now w' = now w + Z.max d 0.
Proof.
  intros Q. unfold solid_effect, bind, ret. cbv beta.
  q_set. q_wait. q_set.
  eexists. split; [reflexivity |].
  chase_world.
  cbn. rewrite <- !app_assoc. split; reflexivity.
Qed.

Lemma CameraCaptureEffect_quiet stop w :
  quiet stop w ->
  exists w',
    CameraCaptureEffect_body stop w = (Finished, w') /\
    trace w' = trace w ++
      [EvSetColor (mkColor 255 255 255); EvWait (1 * Second) false;
       EvSetColor ColorOff; EvWait (500 * Millisecond) false;
       EvSetColor (mkColor 255 255 255); EvWait (200 * Millisecond) false;
       EvSetColor ColorOff] /\
    now w' = now w + 1700 * Millisecond.
Proof.
  intros Q. unfold CameraCaptureEffect_body, bind, ret. cbv beta.
  q_set. q_wait. q_set. q_wait. q_set. q_wait. q_set.
  eexists. split; [reflexivity |].
  chase_world.
  cbn. rewrite <- !app_assoc. split; [reflexivity |].
  unfold Second, Millisecond. lia.
Qed.

Lemma blink_then_off_quiet color n onDuration offDuration stop w :
  0 < Z.of_nat n <= int64_max -> quiet stop w ->
  exists w',
    then_off (BlinkColor n color (Z.of_nat n) onDuration offDuration stop) w =
      (Finished, w') /\
    trace w' = trace w ++
      concat (repeat (blink_events color onDuration offDuration) n) ++
      [EvSetColor ColorOff] /\
    now w' = now w + Z.of_nat n * (Z.max onDuration 0 + Z.max offDuration 0).
Proof.
  intros Hn Q. unfold then_off, BlinkColor, bind, ret. cbv beta.
  destruct (blink_loop_run n n 0 color (Z.of_nat n) onDuration offDuration stop w
              Hn ltac:(lia) ltac:(lia) ltac:(lia) Q) as (w1 & E & Q1 & T & N).
  rewrite E. cbv beta iota. q_set.
  eexists. split; [reflexivity |].
  chase_world.
  rewrite <- !app_assoc. split; reflexivity.
Qed.

(** X11.  The effects that end by themselves, when nothing interrupts
    them: the connected and camera effects hold their color for 3 s
    (Bluetooth, blue), 3 s (Wi-Fi, green), 2 s (focus, orange) and 1 s
    (save, green) and then turn off; the capture effect shows white 1 s,
    off 0.5 s, white 0.2 s (1.7 s in all); the two "failed" effects blink
    red three times and take 1.8 s.  Each returns with the LED turned
    off. *)
Theorem finite_effects_timing (stop : nat) (w : World) :
  quiet stop w ->
  (exists w', BluetoothConnectedEffect_body stop w = (Finished, w') /\
     trace w' = trace w ++
       [EvSetColor ColorBlue; EvWait (3 * Second) false; EvSetColor ColorOff] /\
     now w' = now w + 3 * Second) /\
  (exists w', WiFiConnectedEffect_body stop w = (Finished, w') /\
     trace w' = trace w ++
       [EvSetColor ColorGreen; EvWait (3 * Second) false; EvSetColor ColorOff] /\
     now w' = now w + 3 * Second) /\
  (exists w', CameraFocusEffect_body stop w = (Finished, w') /\
     trace w' = trace w ++
       [EvSetColor (mkColor 255 128 0); EvWait (2 * Second) false;
        EvSetColor ColorOff] /\
     now w' = now w + 2 * Second) /\
  (exists w', CameraSavePhotoEffect_body stop w = (Finished, w') /\
     trace w' = trace w ++
       [EvSetColor ColorGreen; EvWait (1 * Second) false; EvSetColor ColorOff] /\
     now w' = now w + 1 * Second) /\
  (exists w', CameraCaptureEffect_body stop w = (Finished, w') /\
     now w' = now w + 1700 * Millisecond /\ ends_off w') /\
  (exists w', BluetoothFailedEffect_body 3 stop w = (Finished, w') /\
     now w' = now w + 1800 * Millisecond /\ ends_off w') /\
  (exists w', WiFiFailedEffect_body 3 stop w = (Finished, w') /\
     now w' = now w + 1800 * Millisecond /\ ends_off w').
Proof.
  intros Q.
  assert (H3 : 0 < Z.of_nat 3 <= int64_max) by (unfold int64_max; lia).
  repeat split.
  - apply (solid_effect_quiet ColorBlue (3 * Second) stop w Q).
  - apply (solid_effect_quiet ColorGreen (3 * Second) stop w Q).
  - apply (solid_effect_quiet (mkColor 255 128 0) (2 * Second) stop w Q).
  - apply (solid_effect_quiet ColorGreen (1 * Second) stop w Q).
  - destruct (CameraCaptureEffect_quiet stop w Q) as (w' & E & T & N).
    exists w'. split; [exact E |]. split; [exact N |].
    eexists. rewrite T.
    change (?a ++ [?e1; ?e2; ?e3; ?e4; ?e5; ?e6; ?e7]) with
      (a ++ [e1; e2; e3; e4; e5; e6] ++ [e7]).
    rewrite app_assoc. reflexivity.
  - destruct (blink_then_off_quiet ColorRed 3 (200 * Millisecond)
                (400 * Millisecond) stop w H3 Q) as (w' & E & T & N).
    exists w'. split; [exact E |]. split; [exact N |].
    eexists. rewrite T, app_assoc. reflexivity.
  - destruct (blink_then_off_quiet ColorRed 3 (300 * Millisecond)
                (300 * Millisecond) stop w H3 Q) as (w' & E & T & N).
    exists w'. split; [exact E |]. split; [exact N |].
    eexists. rewrite T, app_assoc. reflexivity.
Qed.

Lemma finite_effects_timing_witness :
  exists w', CameraSavePhotoEffect_body 1 (running_world [] []) = (Finished, w') /\
    trace w' = [EvSetColor ColorGreen; EvWait (1 * Second) false; EvSetColor ColorOff] /\
    now w' = 1 * Second.
Proof.
  assert (Q : quiet 1 (running_world [] [])) by (repeat split; reflexivity).
  exact (proj1 (proj2 (proj2 (proj2
           (finite_effects_timing 1 (running_world [] []) Q))))).
Defined.

Lemma call_loop_quiet stop fuel :
  forall isRed w, quiet stop w ->
  exists w',
    call_loop fuel isRed stop w = (StillRunning, w') /\
    trace w' = trace w ++ call_trace fuel isRed /\
    now w' = now w + Z.of_nat fuel * (400 * Millisecond).
Proof.
  induction fuel as [|fuel IH]; intros isRed w Q.
  - exists w. cbn. rewrite app_nil_r. repeat split. lia.
  - cbn [call_loop]. unfold bind, ret. cbv beta.
    q_set. q_wait. q_set. q_wait.
    match goal with Qn : quiet stop ?wn |- context [call_loop fuel _ stop ?wn] =>
      destruct (IH (negb isRed) wn Qn) as (w' & E & T & N)
    end.
    exists w'. split; [exact E |]. rewrite T, N. chase_world.
    cbn [call_trace]. unfold call_events. rewrite <- !app_assoc.
    split; [reflexivity |]. unfold Millisecond. lia.
Qed.

Lemma charging_complete_loop_quiet stop fuel :
  forall w, quiet stop w ->
  exists w',
    charging_complete_loop fuel stop w = (StillRunning, w') /\
    trace w' = trace w ++ repeat (EvWait (100 * Millisecond) false) fuel /\
    now w' = now w + Z.of_nat fuel * (100 * Millisecond).
Proof.
  induction fuel as [|fuel IH]; intros w Q.
  - exists w. cbn. rewrite app_nil_r. repeat split. lia.
  - cbn [charging_complete_loop]. unfold bind, ret. cbv beta.
    q_wait.
    match goal with Qn : quiet stop ?wn |- context [charging_complete_loop fuel stop ?wn] =>
      destruct (IH wn Qn) as (w' & E & T & N)
    end.
    exists w'. split; [exact E |]. rewrite T, N. chase_world.
    cbn [repeat]. rewrite <- !app_assoc.
    split; [reflexivity |]. unfold Millisecond. lia.
Qed.

Lemma pulse_then_off_running color pulseDuration stop fuel w :
  pulse_in_range color pulseDuration = true ->
  quiet stop w -> writes_succeed w ->
  exists w',
    then_off (PulseColor fuel color 0 pulseDuration stop) w = (StillRunning, w') /\
    now w' = now w + Z.of_nat fuel *
      (2 * ((fst (fade_plan (Z.quot pulseDuration 2)) + 1) *
            Z.max (snd (fade_plan (Z.quot pulseDuration 2))) 0)).
Proof.
  intros Hr Q S.
  destruct (pulse_loop_forever color pulseDuration stop fuel 0 w Q S (fun _ => Hr))
    as (w' & E & _ & _ & _ & N).
  exists w'. unfold then_off, PulseColor, bind, ret. rewrite E. auto.
Qed.

(** X12.  The effects that repeat until stopped never end by themselves:
    uninterrupted, each is still running after any number of rounds.  The
    call notification alternates red and blue, starting with red, 200 ms
    on and 200 ms off; charging-complete sets blue once and then only
    polls every 100 ms; Bluetooth-connecting blinks in rounds of 800 ms;
    and, provided no write can fail, the breathing effects
    (notification, low and high battery: cycles of 2.04 s; Wi-Fi
    connecting: cycles of 2.54032254 s) keep pulsing. *)
Theorem unbounded_effects_keep_running (fuel : nat) (stop : nat) (w : World) :
  quiet stop w ->
  (exists w', CallNotificationEffect_body fuel stop w = (StillRunning, w') /\
     trace w' = trace w ++ call_trace fuel true /\
     now w' = now w + Z.of_nat fuel * (400 * Millisecond)) /\
  (exists w', ChargingCompleteEffect_body fuel stop w = (StillRunning, w') /\
     trace w' = trace w ++
       EvSetColor ColorBlue :: repeat (EvWait (100 * Millisecond) false) fuel /\
     now w' = now w + Z.of_nat fuel * (100 * Millisecond)) /\
  (exists w', BluetoothConnectingEffect_body fuel stop w = (StillRunning, w') /\
     now w' = now w + Z.of_nat fuel * (800 * Millisecond)) /\
  (writes_succeed w ->
   (exists w', NotificationEffect_body fuel stop w = (StillRunning, w') /\
      now w' = now w + Z.of_nat fuel * (2040 * Millisecond)) /\
   (exists w', ChargingLowBatteryEffect_body fuel stop w = (StillRunning, w') /\
      now w' = now w + Z.of_nat fuel * (2040 * Millisecond)) /\
   (exists w', ChargingHighBatteryEffect_body fuel stop w = (StillRunning, w') /\
      now w' = now w + Z.of_nat fuel * (2040 * Millisecond)) /\
   (exists w', WiFiConnectingEffect_body fuel stop w = (StillRunning, w') /\
      now w' = now w + Z.of_nat fuel * (2540322540 * Nanosecond))).
Proof.
  intros Q. split; [| split; [| split]].
  - apply call_loop_quiet. exact Q.
  - unfold ChargingCompleteEffect_body, bind. q_set.
    match goal with Qn : quiet stop ?wn |- context [charging_complete_loop fuel stop ?wn] =>
      destruct (charging_complete_loop_quiet stop fuel wn Qn) as (w' & E & T & N)
    end.
    exists w'. split; [exact E |]. rewrite T, N. chase_world.
    rewrite <- app_assoc. split; reflexivity.
  - destruct (blink_loop_forever ColorBlue (300 * Millisecond) (500 * Millisecond)
                stop fuel 0 w Q) as (w' & E & _ & _ & N).
    exists w'. unfold BluetoothConnectingEffect_body, then_off, BlinkColor, bind, ret.
    rewrite E. split; [reflexivity |]. rewrite N. unfold Millisecond. lia.
  - intros S.
    assert (G : pulse_in_range ColorGreen (2 * Second) = true)
      by (vm_compute; reflexivity).
    assert (R : pulse_in_range ColorRed (2 * Second) = true)
      by (vm_compute; reflexivity).
    assert (G' : pulse_in_range ColorGreen (2 * Second + 500 * Millisecond) = true)
      by (vm_compute; reflexivity).
    split; [| split; [| split]].
    + apply (pulse_then_off_running ColorGreen (2 * Second) stop fuel w G Q S).
    + apply (pulse_then_off_running ColorRed (2 * Second) stop fuel w R Q S).
    + apply (pulse_then_off_running ColorGreen (2 * Second) stop fuel w G Q S).
    + apply (pulse_then_off_running ColorGreen (2 * Second + 500 * Millisecond)
               stop fuel w G' Q S).
Qed.

Lemma unbounded_effects_keep_running_witness :
  exists w', CallNotificationEffect_body 2 1 (running_world [] []) = (StillRunning, w') /\
    trace w' = call_events true ++ call_events false /\
    now w' = 800 * Millisecond.
Proof.
  assert (Q : quiet 1 (running_world [] [])) by (repeat split; reflexivity).
  exact (proj1 (unbounded_effects_keep_running 2 1 (running_world [] []) Q)).
Defined.

(** ** A started effect and its own stop signal *)

(** The listener's forwarding, scheduled before the timer fires, ends a
    wait on the local channel at the instant it happens. *)
Lemma wait_stop_forwarded local d w tau rest c b cap :
  local <> stopChan w ->
  chans w !! stopChan w = Some (mkChan c (S b)) ->
  chans w !! local = Some (mkChan (S cap) 0) ->
  env w = (tau, AForward local) :: rest -> tau < now w + d ->
  exists w',
    wait_stop local d w = (true, w') /\
    now w' = Z.max (now w) tau /\
    trace w' = trace w ++ [EvWait d true] /\
    chans w' !! stopChan w = Some (mkChan c b).
Proof.
  intros Hne Hs Hl He Ht.
  destruct w as [sc ea ty le cs0 ts ws o n0 ev tr]. cbn in Hne, Hs, Hl, He, Ht.
  subst ev.
  assert (Ls : (sc < length cs0)%nat) by (eapply lookup_lt_Some; eauto).
  assert (Ll : (local < length cs0)%nat) by (eapply lookup_lt_Some; eauto).
  unfold wait_stop. norm_world. cbn [await].
  assert (R0 : chan_ready local (mkWorld sc ea ty le cs0 ts ws o n0
                                   ((tau, AForward local) :: rest) tr) = false).
  { unfold chan_ready. norm_world. rewrite Hl. reflexivity. }
  rewrite R0. destruct (Z.ltb_spec tau (n0 + d)) as [_ | ?]; [| lia].
  cbn [run_action]. unfold listener_forward, try_recv, try_send, bind, ret, gets.
  norm_world. rewrite Hs. cbn [ch_buf ch_cap]. norm_world.
  rewrite list_lookup_insert_ne by congruence. rewrite Hl.
  cbn [ch_buf ch_cap]. change (Nat.ltb 0 (S cap)) with true. norm_world.
  set (cs1 := <[local := mkChan (S cap) 1]> (<[sc := mkChan c b]> cs0)).
  assert (L1 : cs1 !! local = Some (mkChan (S cap) 1)).
  { subst cs1. apply list_lookup_insert_eq. rewrite length_insert. exact Ll. }
  assert (Ready : forall ev', chan_ready local
            (mkWorld sc ea ty le cs1 ts ws o (Z.max n0 tau) ev' tr) = true).
  { intros ev'. unfold chan_ready. norm_world. rewrite L1. reflexivity. }
  assert (A : await local (n0 + d) rest
                (mkWorld sc ea ty le cs1 ts ws o (Z.max n0 tau) rest tr) =
              (true, mkWorld sc ea ty le cs1 ts ws o (Z.max n0 tau) rest tr)).
  { destruct rest as [|[t' a'] rest']; cbn [await]; rewrite Ready; reflexivity. }
  rewrite A. unfold try_recv. norm_world. rewrite L1. cbn [ch_buf ch_cap].
  norm_world. eexists. split; [reflexivity |]. norm_world.
  split; [reflexivity |]. split; [reflexivity |].
  rewrite list_lookup_insert_ne by congruence.
  subst cs1. rewrite list_lookup_insert_ne by congruence.
  apply list_lookup_insert_eq. exact Ls.
Qed.

(** The world after [StartEffect] on an idle scheduler and the prologue of
    the goroutine it launched. *)
Lemma started_world k w :
  ledEnabled w = true -> effectActive w = false -> recognized k ->
  exists f,
    snd (runTimedEffect_enter k (snd (StartEffect k w))) =
    mkWorld (length (chans w)) true k true (chans w ++ [mkChan 1 1])
            (tasks w ++ [mkTask f (length (chans w))]) (writes w) (io w)
            (now w + 50 * Millisecond) (env w) (trace w).
Proof.
  intros He Ha Hr.
  destruct (StartEffect_enabled k w He) as (cs & n & Hcs & E).
  rewrite Ha in Hcs. injection Hcs as -> ->.
  apply dispatch_recognized in Hr.
  destruct (dispatch k) as [f|] eqn:Ed; [| congruence].
  exists f. rewrite E. cbn [snd].
  generalize (tasks w ++ [mkTask f (length (chans w))]) (writes w) (io w)
             (env w) (trace w) (now w) (chans w).
  intros ts ws o ev tr n0 cs.
  unfold runTimedEffect_enter, signal_stop, try_send. unfold_m.
  cbn [effectActive stopChan chans].
  rewrite lookup_app_r, Nat.sub_diag by lia. cbn [lookup list_lookup ch_buf ch_cap].
  change (Nat.ltb 0 1) with true. cbv beta iota. norm_world.
  rewrite insert_app_r_alt, Nat.sub_diag by lia.
  change (Z.max (50 * Millisecond) 0) with (50 * Millisecond). reflexivity.
Qed.

(** X13.  An effect started through [StartEffect] on an idle scheduler is
    stopped by its own prologue's signal: as soon as the listener of its
    goroutine runs (at [tau], before the hold time is over), the signal
    reaches the local stop channel and a solid-color effect, meant to hold
    its color for [d], turns off and returns at once; the goroutine ends
    50 ms later, leaving the scheduler idle. *)
Theorem started_effect_stopped_by_own_signal (effectType : Z) (color : Color)
    (d tau : Z) (rest : list (Z * Action)) (t : Task) (w : World) :
  ledEnabled w = true -> effectActive w = false -> recognized effectType ->
  env w = (tau, AForward (S (length (chans w)))) :: rest ->
  tau < now w + 50 * Millisecond + d ->
  let w2 := snd (runTimedEffect_enter effectType (snd (StartEffect effectType w))) in
  exists w',
    runTimedEffect_goroutine (solid_effect color d) t w2 = (Finished, w') /\
    trace w' = trace w ++
      [EvSetColor color; EvWait d true; EvSetColor ColorOff; EvSetColor ColorOff] /\
    now w' = Z.max (now w + 50 * Millisecond) tau + 50 * Millisecond /\
    effectActive w' = false /\ fst (GetCurrentEffect w') = EFFECT_NONE.
Proof.
  intros He Ha Hr Hev Ht. cbn zeta.
  destruct (started_world effectType w He Ha Hr) as (f & ->).
  rewrite Hev.
  generalize (tasks w ++ [mkTask f (length (chans w))]) (writes w) (io w)
             (trace w) (now w) (chans w) Ht.
  clear. intros ts ws o tr n0 cs Ht.
  unfold runTimedEffect_goroutine, make_chan, solid_effect, bind, ret.
  norm_world.
  match goal with |- context [setColor color ?W] =>
    destruct (setColor_frame color W) as (ws1 & o1 & E1);
    destruct (setColor color W) as [r1 w1]; cbn [snd] in E1; subst w1
  end.
  norm_world.
  match goal with |- context [wait_stop ?l d ?W] =>
    destruct (wait_stop_forwarded l d W tau rest 1 0 4) as (w4 & E4 & N4 & T4 & _)
  end.
  { norm_world. rewrite length_app. cbn. lia. }
  { norm_world. rewrite lookup_app_l by (rewrite length_app; cbn; lia).
    rewrite lookup_app_r, Nat.sub_diag by lia. reflexivity. }
  { norm_world. rewrite length_app. cbn [length].
    replace (S (length cs)) with (length cs + 1)%nat by lia.
    rewrite lookup_app_r by (rewrite length_app; cbn; lia).
    rewrite length_app. cbn [length]. rewrite Nat.sub_diag. reflexivity. }
  { norm_world. rewrite length_app. cbn [length].
    replace (length cs + 1)%nat with (S (length cs)) by lia. reflexivity. }
  { norm_world. exact Ht. }
  rewrite length_app in E4. cbn [length] in E4.
  replace (length cs + 1)%nat with (S (length cs)) in E4 by lia.
  rewrite length_app. cbn [length].
  replace (length cs + 1)%nat with (S (length cs)) by lia.
  rewrite E4. cbv beta iota.
  pose proof (setColor_obs ColorOff w4) as O5. cbn zeta in O5.
  destruct (setColor ColorOff w4) as [r5 w5]. cbn [snd] in O5.
  destruct O5 as (_ & _ & _ & N5 & _ & T5). cbv beta iota.
  unfold runTimedEffect_finish, Sleep, bind, ret, modify.
  pose proof (setColor_obs ColorOff w5) as O6. cbn zeta in O6.
  destruct (setColor ColorOff w5) as [r6 w6]. cbn [snd] in O6.
  destruct O6 as (_ & _ & _ & N6 & _ & T6). cbv beta iota.
  eexists. split; [reflexivity |].
  unfold IsEffectActive, GetCurrentEffect, bind, ret, gets.
  cbn [trace now effectActive currentEffectType set_currentEffectType
       set_effectActive set_now fst negb].
  rewrite T6, T5, T4, N6, N5, N4. norm_world.
  rewrite <- !app_assoc.
  change (Z.max (50 * Millisecond) 0) with (50 * Millisecond).
  repeat split; reflexivity.
Qed.

Lemma started_effect_stopped_by_own_signal_witness :
  exists w',
    runTimedEffect_goroutine (solid_effect ColorBlue (3 * Second))
      (mkTask BluetoothConnectedEffect 1)
      (snd (runTimedEffect_enter EFFECT_BLUETOOTH_CONNECTED
              (snd (StartEffect EFFECT_BLUETOOTH_CONNECTED
                      (set_env [(60 * Millisecond, AForward 2)] init_world)))))
    = (Finished, w') /\
    trace w' =
      [EvSetColor ColorBlue; EvWait (3 * Second) true; EvSetColor ColorOff;
       EvSetColor ColorOff] /\
    now w' = 110 * Millisecond.
Proof.
  assert (R : recognized EFFECT_BLUETOOTH_CONNECTED)
    by (apply recognized_range; unfold EFFECT_BLUETOOTH_CONNECTED; lia).
  destruct (started_effect_stopped_by_own_signal EFFECT_BLUETOOTH_CONNECTED
              ColorBlue (3 * Second) (60 * Millisecond) []
              (mkTask BluetoothConnectedEffect 1)
              (set_env [(60 * Millisecond, AForward 2)] init_world)
              eq_refl eq_refl R eq_refl ltac:(vm_compute; reflexivity))
    as (w' & E & T & N & _).
  exists w'. split; [exact E |]. split; [exact T | exact N].
Defined.

(** ** Invariants of the scheduler *)

Lemma StartEffect_tokens_ok k w : wf w -> tokens_ok w -> tokens_ok (snd (StartEffect k w)).
Proof.
  intros [Hs Hc] [Hn Hf]. destruct (ledEnabled w) eqn:He.
  - destruct (StartEffect_enabled k w He) as (cs & n & Hcs & ->).
    assert (Hl : length cs = length (chans w)).
    { destruct (effectActive w); injection Hcs as -> _;
        [apply try_send_length | reflexivity]. }
    assert (Hf' : Forall (fun t => (1 <= t_token t <= length cs)%nat) (tasks w)).
    { eapply Forall_impl; [exact Hf |]. cbn. intros t Ht. lia. }
    destruct (dispatch k) as [f|]; unfold tokens_ok; cbn [snd tasks stopChan].
    + split.
      * rewrite map_app. cbn [map t_token]. apply NoDup_app. split; [exact Hn |].
        split; [| apply NoDup_singleton].
        intros x Hx Hx'. apply list_elem_of_singleton in Hx'. subst x.
        apply list_elem_of_fmap in Hx as (t & Et & Hin).
        rewrite Forall_forall in Hf. specialize (Hf t Hin). lia.
      * apply Forall_app. split; [exact Hf' |].
        repeat constructor; cbn; lia.
    + split; [exact Hn | exact Hf'].
  - rewrite StartEffect_disabled by exact He. split; assumption.
Qed.

Lemma run_action_tokens_ok a w :
  wf w -> tokens_ok w -> tokens_ok (snd (run_action a w)).
Proof.
  intros Hw Ht. destruct a as [k| |b|k|t|local|ch]; cbn [run_action].
  - unfold bind, ret. pose proof (StartEffect_tokens_ok k w Hw Ht) as H.
    destruct (StartEffect k w). exact H.
  - pose proof (StopCurrentEffect_frame w) as F. cbn zeta in F.
    destruct F as (_ & _ & _ & _ & Fs & Ft & _).
    unfold tokens_ok. rewrite Fs, Ft. exact Ht.
  - unfold_m. destruct (ledEnabled w), b; exact Ht.
  - unfold runTimedEffect_enter, signal_stop. unfold_m.
    destruct (effectActive w).
    + destruct (try_send (stopChan w) w) as [b w1] eqn:E.
      apply try_send_inv in E as [cs ->]. exact Ht.
    + exact Ht.
  - unfold runTimedEffect_finish. unfold_m.
    destruct (setColor_frame ColorOff w) as (ws & o & E).
    destruct (setColor ColorOff w) as [r w1]. cbn in E. subst w1. exact Ht.
  - unfold listener_forward. unfold_m.
    destruct (try_recv (stopChan w) w) as [[] w1] eqn:E;
      apply try_recv_inv in E as [cs ->]; [| exact Ht].
    destruct (try_send local (set_chans cs w)) as [b w2] eqn:E2.
    apply try_send_inv in E2 as [cs2 ->]. exact Ht.
  - unfold bind, ret. destruct (try_send ch w) as [b w1] eqn:E.
    apply try_send_inv in E as [cs ->]. exact Ht.
Qed.

(** X15.  [FadeColor] always returns, whatever the other goroutines do
    and whatever the hardware answers: its two loops are bounded by the
    step plan, and each timed wait it makes asks for at most 10 ms. *)
Theorem FadeColor_terminates_short_waits (from to : Color) (duration : Z)
    (stop : nat) (w : World) :
  (exists r, fst (FadeColor from to duration stop w) = Done r) /\
  extends_short w (snd (FadeColor from to duration stop w)).
Proof. apply FadeColor_returns. Qed.

(** ** Direct writes *)

(** [setColor] of an in-range color when every write succeeds. *)
Lemma setColor_all_ok c w :
  ledEnabled w = true -> ~ invalid_color c -> io w = [] ->
  fst (setColor c w) = None /\
  writes (snd (setColor c w)) =
    writes w ++ [mkWrite RedLEDPath (Red c) true;
                 mkWrite GreenLEDPath (Green c) true;
                 mkWrite BlueLEDPath (Blue c) true] /\
  (brightness RedLEDPath (writes (snd (setColor c w))) = Some (Red c) /\
   brightness GreenLEDPath (writes (snd (setColor c w))) = Some (Green c) /\
   brightness BlueLEDPath (writes (snd (setColor c w))) = Some (Blue c)).
Proof.
  intros He Hc Hio.
  assert (Hr : out_of_range c = false).
  { destruct (out_of_range c) eqn:E; [| reflexivity].
    apply out_of_range_spec in E. contradiction. }
  assert (Hv : clamp (Red c) = Red c /\ clamp (Green c) = Green c /\
               clamp (Blue c) = Blue c).
  { unfold invalid_color in Hc. repeat split; apply clamp_id; lia. }
  destruct Hv as (Vr & Vg & Vb).
  destruct w as [sc ea ty le cs0 ts ws o n0 ev tr]. cbn in He, Hio. subst le o.
  unfold setColor, setRed, setGreen, setBlue. unfold_m.
  cbn -[out_of_range clamp]. rewrite Hr. cbn -[clamp]. rewrite Vr, Vg, Vb.
  rewrite <- !app_assoc. cbn [app].
  repeat split; rewrite brightness_app; reflexivity.
Qed.

(** X16.  The direct entry points stop, then set: on an enabled controller
    with working hardware, [SetRGB] of an in-range color returns [nil] and
    leaves the three files holding exactly that color, and [TurnOffLED]
    leaves them at 0.  Both reset [currentEffectType]; if an effect was
    active they leave a stop signal pending for it but do not clear
    [effectActive]. *)
Theorem direct_set_stops_then_sets (red green blue : Z) (w : World) :
  wf w -> ledEnabled w = true -> io w = [] ->
  ~ invalid_color (mkColor red green blue) ->
  let w' := snd (SetRGB red green blue w) in
  let w0 := snd (TurnOffLED w) in
  fst (SetRGB red green blue w) = None /\
  brightness RedLEDPath (writes w') = Some red /\
  brightness GreenLEDPath (writes w') = Some green /\
  brightness BlueLEDPath (writes w') = Some blue /\
  fst (TurnOffLED w) = None /\
  (forall p, brightness p (writes w0) = Some 0) /\
  effectActive w' = effectActive w /\ effectActive w0 = effectActive w /\
  fst (GetCurrentEffect w') = EFFECT_NONE /\
  fst (GetCurrentEffect w0) = EFFECT_NONE /\
  (effectActive w = true ->
   chan_ready (stopChan w) w' = true /\ chan_ready (stopChan w) w0 = true).
Proof.
  intros Hw He Hio Hc. cbn zeta.
  assert (H0 : ~ invalid_color ColorOff) by (unfold invalid_color; cbn; lia).
  unfold SetRGB, TurnOffLED, bind.
  pose proof (StopCurrentEffect_frame w) as F. cbn zeta in F.
  destruct F as (Fe & Fw & Fio & Fa & Fs & _ & _ & _ & _ & Ft).
  assert (Hready : effectActive w = true ->
                   chan_ready (stopChan w) (snd (StopCurrentEffect w)) = true).
  { intros Ha. destruct Hw as [Hs Hcs].
    destruct (lookup_lt_is_Some_2 _ _ Hs) as [c El].
    pose proof (Forall_lookup_1 _ _ _ _ Hcs El) as [H1 H2].
    unfold StopCurrentEffect, signal_stop, bind, ret, gets, modify.
    rewrite Ha. pose proof (try_send_chans (stopChan w) w) as Ec.
    destruct (try_send (stopChan w) w) as [b w1] eqn:E.
    apply try_send_inv in E as [cs ->]. cbn [snd chans set_chans] in Ec.
    unfold chan_ready. cbn. rewrite Ec, El.
    destruct (Nat.ltb (ch_buf c) (ch_cap c)) eqn:Elt.
    - rewrite list_lookup_insert_eq by exact Hs. reflexivity.
    - apply Nat.ltb_ge in Elt. rewrite El.
      destruct (ch_buf c) eqn:Eb; [lia | reflexivity]. }
  destruct (StopCurrentEffect w) as [[] w1]. cbn [snd] in *.
  destruct (setColor_all_ok (mkColor red green blue) w1) as (R1 & W1 & B1);
    [congruence | exact Hc | congruence |].
  destruct (setColor_all_ok ColorOff w1) as (R0 & W0 & B0);
    [congruence | exact H0 | congruence |].
  destruct (setColor_obs (mkColor red green blue) w1) as (Oc & Oa & _).
  destruct (setColor_obs ColorOff w1) as (Oc0 & Oa0 & _).
  destruct (setColor_frame (mkColor red green blue) w1) as (ws1 & o1 & E1).
  destruct (setColor_frame ColorOff w1) as (ws0 & o0 & E0).
  destruct B1 as (B1r & B1g & B1b). destruct B0 as (B0r & B0g & B0b).
  split; [exact R1 |]. split; [exact B1r |]. split; [exact B1g |].
  split; [exact B1b |]. split; [exact R0 |].
  split; [intros p; destruct p; assumption |].
  split; [congruence |]. split; [congruence |].
  assert (G : forall W, currentEffectType W = EFFECT_NONE ->
                        fst (GetCurrentEffect W) = EFFECT_NONE).
  { intros W HW. unfold GetCurrentEffect, bind, ret, gets. cbv beta iota.
    destruct (effectActive W); cbn [negb fst]; [exact HW | reflexivity]. }
  split; [apply G; rewrite E1; exact Ft |].
  split; [apply G; rewrite E0; exact Ft |].
  intros Ha. specialize (Hready Ha). unfold chan_ready in *.
  rewrite Oc, Oc0. auto.
Qed.

Lemma direct_set_stops_then_sets_witness :
  brightness RedLEDPath (writes (snd (SetRGB 10 20 30 two_started))) = Some 10 /\
  chan_ready (stopChan two_started) (snd (SetRGB 10 20 30 two_started)) = true.
Proof.
  assert (W : wf two_started).
  { split; [vm_compute; lia | vm_compute; repeat constructor]. }
  assert (V : ~ invalid_color (mkColor 10 20 30))
    by (unfold invalid_color; cbn; lia).
  pose proof (direct_set_stops_then_sets 10 20 30 two_started W eq_refl eq_refl V)
    as (_ & H2 & _ & _ & _ & _ & _ & _ & _ & _ & H11).
  split; [exact H2 | exact (proj1 (H11 eq_refl))].
Defined.

(** ** Waits that a signal ends *)

(** The world after a wait that a signal sent at [tau] has ended: the
    signal was received, so the channel is as before. *)
Lemma wait_stop_signalled_world stop d w tau rest cap :
  chans w !! stop = Some (mkChan (S cap) 0) ->
  env w = (tau, ASend stop) :: rest -> now w <= tau < now w + d ->
  wait_stop stop d w =
  (true, emit (EvWait d true) (set_env rest (set_now tau w))).
Proof.
  intros Hc He Ht.
  destruct w as [sc ea ty le cs0 ts ws o n0 ev tr]. cbn in Hc, He, Ht. subst ev.
  assert (Hl : (stop < length cs0)%nat) by (eapply lookup_lt_Some; eauto).
  unfold wait_stop. norm_world. cbn [await].
  assert (R0 : chan_ready stop (mkWorld sc ea ty le cs0 ts ws o n0
                                  ((tau, ASend stop) :: rest) tr) = false).
  { unfold chan_ready. norm_world. rewrite Hc. reflexivity. }
  rewrite R0. destruct (Z.ltb_spec tau (n0 + d)) as [_ | ?]; [| lia].
  cbn [run_action]. unfold try_send, bind, ret. norm_world. rewrite Hc.
  cbn [ch_buf ch_cap]. change (Nat.ltb 0 (S cap)) with true. norm_world.
  set (cs1 := <[stop := mkChan (S cap) 1]> cs0).
  assert (L1 : cs1 !! stop = Some (mkChan (S cap) 1))
    by (subst cs1; apply list_lookup_insert_eq; exact Hl).
  assert (Ready : chan_ready stop
            (mkWorld sc ea ty le cs1 ts ws o (Z.max n0 tau) rest tr) = true).
  { unfold chan_ready. norm_world. rewrite L1. reflexivity. }
  assert (A : await stop (n0 + d) rest
                (mkWorld sc ea ty le cs1 ts ws o (Z.max n0 tau) rest tr) =
              (true, mkWorld sc ea ty le cs1 ts ws o (Z.max n0 tau) rest tr)).
  { destruct rest as [|[t' a'] rest']; cbn [await]; rewrite Ready; reflexivity. }
  rewrite A. unfold try_recv. norm_world. rewrite L1. cbn [ch_buf ch_cap].
  norm_world. subst cs1. rewrite list_insert_insert_eq.
  rewrite (list_insert_id cs0 stop _ Hc).
  replace (Z.max n0 tau) with tau by lia. reflexivity.
Qed.

Lemma setColor_none c w :
  writes_succeed w -> (ledEnabled w = true -> out_of_range c = false) ->
  fst (setColor c w) = None /\ writes_succeed (snd (setColor c w)).
Proof.
  intros Hs Hr.
  destruct w as [sc ea ty le cs0 ts ws o n0 ev tr].
  unfold writes_succeed in *. cbn in Hs, Hr.
  destruct le.
  - destruct Hs as [? | ->]; [discriminate |].
    unfold setColor, setRed, setGreen, setBlue. unfold_m.
    cbn -[out_of_range clamp]. rewrite (Hr eq_refl).
    split; [reflexivity | right; reflexivity].
  - rewrite setColor_disabled by reflexivity.
    split; [reflexivity | left; reflexivity].
Qed.

(** ** Completion of one effect and the primitives of another *)

(** X18.  Once any effect goroutine has run its tail, [effectActive] is
    false for everybody: a primitive that is entered afterwards (and
    likewise one that reaches its next check), on whatever stop channel
    and for whatever effect, calls [setColor(ColorOff)] and returns [nil]
    without running a step, although nothing was sent on its stop
    channel.  So the late completion of a preempted effect also ends the
    effect that replaced it. *)
Theorem finished_effect_stops_other_primitives (fuel : nat) (t : Task)
    (from to color : Color) (duration count onDuration offDuration : Z)
    (stop : nat) (w : World) :
  chan_ready stop w = false ->
  let w1 := snd (runTimedEffect_finish t w) in
  let w' := snd (setColor ColorOff (emit (EvPoll false) w1)) in
  effectActive w1 = false /\
  FadeColor from to duration stop w1 = (Done None, w') /\
  (count = 0 \/ 0 < count ->
   PulseColor (S fuel) color count duration stop w1 = (Done None, w') /\
   BlinkColor (S fuel) color count onDuration offDuration stop w1 = (Done None, w')) /\
  trace w' = trace w1 ++ [EvPoll false; EvSetColor ColorOff] /\
  now w' = now w1.
Proof.
  intros Hr. cbn zeta.
  assert (F : effectActive (snd (runTimedEffect_finish t w)) = false /\
              chan_ready stop (snd (runTimedEffect_finish t w)) = false).
  { unfold runTimedEffect_finish. unfold_m.
    destruct (setColor_frame ColorOff w) as (ws & o & E).
    destruct (setColor ColorOff w) as [r w1]. cbn in E. subst w1.
    split; [reflexivity | exact Hr]. }
  destruct F as [Fa Fr].
  set (w1 := snd (runTimedEffect_finish t w)) in *.
  split; [exact Fa |]. split; [| split].
  - unfold FadeColor.
    pose proof (fade_plan_bounds duration) as (_ & Hs & _).
    destruct (fade_plan duration) as [steps sd]. cbn [fst] in Hs.
    destruct (Z.to_nat (steps + 1)) as [|f] eqn:Ef; [lia |].
    cbn [fade_loop]. destruct (Z.leb_spec 0 steps) as [_ | ?]; [| lia].
    unfold bind, gets, ret. rewrite poll_stop_not_ready by exact Fr.
    cbv beta iota. change (effectActive (emit (EvPoll false) w1)) with (effectActive w1).
    rewrite Fa. cbn [negb].
    destruct (setColor ColorOff _) as [r1 w2]. reflexivity.
  - intros Hc.
    assert (Hcond : (count =? 0) || (0 <? count) = true).
    { apply orb_true_iff. rewrite Z.eqb_eq, Z.ltb_lt. exact Hc. }
    split.
    + unfold PulseColor. cbn [pulse_loop]. rewrite Hcond.
      unfold bind, gets, ret. rewrite poll_stop_not_ready by exact Fr.
      cbv beta iota.
      change (effectActive (emit (EvPoll false) w1)) with (effectActive w1).
      rewrite Fa. cbn [negb].
      destruct (setColor ColorOff _) as [r1 w2]. reflexivity.
    + unfold BlinkColor. cbn [blink_loop]. rewrite Hcond.
      unfold bind, gets, ret. rewrite poll_stop_not_ready by exact Fr.
      cbv beta iota.
      change (effectActive (emit (EvPoll false) w1)) with (effectActive w1).
      rewrite Fa. cbn [negb].
      destruct (setColor ColorOff _) as [r1 w2]. reflexivity.
  - destruct (setColor_obs ColorOff (emit (EvPoll false) w1))
      as (_ & _ & _ & On & _ & Ot).
    rewrite Ot, On. cbn. rewrite <- app_assoc. split; reflexivity.
Qed.

Lemma finished_effect_stops_other_primitives_witness :
  effectActive (snd (runTimedEffect_finish first_task
                       (snd (make_chan 5 two_started)))) = false /\
  fst (FadeColor ColorOff ColorGreen (1 * Second) 3
         (snd (runTimedEffect_finish first_task
                 (snd (make_chan 5 two_started))))) = Done None.
Proof.
  pose proof (finished_effect_stops_other_primitives 0 first_task ColorOff
                ColorGreen ColorGreen (1 * Second) 0 0 0 3
                (snd (make_chan 5 two_started)) eq_refl)
    as (H1 & H2 & _).
  split; [exact H1 |]. rewrite H2. reflexivity.
Defined.

(** * Failures, cancellation and reachable states *)

(** ** A write that fails, on any channel, in any fade *)

(** What [setColor] returns when the gate is open and the color within
    range: the error of the first of its three writes that fails. *)
Lemma setColor_result c w :
  ledEnabled w = true -> out_of_range c = false ->
  fst (setColor c w) =
  match first_failure (io w) with
  | Some p => Some (write_error p)
  | None => None
  end.
Proof.
  intros He Hr. destruct w as [sc ea ty le cs0 ts ws o n0 ev tr].
  cbn in He. subst le.
  unfold setColor, setRed, setGreen, setBlue. unfold_m.
  cbn -[out_of_range clamp first_failure]. rewrite Hr.
  destruct o as [|[] [|[] [|[] o]]]; reflexivity.
Qed.

(** A [setColor] whose three writes the hardware accepts. *)
Lemma setColor_accepted stop c w n o :
  quiet stop w -> ledEnabled w = true -> out_of_range c = false ->
  accepts (S n) o w ->
  exists w1,
    setColor c w = (None, w1) /\ quiet stop w1 /\ ledEnabled w1 = true /\
    accepts n o w1 /\ now w1 = now w /\ trace w1 = trace w ++ [EvSetColor c].
Proof.
  intros Hq He Hr Ha. destruct w as [sc ea ty le cs0 ts ws io0 n0 ev tr].
  unfold accepts in *. cbn [ledEnabled io] in He, Ha. subst le.
  replace (3 * S n)%nat with (S (S (S (3 * n)))) in Ha by lia.
  cbn [repeat app] in Ha. subst io0.
  unfold setColor, setRed, setGreen, setBlue. unfold_m.
  cbn -[out_of_range clamp Nat.mul]. rewrite Hr.
  eexists. split; [reflexivity |]. split; [exact Hq |]. repeat split.
Qed.

(** [k] steps of a fade that nothing interrupts and whose writes the
    hardware accepts. *)
Lemma fade_loop_accepted steps stepDuration from to stop o m k :
  forall fuel step w,
  0 <= step -> step + Z.of_nat k <= steps + 1 ->
  quiet stop w -> ledEnabled w = true ->
  fade_in_range from to steps = true -> accepts (k + m) o w ->
  exists w',
    fade_loop (k + fuel) step steps stepDuration from to stop w =
    fade_loop fuel (step + Z.of_nat k) steps stepDuration from to stop w' /\
    quiet stop w' /\ ledEnabled w' = true /\ accepts m o w' /\
    now w' = now w + Z.of_nat k * Z.max stepDuration 0 /\
    setColor_calls (trace w') = (setColor_calls (trace w) + k)%nat.
Proof.
  induction k as [|k IH]; intros fuel step w H0 Hk Hq He Hr Ha.
  - exists w. rewrite Z.add_0_r. cbn [Nat.add] in *.
    repeat split; try assumption; try apply Hq; lia.
  - cbn [Nat.add fade_loop].
    destruct (Z.leb_spec step steps) as [Hle | ?]; [| lia].
    unfold bind, gets, ret. cbv beta.
    rewrite poll_stop_not_ready by apply Hq. cbv beta iota.
    set (w0 := emit (EvPoll false) w).
    assert (Q0 : quiet stop w0) by exact Hq.
    rewrite (proj1 Q0). cbn [negb].
    destruct (setColor_accepted stop (fade_color from to step steps) w0 (k + m) o
                Q0 He (fade_in_range_step from to steps step Hr ltac:(lia)) Ha)
      as (w1 & E1 & Q1 & L1 & A1 & N1 & T1).
    rewrite E1. cbv beta iota.
    destruct (fade_sleep_quiet_world stop _ _ w1
                (sleep_fuel_enough stepDuration) Q1) as (tr & E2 & C2).
    rewrite E2. cbv beta iota.
    set (w2 := set_trace (trace w1 ++ tr)
                 (set_now (now w1 + Z.max stepDuration 0) w1)).
    destruct (IH fuel (step + 1) w2 ltac:(lia) ltac:(lia) Q1 L1 Hr A1)
      as (w' & E & Q & L & A & N & C).
    exists w'. rewrite E.
    replace (step + 1 + Z.of_nat k) with (step + Z.of_nat (S k)) by lia.
    split; [reflexivity |]. split; [exact Q |]. split; [exact L |].
    split; [exact A |]. split.
    + rewrite N. subst w2. unfold set_trace, set_now. cbn [now].
      rewrite N1. subst w0. unfold emit. cbn [now]. lia.
    + rewrite C. subst w2. unfold set_trace, set_now. cbn [trace].
      rewrite setColor_calls_app, C2, T1, setColor_calls_app.
      subst w0. unfold emit. cbn [trace]. rewrite setColor_calls_app.
      cbn. lia.
Qed.

(** At any iteration of the fade loop: when one of the three writes of
    the step's color fails, the loop attempts [setColor(ColorOff)] and
    returns the error of that write; it neither waits nor runs another
    step. *)
Lemma fade_loop_fails fuel step steps stepDuration from to stop w p :
  step <= steps ->
  ledEnabled w = true -> effectActive w = true -> chan_ready stop w = false ->
  out_of_range (fade_color from to step steps) = false ->
  first_failure (io w) = Some p ->
  exists w',
    fade_loop (S fuel) step steps stepDuration from to stop w =
      (Return (Some (write_error p)), w') /\
    trace w' = trace w ++
      [EvPoll false; EvSetColor (fade_color from to step steps);
       EvSetColor ColorOff] /\
    now w' = now w /\ effectActive w' = true /\ chans w' = chans w /\
    env w' = env w /\ ledEnabled w' = true.
Proof.
  intros Hs He Ha Hr Hc Hio.
  cbn [fade_loop]. destruct (Z.leb_spec step steps) as [_ | ?]; [| lia].
  unfold bind, gets, ret. cbv beta.
  rewrite poll_stop_not_ready by exact Hr. cbv beta iota.
  set (w0 := emit (EvPoll false) w).
  change (effectActive w0) with (effectActive w). rewrite Ha. cbn [negb].
  pose proof (setColor_result (fade_color from to step steps) w0 He Hc) as R.
  change (io w0) with (io w) in R. rewrite Hio in R.
  pose proof (setColor_obs (fade_color from to step steps) w0) as O1.
  cbn zeta in O1.
  destruct (setColor (fade_color from to step steps) w0) as [r1 w1].
  cbn [fst snd] in R, O1. subst r1. cbv beta iota.
  pose proof (setColor_obs ColorOff w1) as O2. cbn zeta in O2.
  destruct (setColor ColorOff w1) as [r2 w2]. cbn [snd] in O2.
  destruct O1 as (C1 & A1 & V1 & N1 & L1 & T1).
  destruct O2 as (C2 & A2 & V2 & N2 & L2 & T2).
  exists w2. split; [reflexivity |].
  rewrite T2, T1, N2, N1, A2, A1, C2, C1, V2, V1, L2, L1.
  subst w0. cbn. rewrite <- !app_assoc. cbn.
  repeat split; try reflexivity; assumption.
Qed.

(** A whole fade that nothing interrupts: [k] steps go well, then a write
    fails. *)
Lemma FadeColor_fails from to duration stop w k o p :
  quiet stop w -> ledEnabled w = true ->
  fade_in_range from to (fst (fade_plan duration)) = true ->
  Z.of_nat k <= fst (fade_plan duration) ->
  accepts k o w -> first_failure o = Some p ->
  exists w',
    FadeColor from to duration stop w = (Done (Some (write_error p)), w') /\
    now w' = now w + Z.of_nat k * Z.max (snd (fade_plan duration)) 0 /\
    setColor_calls (trace w') = (setColor_calls (trace w) + k + 2)%nat /\
    ends_off w' /\ quiet stop w' /\ ledEnabled w' = true.
Proof.
  intros Hq He Hr Hk Ha Hp. unfold FadeColor.
  destruct (fade_plan duration) as [steps sd]. cbn [fst snd] in *.
  assert (Ef : Z.to_nat (steps + 1) = (k + S (Z.to_nat (steps - Z.of_nat k)))%nat)
    by lia.
  rewrite Ef.
  rewrite <- (Nat.add_0_r k) in Ha.
  destruct (fade_loop_accepted steps sd from to stop o 0 k
              (S (Z.to_nat (steps - Z.of_nat k))) 0 w
              ltac:(lia) ltac:(lia) Hq He Hr Ha)
    as (w1 & E1 & Q1 & L1 & A1 & N1 & C1).
  unfold accepts in A1. cbn [Nat.mul repeat app] in A1.
  destruct (fade_loop_fails (Z.to_nat (steps - Z.of_nat k)) (0 + Z.of_nat k)
              steps sd from to stop w1 p ltac:(lia) L1 (proj1 Q1)
              (proj1 (proj2 Q1))
              (fade_in_range_step from to steps (0 + Z.of_nat k) Hr ltac:(lia))
              ltac:(rewrite A1; exact Hp))
    as (w' & E & T & N & A & C & V & L).
  exists w'. unfold bind, ret. rewrite E1, E.
  split; [reflexivity |]. split; [rewrite N, N1; reflexivity |].
  split.
  - rewrite T, setColor_calls_app, C1. cbn. lia.
  - split; [| split; [| exact L]].
    + exists (trace w1 ++
        [EvPoll false; EvSetColor (fade_color from to (0 + Z.of_nat k) steps)]).
      rewrite T, <- app_assoc. reflexivity.
    + destruct Q1 as (_ & R1 & V1). unfold quiet, chan_ready in *.
      rewrite A, C, V. auto.
Qed.

(** A whole fade that nothing interrupts and whose writes the hardware
    accepts. *)
Lemma FadeColor_accepted from to duration stop w m o :
  quiet stop w -> ledEnabled w = true ->
  fade_in_range from to (fst (fade_plan duration)) = true ->
  accepts (Z.to_nat (fst (fade_plan duration) + 1) + m) o w ->
  exists w',
    FadeColor from to duration stop w = (Done None, w') /\
    quiet stop w' /\ ledEnabled w' = true /\ accepts m o w' /\
    now w' = now w +
      (fst (fade_plan duration) + 1) * Z.max (snd (fade_plan duration)) 0 /\
    setColor_calls (trace w') =
      (setColor_calls (trace w) + Z.to_nat (fst (fade_plan duration) + 1))%nat.
Proof.
  intros Hq He Hr Ha. unfold FadeColor.
  pose proof (fade_plan_bounds duration) as (_ & H50 & _).
  destruct (fade_plan duration) as [steps sd]. cbn [fst snd] in *.
  replace (fade_loop (Z.to_nat (steps + 1)))
    with (fade_loop (Z.to_nat (steps + 1) + 0))
    by (rewrite Nat.add_0_r; reflexivity).
  destruct (fade_loop_accepted steps sd from to stop o m (Z.to_nat (steps + 1))
              0%nat 0 w ltac:(lia) ltac:(lia) Hq He Hr Ha)
    as (w1 & E1 & Q1 & L1 & A1 & N1 & C1).
  exists w1. unfold bind, ret. rewrite E1. cbn [fade_loop].
  assert (E : (0 + Z.of_nat (Z.to_nat (steps + 1)) <=? steps) = false)
    by (apply Z.leb_gt; lia).
  rewrite E. split; [reflexivity |]. split; [exact Q1 |].
  split; [exact L1 |]. split; [exact A1 |].
  split; [rewrite N1, Z2Nat.id by lia; reflexivity | exact C1].
Qed.

(** [PulseColor] hands on the error of its fade-in ... *)
Lemma pulse_loop_fade_in_error fuel i color pulseCount halfDuration stop w err w1 :
  pulseCount = 0 \/ i < pulseCount ->
  chan_ready stop w = false -> effectActive w = true ->
  FadeColor ColorOff color halfDuration stop (emit (EvPoll false) w) =
    (Done (Some err), w1) ->
  pulse_loop (S fuel) i color pulseCount halfDuration stop w =
    (Return (Some err), snd (setColor ColorOff w1)).
Proof.
  intros Hc Hr Ha E. cbn [pulse_loop].
  assert (Hcond : (pulseCount =? 0) || (i <? pulseCount) = true).
  { apply orb_true_iff. rewrite Z.eqb_eq, Z.ltb_lt. exact Hc. }
  rewrite Hcond. unfold bind, gets, ret. cbv beta.
  rewrite poll_stop_not_ready by exact Hr. cbv beta iota.
  change (effectActive (emit (EvPoll false) w)) with (effectActive w).
  rewrite Ha. cbn [negb]. rewrite E. cbv beta iota.
  destruct (setColor ColorOff w1). reflexivity.
Qed.

(** ... and the error of its fade-out. *)
Lemma pulse_loop_fade_out_error fuel i color pulseCount halfDuration stop
    w err w1 w2 :
  pulseCount = 0 \/ i < pulseCount ->
  chan_ready stop w = false -> effectActive w = true ->
  FadeColor ColorOff color halfDuration stop (emit (EvPoll false) w) =
    (Done None, w1) ->
  chan_ready stop w1 = false -> effectActive w1 = true ->
  FadeColor color ColorOff halfDuration stop (emit (EvPoll false) w1) =
    (Done (Some err), w2) ->
  pulse_loop (S fuel) i color pulseCount halfDuration stop w =
    (Return (Some err), snd (setColor ColorOff w2)).
Proof.
  intros Hc Hr Ha E1 Hr1 Ha1 E2. cbn [pulse_loop].
  assert (Hcond : (pulseCount =? 0) || (i <? pulseCount) = true).
  { apply orb_true_iff. rewrite Z.eqb_eq, Z.ltb_lt. exact Hc. }
  rewrite Hcond. unfold bind, gets, ret. cbv beta.
  rewrite poll_stop_not_ready by exact Hr. cbv beta iota.
  change (effectActive (emit (EvPoll false) w)) with (effectActive w).
  rewrite Ha. cbn [negb]. rewrite E1. cbv beta iota.
  rewrite poll_stop_not_ready by exact Hr1. cbv beta iota.
  change (effectActive (emit (EvPoll false) w1)) with (effectActive w1).
  rewrite Ha1. cbn [negb]. rewrite E2. cbv beta iota.
  destruct (setColor ColorOff w2). reflexivity.
Qed.

(** One cycle of a pulse that nothing interrupts, started at any count
    [i]: [k] writes of colors go well, in the fade-in and possibly in the
    fade-out, then a write fails. *)
Lemma pulse_loop_fails fuel i color pulseCount pulseDuration stop w k o p :
  pulseCount = 0 \/ i < pulseCount ->
  quiet stop w -> ledEnabled w = true ->
  pulse_in_range color pulseDuration = true ->
  Z.of_nat k <= 2 * fst (fade_plan (Z.quot pulseDuration 2)) + 1 ->
  accepts k o w -> first_failure o = Some p ->
  exists w',
    pulse_loop (S fuel) i color pulseCount (Z.quot pulseDuration 2) stop w =
      (Return (Some (write_error p)), w') /\
    now w' = now w +
      Z.of_nat k * Z.max (snd (fade_plan (Z.quot pulseDuration 2))) 0 /\
    setColor_calls (trace w') = (setColor_calls (trace w) + k + 3)%nat /\
    ends_off w'.
Proof.
  intros Hc Hq He Hr Hk Ha Hp.
  unfold pulse_in_range in Hr. apply andb_true_iff in Hr as [Rin Rout].
  pose proof (fade_plan_bounds (Z.quot pulseDuration 2)) as (_ & H50 & _).
  set (steps := fst (fade_plan (Z.quot pulseDuration 2))) in *.
  set (sd := snd (fade_plan (Z.quot pulseDuration 2))) in *.
  set (w0 := emit (EvPoll false) w).
  assert (Q0 : quiet stop w0) by exact Hq.
  destruct (Z.le_gt_cases (Z.of_nat k) steps) as [Hin | Hout].
  - (* the failure is in the fade-in *)
    destruct (FadeColor_fails ColorOff color (Z.quot pulseDuration 2) stop w0
                k o p Q0 He Rin Hin Ha Hp) as (w1 & E1 & N1 & C1 & _ & Q1 & L1).
    rewrite (pulse_loop_fade_in_error fuel i color pulseCount _ stop w _ w1
               Hc (proj1 (proj2 Hq)) (proj1 Hq) E1).
    pose proof (setColor_obs ColorOff w1) as O. cbn zeta in O.
    destruct O as (_ & _ & _ & N & _ & T).
    eexists. split; [reflexivity |].
    split; [rewrite N, N1; reflexivity |].
    split; [| eexists; exact T].
    rewrite T, setColor_calls_app, C1. subst w0. unfold emit. cbn [trace].
    rewrite setColor_calls_app. cbn. lia.
  - (* the fade-in goes well, the failure is in the fade-out *)
    set (n := Z.to_nat (steps + 1)).
    set (m := (k - n)%nat).
    assert (Ek : k = (n + m)%nat) by lia.
    rewrite Ek in Ha.
    destruct (FadeColor_accepted ColorOff color (Z.quot pulseDuration 2) stop w0
                m o Q0 He Rin Ha) as (w1 & E1 & Q1 & L1 & A1 & N1 & C1).
    set (w2 := emit (EvPoll false) w1).
    assert (Q2 : quiet stop w2) by exact Q1.
    destruct (FadeColor_fails color ColorOff (Z.quot pulseDuration 2) stop w2
                m o p Q2 L1 Rout ltac:(fold steps; lia) A1 Hp)
      as (w3 & E3 & N3 & C3 & _ & Q3 & L3).
    rewrite (pulse_loop_fade_out_error fuel i color pulseCount _ stop w _ w1 w3
               Hc (proj1 (proj2 Hq)) (proj1 Hq) E1
               (proj1 (proj2 Q1)) (proj1 Q1) E3).
    pose proof (setColor_obs ColorOff w3) as O. cbn zeta in O.
    destruct O as (_ & _ & _ & N & _ & T).
    eexists. split; [reflexivity |].
    split.
    + rewrite N, N3. change (now w2) with (now w1). rewrite N1.
      change (now w0) with (now w). fold steps sd. lia.
    + split; [| eexists; exact T].
      rewrite T, setColor_calls_app, C3. subst w2. unfold emit. cbn [trace].
      rewrite setColor_calls_app, C1. subst w0. unfold emit. cbn [trace].
      rewrite setColor_calls_app. cbn. fold steps. lia.
Qed.

Lemma PulseColor_fails fuel color pulseCount pulseDuration stop w k o p :
  pulseCount = 0 \/ 0 < pulseCount ->
  quiet stop w -> ledEnabled w = true ->
  pulse_in_range color pulseDuration = true ->
  Z.of_nat k <= 2 * fst (fade_plan (Z.quot pulseDuration 2)) + 1 ->
  accepts k o w -> first_failure o = Some p ->
  exists w',
    PulseColor (S fuel) color pulseCount pulseDuration stop w =
      (Done (Some (write_error p)), w') /\
    now w' = now w +
      Z.of_nat k * Z.max (snd (fade_plan (Z.quot pulseDuration 2))) 0 /\
    setColor_calls (trace w') = (setColor_calls (trace w) + k + 3)%nat /\
    ends_off w'.
Proof.
  intros Hc Hq He Hr Hk Ha Hp.
  destruct (pulse_loop_fails fuel 0 color pulseCount pulseDuration stop w k o p
              Hc Hq He Hr Hk Ha Hp) as (w' & E & H).
  exists w'. unfold PulseColor, bind, ret. rewrite E. split; [reflexivity | exact H].
Qed.

(** C3, amended.  A hardware write failure during a fade is reported
    upward and ends the primitive.  Whichever of the three channel writes
    fails first (red, green or blue), and at whichever step:
    - the fade loop attempts [setColor(ColorOff)] and returns the error of
      that write at once, without waiting and without running its
      remaining steps (1), so that a fade whose first [k] steps went well
      returns the error after [k] step durations and [k + 2] calls of
      [setColor] (2);
    - [PulseColor] returns the error of its fade, the fade-in (3) as well
      as the fade-out (4), after one more [setColor(ColorOff)] and without
      starting another fade: a cycle whose first [k] color writes went
      well, in the fade-in and possibly the fade-out, returns the error
      after [k] step durations and [k + 3] calls of [setColor] (5, 6). *)
Theorem write_failure_aborts_fade_and_pulse
    (fuel : nat) (from to color : Color)
    (duration pulseCount pulseDuration halfDuration i : Z)
    (stop k : nat) (outcomes : list bool) (p : LEDPath) (w : World) :
  ledEnabled w = true -> first_failure outcomes = Some p ->
  (forall step steps stepDuration,
     step <= steps -> effectActive w = true -> chan_ready stop w = false ->
     out_of_range (fade_color from to step steps) = false ->
     io w = outcomes ->
     exists w',
       fade_loop (S fuel) step steps stepDuration from to stop w =
         (Return (Some (write_error p)), w') /\
       trace w' = trace w ++
         [EvPoll false; EvSetColor (fade_color from to step steps);
          EvSetColor ColorOff] /\
       now w' = now w) /\
  (quiet stop w ->
   fade_in_range from to (fst (fade_plan duration)) = true ->
   Z.of_nat k <= fst (fade_plan duration) -> accepts k outcomes w ->
   exists w',
     FadeColor from to duration stop w = (Done (Some (write_error p)), w') /\
     now w' = now w + Z.of_nat k * Z.max (snd (fade_plan duration)) 0 /\
     setColor_calls (trace w') = (setColor_calls (trace w) + k + 2)%nat /\
     ends_off w') /\
  (forall err w1,
     pulseCount = 0 \/ i < pulseCount ->
     chan_ready stop w = false -> effectActive w = true ->
     FadeColor ColorOff color halfDuration stop (emit (EvPoll false) w) =
       (Done (Some err), w1) ->
     pulse_loop (S fuel) i color pulseCount halfDuration stop w =
       (Return (Some err), snd (setColor ColorOff w1))) /\
  (forall err w1 w2,
     pulseCount = 0 \/ i < pulseCount ->
     chan_ready stop w = false -> effectActive w = true ->
     FadeColor ColorOff color halfDuration stop (emit (EvPoll false) w) =
       (Done None, w1) ->
     chan_ready stop w1 = false -> effectActive w1 = true ->
     FadeColor color ColorOff halfDuration stop (emit (EvPoll false) w1) =
       (Done (Some err), w2) ->
     pulse_loop (S fuel) i color pulseCount halfDuration stop w =
       (Return (Some err), snd (setColor ColorOff w2))) /\
  (pulseCount = 0 \/ i < pulseCount ->
   quiet stop w -> pulse_in_range color pulseDuration = true ->
   Z.of_nat k <= 2 * fst (fade_plan (Z.quot pulseDuration 2)) + 1 ->
   accepts k outcomes w ->
   exists w',
     pulse_loop (S fuel) i color pulseCount (Z.quot pulseDuration 2) stop w =
       (Return (Some (write_error p)), w') /\
     now w' = now w +
       Z.of_nat k * Z.max (snd (fade_plan (Z.quot pulseDuration 2))) 0 /\
     setColor_calls (trace w') = (setColor_calls (trace w) + k + 3)%nat /\
     ends_off w') /\
  (pulseCount = 0 \/ 0 < pulseCount ->
   quiet stop w -> pulse_in_range color pulseDuration = true ->
   Z.of_nat k <= 2 * fst (fade_plan (Z.quot pulseDuration 2)) + 1 ->
   accepts k outcomes w ->
   exists w',
     PulseColor (S fuel) color pulseCount pulseDuration stop w =
       (Done (Some (write_error p)), w') /\
     now w' = now w +
       Z.of_nat k * Z.max (snd (fade_plan (Z.quot pulseDuration 2))) 0 /\
     setColor_calls (trace w') = (setColor_calls (trace w) + k + 3)%nat /\
     ends_off w').
Proof.
  intros He Hp. split; [| split; [| split; [| split; [| split]]]].
  - intros step steps stepDuration Hs Ha Hr Hc Hio.
    destruct (fade_loop_fails fuel step steps stepDuration from to stop w p
                Hs He Ha Hr Hc ltac:(rewrite Hio; exact Hp))
      as (w' & E & T & N & _).
    exists w'. auto.
  - intros Hq Hr Hk Ha.
    destruct (FadeColor_fails from to duration stop w k outcomes p
                Hq He Hr Hk Ha Hp) as (w' & E & N & C & O & _).
    exists w'. auto.
  - intros err w1 Hc Hr Ha E.
    apply pulse_loop_fade_in_error; assumption.
  - intros err w1 w2 Hc Hr Ha E1 Hr1 Ha1 E2.
    eapply pulse_loop_fade_out_error; eassumption.
  - intros Hc Hq Hr Hk Ha.
    apply (pulse_loop_fails fuel i color pulseCount pulseDuration stop w k
             outcomes p Hc Hq He Hr Hk Ha Hp).
  - intros Hc Hq Hr Hk Ha.
    apply (PulseColor_fails fuel color pulseCount pulseDuration stop w k
             outcomes p Hc Hq He Hr Hk Ha Hp).
Qed.

Lemma write_failure_aborts_fade_and_pulse_witness :
  exists w',
    PulseColor 1 ColorGreen 0 (2 * Second) 1
      (running_world (repeat true (3 * 60) ++ [true; true; false]) []) =
      (Done (Some (ErrSet BlueLEDPath (ErrWriteFile BlueLEDPath))), w') /\
    now w' = 1200 * Millisecond /\
    setColor_calls (trace w') = 63%nat.
Proof.
  set (w := running_world (repeat true (3 * 60) ++ [true; true; false]) []).
  assert (Hq : quiet 1 w) by (repeat split; reflexivity).
  assert (Hr : pulse_in_range ColorGreen (2 * Second) = true)
    by (vm_compute; reflexivity).
  assert (Hk : Z.of_nat 60 <= 2 * fst (fade_plan (Z.quot (2 * Second) 2)) + 1)
    by (vm_compute; discriminate).
  assert (Ha : accepts 60 [true; true; false] w) by reflexivity.
  pose proof (write_failure_aborts_fade_and_pulse 0 ColorOff ColorGreen ColorGreen
                (1 * Second) 0 (2 * Second) (1 * Second) 0 1 60
                [true; true; false] BlueLEDPath w eq_refl eq_refl)
    as (_ & _ & _ & _ & _ & H).
  destruct (H (or_introl eq_refl) Hq Hr Hk Ha) as (w' & E & N & C & _).
  exists w'. split; [exact E |]. split; [| exact C].
  rewrite N. vm_compute. reflexivity.
Defined.

(** ** Blink and its stop channel *)

(** Whatever is scheduled comes after the timer: the timer fires. *)
Lemma wait_stop_timer_first stop d w t a rest :
  chan_ready stop w = false -> env w = (t, a) :: rest -> now w + d <= t ->
  wait_stop stop d w =
  (false, emit (EvWait d false) (set_now (now w + Z.max d 0) w)).
Proof.
  intros Hr He Ht. unfold wait_stop. rewrite He. cbn [await]. rewrite Hr.
  destruct (Z.ltb_spec t (now w + d)) as [? | _]; [lia |].
  replace (Z.max (now w) (now w + d)) with (now w + Z.max d 0) by lia.
  reflexivity.
Qed.

(** The check before the write finds a value: off, return. *)
Lemma blink_loop_stopped_at_check fuel i color blinkCount onDuration offDuration
    stop w :
  blinkCount = 0 \/ i < blinkCount -> chan_ready stop w = true ->
  exists w',
    blink_loop (S fuel) i color blinkCount onDuration offDuration stop w =
      (Return None, w') /\
    trace w' = trace w ++ [EvPoll true; EvSetColor ColorOff] /\
    now w' = now w.
Proof.
  intros Hc Hr.
  assert (Hcond : (blinkCount =? 0) || (i <? blinkCount) = true).
  { apply orb_true_iff. rewrite Z.eqb_eq, Z.ltb_lt. exact Hc. }
  destruct (poll_stop_ready stop w Hr) as (c & n & _ & _ & Ep).
  cbn [blink_loop]. rewrite Hcond. unfold bind, gets, ret. cbv beta.
  rewrite Ep. cbv beta iota.
  match goal with |- context [setColor ColorOff ?W] =>
    pose proof (setColor_obs ColorOff W) as O; cbn zeta in O;
    destruct (setColor ColorOff W) as [r1 w1]; cbn [snd] in O
  end.
  destruct O as (_ & _ & _ & N & _ & T).
  exists w1. split; [reflexivity |]. rewrite T, N. cbn.
  rewrite <- app_assoc. split; reflexivity.
Qed.

(** A value arrives during the on-wait: the wait ends at that instant,
    off, return. *)
Lemma blink_loop_stopped_in_on_wait fuel i color blinkCount onDuration
    offDuration stop w tau rest cap :
  blinkCount = 0 \/ i < blinkCount -> effectActive w = true ->
  chans w !! stop = Some (mkChan (S cap) 0) ->
  env w = (tau, ASend stop) :: rest ->
  now w <= tau < now w + onDuration ->
  exists w',
    blink_loop (S fuel) i color blinkCount onDuration offDuration stop w =
      (Return None, w') /\
    trace w' = trace w ++
      [EvPoll false; EvSetColor color; EvWait onDuration true;
       EvSetColor ColorOff] /\
    now w' = tau /\ chans w' = chans w /\ env w' = rest.
Proof.
  intros Hc Ha Hch He Ht.
  assert (Hcond : (blinkCount =? 0) || (i <? blinkCount) = true).
  { apply orb_true_iff. rewrite Z.eqb_eq, Z.ltb_lt. exact Hc. }
  assert (R0 : chan_ready stop w = false)
    by (unfold chan_ready; rewrite Hch; reflexivity).
  cbn [blink_loop]. rewrite Hcond. unfold bind, gets, ret. cbv beta.
  rewrite poll_stop_not_ready by exact R0. cbv beta iota.
  set (w0 := emit (EvPoll false) w).
  change (effectActive w0) with (effectActive w). rewrite Ha. cbn [negb].
  pose proof (setColor_obs color w0) as O1. cbn zeta in O1.
  destruct (setColor color w0) as [r1 w1]. cbn [snd] in O1.
  destruct O1 as (C1 & A1 & V1 & N1 & L1 & T1).
  rewrite (wait_stop_signalled_world stop onDuration w1 tau rest cap)
    by (rewrite ?C1, ?V1, ?N1; assumption).
  cbv beta iota.
  match goal with |- context [setColor ColorOff ?W] =>
    pose proof (setColor_obs ColorOff W) as O2; cbn zeta in O2;
    destruct (setColor ColorOff W) as [r2 w2]; cbn [snd] in O2
  end.
  destruct O2 as (C2 & A2 & V2 & N2 & L2 & T2).
  exists w2. split; [reflexivity |].
  rewrite T2, N2, C2, V2. cbn. rewrite T1, C1. subst w0. cbn.
  rewrite <- !app_assoc. repeat split; reflexivity.
Qed.

(** A value arrives during the off-wait: the on-wait has run its whole
    time, the off-wait ends at that instant, off, return. *)
Lemma blink_loop_stopped_in_off_wait fuel i color blinkCount onDuration
    offDuration stop w tau rest cap :
  blinkCount = 0 \/ i < blinkCount -> effectActive w = true ->
  chans w !! stop = Some (mkChan (S cap) 0) ->
  env w = (tau, ASend stop) :: rest ->
  now w + Z.max onDuration 0 <= tau <
    now w + Z.max onDuration 0 + offDuration ->
  exists w',
    blink_loop (S fuel) i color blinkCount onDuration offDuration stop w =
      (Return None, w') /\
    trace w' = trace w ++
      [EvPoll false; EvSetColor color; EvWait onDuration false;
       EvSetColor ColorOff; EvWait offDuration true; EvSetColor ColorOff] /\
    now w' = tau /\ chans w' = chans w /\ env w' = rest.
Proof.
  intros Hc Ha Hch He Ht.
  assert (Hcond : (blinkCount =? 0) || (i <? blinkCount) = true).
  { apply orb_true_iff. rewrite Z.eqb_eq, Z.ltb_lt. exact Hc. }
  assert (R0 : chan_ready stop w = false)
    by (unfold chan_ready; rewrite Hch; reflexivity).
  cbn [blink_loop]. rewrite Hcond. unfold bind, gets, ret. cbv beta.
  rewrite poll_stop_not_ready by exact R0. cbv beta iota.
  set (w0 := emit (EvPoll false) w).
  change (effectActive w0) with (effectActive w). rewrite Ha. cbn [negb].
  pose proof (setColor_obs color w0) as O1. cbn zeta in O1.
  destruct (setColor color w0) as [r1 w1]. cbn [snd] in O1.
  destruct O1 as (C1 & A1 & V1 & N1 & L1 & T1).
  rewrite (wait_stop_timer_first stop onDuration w1 tau (ASend stop) rest).
  2: { unfold chan_ready. rewrite C1. exact R0. }
  2: { rewrite V1. exact He. }
  2: { rewrite N1. change (now w0) with (now w). lia. }
  cbv beta iota.
  set (w2 := emit (EvWait onDuration false)
               (set_now (now w1 + Z.max onDuration 0) w1)).
  change (effectActive w2) with (effectActive w1). rewrite A1.
  change (effectActive w0) with (effectActive w). rewrite Ha. cbn [negb].
  pose proof (setColor_obs ColorOff w2) as O3. cbn zeta in O3.
  destruct (setColor ColorOff w2) as [r3 w3]. cbn [snd] in O3.
  destruct O3 as (C3 & A3 & V3 & N3 & L3 & T3).
  rewrite (wait_stop_signalled_world stop offDuration w3 tau rest cap).
  2: { rewrite C3. change (chans w2) with (chans w1). rewrite C1. exact Hch. }
  2: { rewrite V3. change (env w2) with (env w1). rewrite V1. exact He. }
  2: { rewrite N3. change (now w2) with (now w1 + Z.max onDuration 0).
       rewrite N1. change (now w0) with (now w). exact Ht. }
  cbv beta iota.
  match goal with |- context [setColor ColorOff ?W] =>
    pose proof (setColor_obs ColorOff W) as O4; cbn zeta in O4;
    destruct (setColor ColorOff W) as [r4 w4]; cbn [snd] in O4
  end.
  destruct O4 as (C4 & A4 & V4 & N4 & L4 & T4).
  exists w4. split; [reflexivity |].
  rewrite T4, N4, C4, V4. cbn. rewrite T3, C3. subst w2. cbn.
  rewrite T1, C1. subst w0. cbn.
  rewrite <- !app_assoc. repeat split; reflexivity.
Qed.

(** C5, amended.  In [BlinkColor] the stop channel is checked before each
    write of the color and during both the on-wait and the off-wait, but
    the waits are not subdivided: each is one [select] on the stop channel
    and a timer for the whole duration, so that a blink of [n] repetitions
    that nothing interrupts makes exactly [2n] waits, of the whole
    [onDuration] and the whole [offDuration] (1).  On cancellation at any
    of these points, at any repetition, it calls [setColor(ColorOff)] and
    returns [nil]: when the check before the write finds a value (2),
    when a value arrives during the on-wait (3), and when one arrives
    during the off-wait (4); in (3) and (4) the wait ends at the instant
    the value is sent.  (A value sent at the very instant of a check or of
    a timer is left aside: which of the two goes first is not determined.)
    And whenever the loop ends in a [return], it has just called
    [setColor(ColorOff)] and it returns [nil] (5). *)
Theorem blink_single_waits (fuel : nat) (i : Z) (color : Color)
    (blinkCount onDuration offDuration : Z) (stop : nat) (w : World) :
  (0 < blinkCount <= int64_max -> quiet stop w ->
   exists w',
     BlinkColor (Z.to_nat blinkCount) color blinkCount onDuration offDuration stop w =
       (Done None, w') /\
     trace w' = trace w ++
       concat (repeat (blink_events color onDuration offDuration) (Z.to_nat blinkCount)) /\
     now w' = now w + blinkCount * (Z.max onDuration 0 + Z.max offDuration 0)) /\
  (blinkCount = 0 \/ i < blinkCount -> chan_ready stop w = true ->
   exists w',
     blink_loop (S fuel) i color blinkCount onDuration offDuration stop w =
       (Return None, w') /\
     trace w' = trace w ++ [EvPoll true; EvSetColor ColorOff] /\
     now w' = now w) /\
  (forall tau rest cap,
     blinkCount = 0 \/ i < blinkCount -> effectActive w = true ->
     chans w !! stop = Some (mkChan (S cap) 0) ->
     env w = (tau, ASend stop) :: rest ->
     now w < tau < now w + onDuration ->
     exists w',
       blink_loop (S fuel) i color blinkCount onDuration offDuration stop w =
         (Return None, w') /\
       trace w' = trace w ++
         [EvPoll false; EvSetColor color; EvWait onDuration true;
          EvSetColor ColorOff] /\
       now w' = tau) /\
  (forall tau rest cap,
     blinkCount = 0 \/ i < blinkCount -> effectActive w = true ->
     chans w !! stop = Some (mkChan (S cap) 0) ->
     env w = (tau, ASend stop) :: rest ->
     now w + Z.max onDuration 0 < tau <
       now w + Z.max onDuration 0 + offDuration ->
     exists w',
       blink_loop (S fuel) i color blinkCount onDuration offDuration stop w =
         (Return None, w') /\
       trace w' = trace w ++
         [EvPoll false; EvSetColor color; EvWait onDuration false;
          EvSetColor ColorOff; EvWait offDuration true; EvSetColor ColorOff] /\
       now w' = tau) /\
  (forall r w',
     blink_loop fuel i color blinkCount onDuration offDuration stop w = (Return r, w') ->
     r = None /\ exists tr, trace w' = tr ++ [EvSetColor ColorOff]).
Proof.
  split; [| split; [| split; [| split]]].
  - intros Hc Hq. unfold BlinkColor, bind, ret.
    destruct (blink_loop_run (Z.to_nat blinkCount) (Z.to_nat blinkCount) 0 color
                blinkCount onDuration offDuration stop w Hc ltac:(lia) ltac:(lia)
                ltac:(lia) Hq) as (w' & E & _ & T & N).
    exists w'. rewrite E. split; [reflexivity |]. split; [exact T |].
    rewrite N. rewrite Z2Nat.id by lia. reflexivity.
  - intros Hc Hr. apply blink_loop_stopped_at_check; assumption.
  - intros tau rest cap Hc Ha Hch He Ht.
    destruct (blink_loop_stopped_in_on_wait fuel i color blinkCount onDuration
                offDuration stop w tau rest cap Hc Ha Hch He ltac:(lia))
      as (w' & E & T & N & _).
    exists w'. auto.
  - intros tau rest cap Hc Ha Hch He Ht.
    destruct (blink_loop_stopped_in_off_wait fuel i color blinkCount onDuration
                offDuration stop w tau rest cap Hc Ha Hch He ltac:(lia))
      as (w' & E & T & N & _).
    exists w'. auto.
  - intros r w' H. eapply blink_loop_return. exact H.
Qed.

Lemma blink_single_waits_witness :
  exists w',
    BlinkColor 1 ColorRed 3 (200 * Millisecond) (400 * Millisecond) 1
      (running_world [] [(250 * Millisecond, ASend 1%nat)]) = (Done None, w') /\
    trace w' =
      [EvPoll false; EvSetColor ColorRed; EvWait (200 * Millisecond) false;
       EvSetColor ColorOff; EvWait (400 * Millisecond) true;
       EvSetColor ColorOff] /\
    now w' = 250 * Millisecond.
Proof.
  set (w := running_world [] [(250 * Millisecond, ASend 1%nat)]).
  assert (Ht : now w + Z.max (200 * Millisecond) 0 < 250 * Millisecond <
               now w + Z.max (200 * Millisecond) 0 + 400 * Millisecond)
    by (vm_compute; split; reflexivity).
  pose proof (blink_single_waits 0 0 ColorRed 3 (200 * Millisecond)
                (400 * Millisecond) 1 w) as (_ & _ & _ & H & _).
  destruct (H (250 * Millisecond) [] 4%nat
              (or_intror eq_refl) eq_refl eq_refl eq_refl Ht)
    as (w' & E & T & N).
  exists w'. unfold BlinkColor, bind, ret. rewrite E.
  split; [reflexivity |]. split; [exact T | exact N].
Defined.

(** ** Invariants of the whole system *)

Lemma reach_set_trace_now tr n w :
  reachable w -> reachable (set_trace tr (set_now n w)).
Proof.
  intros H.
  replace (set_trace tr (set_now n w))
    with (set_trace tr (set_env (env w) (set_now n w)))
    by (destruct w; reflexivity).
  apply reach_time. exact H.
Qed.

Lemma reach_set_env_now ev n w :
  reachable w -> reachable (set_env ev (set_now n w)).
Proof.
  intros H.
  replace (set_env ev (set_now n w))
    with (set_trace (trace w) (set_env ev (set_now n w)))
    by (destruct w; reflexivity).
  apply reach_time. exact H.
Qed.

Lemma reach_set_now n w : reachable w -> reachable (set_now n w).
Proof.
  intros H.
  replace (set_now n w) with (set_env (env w) (set_now n w))
    by (destruct w; reflexivity).
  apply reach_set_env_now. exact H.
Qed.

Lemma reach_emit e w : reachable w -> reachable (emit e w).
Proof.
  intros H.
  replace (emit e w) with (set_trace (trace w ++ [e]) (set_now (now w) w))
    by (destruct w; reflexivity).
  apply reach_set_trace_now. exact H.
Qed.

Lemma preserves_ret {A} (a : A) : preserves (ret a).
Proof. intros w H. exact H. Qed.

Lemma preserves_gets {A} (f : World -> A) : preserves (gets f).
Proof. intros w H. exact H. Qed.

Lemma preserves_bind {A B} (m : M A) (k : A -> M B) :
  preserves m -> (forall a, preserves (k a)) -> preserves (bind m k).
Proof.
  intros Hm Hk w Hw. unfold bind. specialize (Hm w Hw).
  destruct (m w) as [a w']. apply Hk. exact Hm.
Qed.

Lemma preserves_setColor c : preserves (setColor c).
Proof. intros w H. apply reach_setColor. exact H. Qed.

Lemma preserves_make_chan : preserves (make_chan 5).
Proof. intros w H. apply reach_make. exact H. Qed.

Lemma preserves_finish t : preserves (runTimedEffect_finish t).
Proof. intros w H. apply (reach_step (AFinish t)). exact H. Qed.

Lemma preserves_poll_stop stop : preserves (poll_stop stop).
Proof.
  intros w H. unfold poll_stop. unfold_m.
  pose proof (reach_recv stop w H) as R.
  destruct (try_recv stop w) as [got w1]. cbn [snd] in *.
  apply reach_emit. exact R.
Qed.

(** What the other goroutines do during a wait are steps of the system. *)
Lemma reach_await stop deadline evs :
  forall w, reachable w -> reachable (snd (await stop deadline evs w)).
Proof.
  induction evs as [|[t a] evs IH]; intros w H; cbn [await];
    destruct (chan_ready stop w); try exact H.
  - apply reach_set_now. exact H.
  - destruct (t <? deadline); [| apply reach_set_now; exact H].
    apply IH. apply reach_set_trace_now. apply reach_step.
    apply reach_set_env_now. exact H.
Qed.

Lemma preserves_wait_stop stop d : preserves (wait_stop stop d).
Proof.
  intros w H. unfold wait_stop.
  pose proof (reach_await stop (now w + d) (env w) w H) as R.
  destruct (await stop (now w + d) (env w) w) as [ready w1]. cbn [snd] in R.
  destruct ready.
  - pose proof (reach_recv stop w1 R) as R'.
    destruct (try_recv stop w1) as [got w2]. cbn [snd] in *.
    apply reach_emit. exact R'.
  - apply reach_emit. exact R.
Qed.

Create HintDb reach.
#[local] Hint Resolve preserves_ret preserves_gets preserves_setColor
  preserves_make_chan preserves_finish preserves_poll_stop
  preserves_wait_stop : reach.

(** Follow the code: a sequence is kept when its parts are, a branch when
    every arm is. *)
Ltac preserve :=
  cbv zeta;
  repeat first
    [ solve [auto with reach]
    | apply preserves_bind; [| intros ?]
    | match goal with
      | |- preserves (if ?b then _ else _) => destruct b
      | |- preserves (match ?x with _ => _ end) => destruct x
      end ].

Lemma preserves_fade_sleep stop fuel :
  forall remainingTime, preserves (fade_sleep fuel remainingTime stop).
Proof.
  induction fuel as [|fuel IH]; intros rem; cbn [fade_sleep];
    destruct (rem >? 0); preserve.
Qed.

#[local] Hint Resolve preserves_fade_sleep : reach.

Lemma preserves_fade_loop steps stepDuration from to stop fuel :
  forall step, preserves (fade_loop fuel step steps stepDuration from to stop).
Proof.
  induction fuel as [|fuel IH]; intros step; cbn [fade_loop];
    destruct (step <=? steps); preserve.
Qed.

#[local] Hint Resolve preserves_fade_loop : reach.

Lemma preserves_FadeColor from to duration stop :
  preserves (FadeColor from to duration stop).
Proof.
  unfold FadeColor. destruct (fade_plan duration) as [steps sd]. preserve.
Qed.

#[local] Hint Resolve preserves_FadeColor : reach.

Lemma preserves_pulse_loop color pulseCount halfDuration stop fuel :
  forall i, preserves (pulse_loop fuel i color pulseCount halfDuration stop).
Proof.
  induction fuel as [|fuel IH]; intros i; cbn [pulse_loop];
    destruct ((pulseCount =? 0) || (i <? pulseCount)); preserve.
Qed.

#[local] Hint Resolve preserves_pulse_loop : reach.

Lemma preserves_PulseColor fuel color pulseCount pulseDuration stop :
  preserves (PulseColor fuel color pulseCount pulseDuration stop).
Proof. unfold PulseColor. preserve. Qed.

Lemma preserves_blink_loop color blinkCount onDuration offDuration stop fuel :
  forall i,
  preserves (blink_loop fuel i color blinkCount onDuration offDuration stop).
Proof.
  induction fuel as [|fuel IH]; intros i; cbn [blink_loop];
    destruct ((blinkCount =? 0) || (i <? blinkCount)); preserve.
Qed.

#[local] Hint Resolve preserves_blink_loop : reach.

Lemma preserves_BlinkColor fuel color blinkCount onDuration offDuration stop :
  preserves (BlinkColor fuel color blinkCount onDuration offDuration stop).
Proof. unfold BlinkColor. preserve. Qed.

#[local] Hint Resolve preserves_PulseColor preserves_BlinkColor : reach.

Lemma preserves_call_loop stop fuel :
  forall isRed, preserves (call_loop fuel isRed stop).
Proof. induction fuel as [|fuel IH]; intros isRed; cbn [call_loop]; preserve. Qed.

Lemma preserves_charging_complete_loop stop fuel :
  preserves (charging_complete_loop fuel stop).
Proof. induction fuel as [|fuel IH]; cbn [charging_complete_loop]; preserve. Qed.

#[local] Hint Resolve preserves_call_loop preserves_charging_complete_loop : reach.

(** Every modelled effect body keeps the system within its reachable
    states, on whatever stop channel it runs. *)
Lemma preserves_effect_body f fuel body stop :
  effect_body f fuel = Some body -> preserves (body stop).
Proof.
  destruct f; intros E; cbn [effect_body] in E; try discriminate;
    injection E as <-;
    unfold NotificationEffect_body, CallNotificationEffect_body,
      ChargingLowBatteryEffect_body, ChargingHighBatteryEffect_body,
      ChargingCompleteEffect_body, WiFiConnectingEffect_body,
      WiFiConnectedEffect_body, WiFiFailedEffect_body,
      BluetoothConnectingEffect_body, BluetoothConnectedEffect_body,
      BluetoothFailedEffect_body, CameraFocusEffect_body,
      CameraCaptureEffect_body, CameraSavePhotoEffect_body,
      then_off, solid_effect;
    preserve.
Qed.

(** So does the goroutine of [runTimedEffect] as a whole: the local stop
    channel it makes, the body, the tail. *)
Lemma preserves_goroutine f fuel body t :
  effect_body f fuel = Some body ->
  preserves (runTimedEffect_goroutine body t).
Proof.
  intros E. unfold runTimedEffect_goroutine.
  apply preserves_bind; [apply preserves_make_chan | intros stop].
  apply preserves_bind; [eapply preserves_effect_body; exact E | intros s].
  preserve.
Qed.

Lemma reachable_tokens_ok w : reachable w -> tokens_ok w.
Proof.
  induction 1 as [|a w Hr IH|w Hr IH|ch w Hr IH|c w Hr IH|p v w Hr IH
                  |o w Hr IH|n ev tr w Hr IH]; try exact IH.
  - split; cbn; constructor.
  - apply run_action_tokens_ok; [apply reachable_wf; exact Hr | exact IH].
  - destruct (try_recv ch w) as [b w1] eqn:E.
    apply try_recv_inv in E as [cs ->]. exact IH.
  - destruct (setColor_frame c w) as (ws & o & E). rewrite E. exact IH.
  - unfold set_channel. unfold_m. destruct (ledEnabled w); exact IH.
Qed.

(** X14.  In every state the system can reach, the effect goroutines
    with their local stop channels included, [stopChan] refers to an
    existing channel, every [chan bool] has a capacity of at least 1 and
    never holds more values than its capacity, and stop channels are never
    reused: the effect goroutines launched so far were each given a
    different channel, none of which is the initial one.  The goroutine of
    any modelled effect, run from such a state on a local stop channel of
    its own, whatever the other goroutines do meanwhile, ends in such a
    state again. *)
Theorem reachable_invariants (w : World) :
  reachable w ->
  wf w /\ tokens_ok w /\
  forall f fuel body t,
    effect_body f fuel = Some body ->
    let w' := snd (runTimedEffect_goroutine body t w) in
    reachable w' /\ wf w' /\ tokens_ok w'.
Proof.
  intros H. split; [apply reachable_wf; exact H |].
  split; [apply reachable_tokens_ok; exact H |].
  intros f fuel body t E. cbn zeta.
  pose proof (preserves_goroutine f fuel body t E w H) as R.
  split; [exact R |].
  split; [apply reachable_wf; exact R | apply reachable_tokens_ok; exact R].
Qed.

Lemma reachable_invariants_witness :
  let local := snd (make_chan 5 two_started) in
  let w' := snd (CameraSavePhotoEffect_body (length (chans two_started)) local) in
  chans local !! length (chans two_started) = Some (mkChan 5 0) /\
  wf w' /\ tokens_ok w'.
Proof.
  cbn zeta.
  assert (E : two_started =
    snd (run_action (AEnter EFFECT_NOTIFICATION)
      (snd (run_action (AStartEffect EFFECT_NOTIFICATION)
        (snd (run_action (AEnter EFFECT_BOOTUP)
          (snd (run_action (AStartEffect EFFECT_BOOTUP) init_world))))))))
    by (vm_compute; reflexivity).
  assert (R : reachable two_started).
  { rewrite E. repeat apply reach_step. apply reach_init. }
  split; [vm_compute; reflexivity |].
  assert (R' : reachable
            (snd (CameraSavePhotoEffect_body (length (chans two_started))
                    (snd (make_chan 5 two_started))))).
  { apply (preserves_effect_body CameraSavePhotoEffect 0 _ _ eq_refl).
    apply reach_make. exact R. }
  destruct (reachable_invariants _ R') as (W & T & _).
  split; [exact W | exact T].
Defined.

(** ** One stop signal and the pulse *)

Lemma one_signal_not_ready stop cap tau w :
  one_signal stop cap tau w -> chan_ready stop w = false.
Proof. intros (_ & Hc & _). unfold chan_ready. rewrite Hc. reflexivity. Qed.

(** [setColor] in a world that expects one signal, when no write can
    fail. *)
Lemma setColor_one_signal stop cap tau c w :
  one_signal stop cap tau w -> writes_succeed w ->
  (ledEnabled w = true -> out_of_range c = false) ->
  exists w1,
    setColor c w = (None, w1) /\ one_signal stop cap tau w1 /\
    writes_succeed w1 /\ ledEnabled w1 = ledEnabled w /\ now w1 = now w /\
    trace w1 = trace w ++ [EvSetColor c].
Proof.
  intros (Ha & Hc & He & Hn) Hs Hr.
  destruct (setColor_none c w Hs Hr) as [E S].
  pose proof (setColor_obs c w) as O. cbn zeta in O.
  destruct (setColor c w) as [r w1]. cbn [fst snd] in *. subst r.
  destruct O as (C1 & A1 & V1 & N1 & L1 & T1).
  exists w1. split; [reflexivity |]. unfold one_signal.
  rewrite A1, C1, V1, N1. auto 10.
Qed.

(** The sleep loop of one step: either the signal arrives during it, and
    the fade turns off and returns at that instant, having received the
    value; or the loop runs its whole time and the signal is still to
    come. *)
Lemma fade_sleep_one_signal stop cap tau fuel :
  forall remainingTime w,
  remainingTime <= Z.of_nat fuel * (10 * Millisecond) ->
  one_signal stop cap tau w -> writes_succeed w ->
  exists w',
    writes_succeed w' /\ ledEnabled w' = ledEnabled w /\
    ((tau < now w + remainingTime /\
      fade_sleep fuel remainingTime stop w = (Return None, w') /\
      quiet stop w' /\ now w' = tau /\ ends_off w') \/
     (now w + Z.max remainingTime 0 <= tau /\
      fade_sleep fuel remainingTime stop w = (Continue, w') /\
      one_signal stop cap tau w' /\ now w' = now w + Z.max remainingTime 0)).
Proof.
  induction fuel as [|fuel IH]; intros rem w Hf Hone Hs; cbn [fade_sleep];
    destruct (Z.gtb_spec rem 0) as [Hpos | Hneg];
    try (exists w; split; [exact Hs |]; split; [reflexivity |]; right;
         destruct Hone as (Ha & Hc & He & Hn);
         split; [lia |]; split; [reflexivity |];
         split; [repeat split; assumption | lia]).
  - unfold Millisecond in *. lia.
  - unfold bind, gets, ret. cbv beta.
    pose proof (one_signal_not_ready _ _ _ _ Hone) as R0.
    destruct Hone as (Ha & Hc & He & Hn).
    set (st := if rem >? 10 * Millisecond then 10 * Millisecond else rem).
    assert (Hst : 0 < st <= rem /\ st <= 10 * Millisecond /\
                  rem - st <= Z.of_nat fuel * (10 * Millisecond)).
    { subst st. destruct (Z.gtb_spec rem (10 * Millisecond));
        unfold Millisecond in *; lia. }
    destruct (Z.lt_ge_cases tau (now w + st)) as [Hin | Hlater].
    + (* the signal arrives during this wait *)
      rewrite (wait_stop_signalled_world stop st w tau [] cap Hc He
                 ltac:(lia)).
      cbv beta iota.
      set (w1 := emit (EvWait st true) (set_env [] (set_now tau w))).
      destruct (setColor_none ColorOff w1 Hs ltac:(reflexivity)) as [E1 S1].
      pose proof (setColor_obs ColorOff w1) as O. cbn zeta in O.
      destruct (setColor ColorOff w1) as [r w2]. cbn [fst snd] in *.
      destruct O as (C2 & A2 & V2 & N2 & L2 & T2).
      exists w2. split; [exact S1 |]. split; [exact L2 |]. left.
      split; [lia |]. split; [reflexivity |].
      split; [| split; [exact N2 | eexists; exact T2]].
      unfold quiet, chan_ready. rewrite A2, C2, V2.
      change (chans w1) with (chans w). rewrite Hc.
      repeat split; [exact Ha].
    + (* the timer of this wait fires first *)
      rewrite (wait_stop_timer_first stop st w tau (ASend stop) [] R0 He
                 ltac:(lia)).
      cbv beta iota.
      set (w1 := emit (EvWait st false) (set_now (now w + Z.max st 0) w)).
      change (effectActive w1) with (effectActive w). rewrite Ha. cbn [negb].
      assert (One1 : one_signal stop cap tau w1).
      { repeat split; try assumption. change (now w1) with (now w + Z.max st 0).
        lia. }
      destruct (IH (rem - st) w1 ltac:(lia) One1 Hs)
        as (w' & S' & L' & [(Ht & E & Q & N & O) | (Ht & E & One & N)]);
        exists w'; (split; [exact S' |]); (split; [exact L' |]).
      * left. change (now w1) with (now w + Z.max st 0) in Ht.
        split; [lia |]. split; [exact E |]. auto.
      * right. change (now w1) with (now w + Z.max st 0) in Ht, N.
        split; [lia |]. split; [exact E |]. split; [exact One | lia].
Qed.

(** The fade loop, [n] iterations from its end. *)
Lemma fade_loop_one_signal steps stepDuration from to stop cap tau n :
  forall fuel step w,
  0 <= step -> step + Z.of_nat n = steps + 1 -> (n <= fuel)%nat ->
  one_signal stop cap tau w -> writes_succeed w ->
  (ledEnabled w = true -> fade_in_range from to steps = true) ->
  exists w',
    writes_succeed w' /\ ledEnabled w' = ledEnabled w /\
    ((tau < now w + Z.of_nat n * Z.max stepDuration 0 /\
      fade_loop fuel step steps stepDuration from to stop w = (Return None, w') /\
      quiet stop w' /\ now w' = tau /\ ends_off w') \/
     (now w + Z.of_nat n * Z.max stepDuration 0 <= tau /\
      fade_loop fuel step steps stepDuration from to stop w = (Continue, w') /\
      one_signal stop cap tau w' /\
      now w' = now w + Z.of_nat n * Z.max stepDuration 0)).
Proof.
  induction n as [|n IH]; intros fuel step w H0 Hn Hf Hone Hs Hr.
  - exists w. split; [exact Hs |]. split; [reflexivity |]. right.
    assert (E : (step <=? steps) = false) by (apply Z.leb_gt; lia).
    split; [destruct Hone as (_ & _ & _ & ?); lia |].
    split; [destruct fuel; cbn [fade_loop]; rewrite E; reflexivity |].
    split; [exact Hone | lia].
  - destruct fuel as [|fuel]; [lia |].
    cbn [fade_loop]. destruct (Z.leb_spec step steps) as [Hle | ?]; [| lia].
    unfold bind, gets, ret. cbv beta.
    rewrite poll_stop_not_ready by (eapply one_signal_not_ready; exact Hone).
    cbv beta iota.
    set (w0 := emit (EvPoll false) w).
    assert (One0 : one_signal stop cap tau w0) by exact Hone.
    rewrite (proj1 One0). cbn [negb].
    destruct (setColor_one_signal stop cap tau (fade_color from to step steps)
                w0 One0 Hs)
      as (w1 & E1 & One1 & S1 & L1 & N1 & T1).
    { intros He. apply fade_in_range_step; [apply Hr; exact He | lia]. }
    rewrite E1. cbv beta iota.
    set (M := Z.max stepDuration 0) in *.
    assert (HM : 0 <= Z.of_nat n * M) by (apply Z.mul_nonneg_nonneg; lia).
    assert (HS : Z.of_nat (S n) * M = M + Z.of_nat n * M)
      by (rewrite Nat2Z.inj_succ; lia).
    rewrite HS.
    change (now w0) with (now w) in N1.
    change (ledEnabled w0) with (ledEnabled w) in L1.
    destruct (fade_sleep_one_signal stop cap tau (sleep_fuel stepDuration)
                stepDuration w1 (sleep_fuel_enough stepDuration) One1 S1)
      as (w2 & S2 & L2 & [(Ht & E2 & Q2 & N2 & O2) | (Ht & E2 & One2 & N2)]);
      rewrite E2; cbv beta iota.
    + exists w2. split; [exact S2 |]. split; [congruence |]. left.
      split; [subst M; lia |]. split; [reflexivity |]. auto.
    + destruct (IH fuel (step + 1) w2 ltac:(lia) ltac:(lia) ltac:(lia) One2 S2)
        as (w' & S' & L' & [(Ht' & E & Q & N & O) | (Ht' & E & One & N)]).
      { intros He. apply Hr. congruence. }
      * exists w'. split; [exact S' |]. split; [congruence |]. left.
        split; [fold M in N2; lia |]. split; [exact E |]. auto.
      * exists w'. split; [exact S' |]. split; [congruence |]. right.
        fold M in N2, Ht.
        split; [lia |]. split; [exact E |]. split; [exact One | lia].
Qed.

(** A whole fade: the signal arrives during one of its waits, and the
    fade returns [nil] at that instant having turned the LED off and
    received the value; or the fade runs to its end and the signal is
    still to come.  Either way it returns [nil]. *)
Lemma FadeColor_one_signal from to duration stop cap tau w :
  one_signal stop cap tau w -> writes_succeed w ->
  (ledEnabled w = true -> fade_in_range from to (fst (fade_plan duration)) = true) ->
  let whole := (fst (fade_plan duration) + 1) *
               Z.max (snd (fade_plan duration)) 0 in
  exists w',
    FadeColor from to duration stop w = (Done None, w') /\
    writes_succeed w' /\ ledEnabled w' = ledEnabled w /\
    ((tau < now w + whole /\ quiet stop w' /\ now w' = tau /\ ends_off w') \/
     (now w + whole <= tau /\ one_signal stop cap tau w' /\
      now w' = now w + whole)).
Proof.
  intros Hone Hs Hr. cbn zeta. unfold FadeColor.
  pose proof (fade_plan_bounds duration) as (_ & H50 & _).
  destruct (fade_plan duration) as [steps sd]. cbn [fst snd] in *.
  destruct (fade_loop_one_signal steps sd from to stop cap tau
              (Z.to_nat (steps + 1)) (Z.to_nat (steps + 1)) 0 w
              ltac:(lia) ltac:(lia) ltac:(lia) Hone Hs Hr)
    as (w' & S' & L' & [(Ht & E & Q & N & O) | (Ht & E & One & N)]);
    rewrite Z2Nat.id in * by lia;
    exists w'; unfold bind, ret; rewrite E;
    (split; [reflexivity |]); (split; [exact S' |]); (split; [exact L' |]);
    [left | right]; auto.
Qed.

(** An unbounded pulse followed for [fuel] cycles. *)
Lemma pulse_loop_one_signal color pulseDuration stop cap tau fuel :
  forall i w,
  one_signal stop cap tau w -> writes_succeed w ->
  (ledEnabled w = true -> pulse_in_range color pulseDuration = true) ->
  let whole := (fst (fade_plan (Z.quot pulseDuration 2)) + 1) *
               Z.max (snd (fade_plan (Z.quot pulseDuration 2))) 0 in
  exists w',
    pulse_loop fuel i color 0 (Z.quot pulseDuration 2) stop w = (NoFuel, w') /\
    writes_succeed w' /\ ledEnabled w' = ledEnabled w /\
    ((tau < now w + Z.of_nat fuel * (2 * whole) /\ quiet stop w' /\
      tau <= now w' < now w + Z.of_nat fuel * (2 * whole)) \/
     (now w + Z.of_nat fuel * (2 * whole) <= tau /\
      one_signal stop cap tau w' /\
      now w' = now w + Z.of_nat fuel * (2 * whole))).
Proof.
  cbn zeta.
  pose proof (fade_plan_bounds (Z.quot pulseDuration 2)) as (_ & H50 & _).
  set (D := (fst (fade_plan (Z.quot pulseDuration 2)) + 1) *
            Z.max (snd (fade_plan (Z.quot pulseDuration 2))) 0).
  assert (HD : 0 <= D) by (subst D; apply Z.mul_nonneg_nonneg; lia).
  induction fuel as [|fuel IH]; intros i w Hone Hs Hr.
  - exists w. cbn [pulse_loop]. cbn [Z.eqb orb].
    split; [reflexivity |]. split; [exact Hs |]. split; [reflexivity |].
    right. destruct Hone as (Ha & Hc & He & Hn).
    split; [cbn; lia |]. split; [repeat split; assumption | cbn; lia].
  - assert (HF : 0 <= Z.of_nat fuel * (2 * D))
      by (apply Z.mul_nonneg_nonneg; lia).
    assert (HS : Z.of_nat (S fuel) * (2 * D) = 2 * D + Z.of_nat fuel * (2 * D))
      by (rewrite Nat2Z.inj_succ; lia).
    rewrite HS.
    assert (In1 : ledEnabled w = true ->
                  fade_in_range ColorOff color
                    (fst (fade_plan (Z.quot pulseDuration 2))) = true /\
                  fade_in_range color ColorOff
                    (fst (fade_plan (Z.quot pulseDuration 2))) = true).
    { intros He. apply Hr in He. unfold pulse_in_range in He.
      apply andb_true_iff in He. exact He. }
    cbn [pulse_loop]. cbn [Z.eqb orb]. unfold bind, gets, ret. cbv beta.
    rewrite poll_stop_not_ready by (eapply one_signal_not_ready; exact Hone).
    cbv beta iota.
    set (w0 := emit (EvPoll false) w).
    assert (One0 : one_signal stop cap tau w0) by exact Hone.
    rewrite (proj1 One0). cbn [negb].
    destruct (FadeColor_one_signal ColorOff color (Z.quot pulseDuration 2) stop
                cap tau w0 One0 Hs ltac:(intros He; apply In1; exact He))
      as (w1 & E1 & S1 & L1 &
          [(Ht1 & Q1 & N1 & _) | (Ht1 & One1 & N1)]);
      fold D in Ht1; try fold D in N1;
      change (now w0) with (now w) in *;
      change (ledEnabled w0) with (ledEnabled w) in L1;
      rewrite E1; cbv beta iota.
    + (* received by the fade-in *)
      rewrite poll_stop_not_ready by apply Q1. cbv beta iota.
      set (w2 := emit (EvPoll false) w1).
      assert (Q2 : quiet stop w2) by exact Q1.
      rewrite (proj1 Q2). cbn [negb].
      destruct (FadeColor_run color ColorOff (Z.quot pulseDuration 2) stop w2
                  Q2 S1) as (w3 & E3 & N3 & _ & _ & Q3 & S3 & L3).
      { intros He. apply In1. rewrite <- L1. exact He. }
      rewrite E3. cbv beta iota. rewrite (proj1 Q3). cbn [negb].
      destruct (pulse_loop_forever color pulseDuration stop fuel
                  (wrap64 (i + 1)) w3 Q3 S3) as (w' & E & Q & S & L & N).
      { intros He. apply Hr. rewrite <- L1.
        change (ledEnabled w2 = true). rewrite <- L3. exact He. }
      exists w'. split; [exact E |]. split; [exact S |].
      split; [rewrite L, L3; exact L1 |]. left.
      fold D in N3, N. change (now w2) with (now w1) in N3.
      split; [lia |]. split; [exact Q | lia].
    + (* the fade-in runs to its end *)
      rewrite poll_stop_not_ready by (eapply one_signal_not_ready; exact One1).
      cbv beta iota.
      set (w2 := emit (EvPoll false) w1).
      assert (One2 : one_signal stop cap tau w2) by exact One1.
      rewrite (proj1 One2). cbn [negb].
      destruct (FadeColor_one_signal color ColorOff (Z.quot pulseDuration 2) stop
                  cap tau w2 One2 S1)
        as (w3 & E3 & S3 & L3 &
            [(Ht3 & Q3 & N3 & _) | (Ht3 & One3 & N3)]);
        [ intros He; apply In1; rewrite <- L1; exact He | | ];
        fold D in Ht3; try fold D in N3;
        change (now w2) with (now w1) in *;
        change (ledEnabled w2) with (ledEnabled w1) in L3;
        rewrite E3; cbv beta iota.
      * (* received by the fade-out *)
        rewrite (proj1 Q3). cbn [negb].
        destruct (pulse_loop_forever color pulseDuration stop fuel
                    (wrap64 (i + 1)) w3 Q3 S3) as (w' & E & Q & S & L & N).
        { intros He. apply Hr. rewrite <- L1, <- L3. exact He. }
        exists w'. split; [exact E |]. split; [exact S |].
        split; [congruence |]. left. fold D in N.
        split; [lia |]. split; [exact Q | lia].
      * (* the whole cycle runs *)
        rewrite (proj1 One3). cbn [negb].
        destruct (IH (wrap64 (i + 1)) w3 One3 S3)
          as (w' & E & S & L & [(Ht & Q & N) | (Ht & One & N)]).
        { intros He. apply Hr. rewrite <- L1, <- L3. exact He. }
        -- exists w'. split; [exact E |]. split; [exact S |].
           split; [congruence |]. left.
           split; [lia |]. split; [exact Q | lia].
        -- exists w'. split; [exact E |]. split; [exact S |].
           split; [congruence |]. right.
           split; [lia |]. split; [exact One | lia].
Qed.

(** X17.  A single value sent on the stop channel while an unbounded
    pulse is inside one of its fades does not stop the pulse, when its
    writes cannot fail: the fade in progress at the instant [tau] of the
    send, at whichever step and in whichever of its waits, receives the
    value, turns the LED off and returns [nil] like a fade that ran to its
    end (1); so [PulseColor] finds the channel empty at its next check and
    goes on with the next fade and the following cycles.  Followed for any
    number of cycles the pulse is still running; once [tau] is past, the
    value is gone, the channel is empty, and the pulse is ahead of its
    timetable by what the interrupted fade had left to run (2).  The
    instants between two fades, at which [PulseColor] itself checks the
    channel, are left aside. *)
Theorem pulse_survives_one_stop_signal (fuel : nat) (from to color : Color)
    (duration pulseDuration tau : Z) (stop cap : nat) (w : World) :
  one_signal stop cap tau w -> writes_succeed w ->
  (ledEnabled w = true ->
   fade_in_range from to (fst (fade_plan duration)) = true ->
   tau < now w + (fst (fade_plan duration) + 1) *
                 Z.max (snd (fade_plan duration)) 0 ->
   exists w',
     FadeColor from to duration stop w = (Done None, w') /\
     quiet stop w' /\ now w' = tau /\ ends_off w') /\
  ((ledEnabled w = true -> pulse_in_range color pulseDuration = true) ->
   let fade := (fst (fade_plan (Z.quot pulseDuration 2)) + 1) *
               Z.max (snd (fade_plan (Z.quot pulseDuration 2))) 0 in
   (forall j : nat, tau <> now w + Z.of_nat j * fade) ->
   exists w',
     PulseColor fuel color 0 pulseDuration stop w = (Running, w') /\
     (tau < now w + Z.of_nat fuel * (2 * fade) ->
      quiet stop w' /\ tau <= now w' < now w + Z.of_nat fuel * (2 * fade))).
Proof.
  intros Hone Hs. split.
  - intros He Hr Ht.
    destruct (FadeColor_one_signal from to duration stop cap tau w Hone Hs
                ltac:(intros _; exact Hr))
      as (w' & E & _ & _ & [(_ & Q & N & O) | (Ht' & _)]); [| lia].
    exists w'. auto.
  - intros Hr. cbn zeta. intros _.
    destruct (pulse_loop_one_signal color pulseDuration stop cap tau fuel 0 w
                Hone Hs Hr)
      as (w' & E & _ & _ & [(Ht & Q & N) | (Ht & _)]);
      exists w'; unfold PulseColor, bind, ret; rewrite E;
      (split; [reflexivity |]); intros Ht'; [auto | lia].
Qed.

Lemma pulse_survives_one_stop_signal_witness :
  exists w',
    PulseColor 2 ColorGreen 0 (2 * Second) 1
      (running_world [] [(1234 * Millisecond, ASend 1%nat)]) = (Running, w') /\
    quiet 1 w' /\ 1234 * Millisecond <= now w' < 4080 * Millisecond.
Proof.
  set (w := running_world [] [(1234 * Millisecond, ASend 1%nat)]).
  assert (One : one_signal 1 4 (1234 * Millisecond) w)
    by (repeat split; vm_compute; discriminate).
  assert (S : writes_succeed w) by (right; reflexivity).
  assert (R : ledEnabled w = true -> pulse_in_range ColorGreen (2 * Second) = true)
    by (intros _; vm_compute; reflexivity).
  destruct (pulse_survives_one_stop_signal 2 ColorOff ColorGreen ColorGreen
              (1 * Second) (2 * Second) (1234 * Millisecond) 1 4 w One S)
    as (_ & H).
  assert (B : forall j : nat,
            1234 * Millisecond <>
            now w + Z.of_nat j *
              ((fst (fade_plan (Z.quot (2 * Second) 2)) + 1) *
               Z.max (snd (fade_plan (Z.quot (2 * Second) 2))) 0)).
  { intros j.
    change (1234000000 <> 0 + Z.of_nat j * 1020000000). lia. }
  destruct (H R B) as (w' & E & K).
  exists w'. split; [exact E |].
  apply K. vm_compute. reflexivity.
Defined.
